(** * game_logic.c / ground_renderer.c: ground rasterizer, obstacle registry,
      visibility scan and collision test

    A shallow embedding of the two C translation units and the properties
    their description states about them.

    Conventions of the embedding.
    - [float] is IEEE-754 binary32 and [double] binary64, both carried by
      [spec_float] with the operations of [SpecFloat] at the precision of the
      format (round to nearest, ties to even).  An expression that C evaluates
      in [double] (a [float] operand next to the [double] constant [M_PI], or
      a call of [fabs]) is written with the [double] operations and rounded
      back where C stores it in a [float].
    - [int] is [Z].  Signed overflow is undefined in C and is not modelled;
      the conversion of a [float] that has no [int] value is left to the
      target ([fptosi_undef]).
    - [cosf], [sinf] and [atan2f] belong to the C library, not to the
      repository; the kernel is parametric in them.
    - Static arrays are lists of their declared length, pointers handed in by
      the host are maps from an index to the cell. *)

From Stdlib Require Import ZArith List Bool Lia.
From Stdlib Require Import Floats.SpecFloat.
From stdpp Require Import base tactics list sorting.

Local Open Scope Z_scope.

(* ================================================================= *)
(** ** Floating point formats *)

Definition float := spec_float.
Definition double := spec_float.

Module F32.
Definition prec : Z := 24.
Definition emax : Z := 128.

Definition add : float -> float -> float := SFadd prec emax.
Definition sub : float -> float -> float := SFsub prec emax.
Definition mul : float -> float -> float := SFmul prec emax.
Definition div : float -> float -> float := SFdiv prec emax.
Definition ltb : float -> float -> bool := SFltb.
Definition leb : float -> float -> bool := SFleb.
Definition gtb (a b : float) : bool := SFltb b a.
Definition geb (a b : float) : bool := SFleb b a.

(** [(float) n] for an [int] [n]. *)
Definition of_int (n : Z) : float := binary_normalize prec emax n 0 false.

(** A decimal literal [num / den] with the suffix [f]: the nearest float. *)
Definition lit (num den : positive) : float :=
  SFdiv prec emax (S754_finite false num 0) (S754_finite false den 0).

(** [(float) d] for a [double] [d]. *)
Definition of_double (d : double) : float :=
  match d with
  | S754_finite s m e => binary_round prec emax s m e
  | _ => d
  end.

Definition zero : float := S754_zero false.
End F32.

Module F64.
Definition prec : Z := 53.
Definition emax : Z := 1024.

Definition sub : double -> double -> double := SFsub prec emax.
Definition mul : double -> double -> double := SFmul prec emax.
Definition ltb : double -> double -> bool := SFltb.
Definition gtb (a b : double) : bool := SFltb b a.

(** The promotion of a [float] to [double]: the same number, with the
    mantissa aligned to the wider format. *)
Definition of_float (f : float) : double :=
  match f with
  | S754_finite s m e => binary_round prec emax s m e
  | _ => f
  end.

(** [fabs] of <math.h>. *)
Definition fabs (d : double) : double := SFabs d.
End F64.

Declare Scope f32_scope.
Delimit Scope f32_scope with f32.
Notation "a + b" := (F32.add a b) : f32_scope.
Notation "a - b" := (F32.sub a b) : f32_scope.
Notation "a * b" := (F32.mul a b) : f32_scope.
Notation "a / b" := (F32.div a b) : f32_scope.
Notation "a <? b" := (F32.ltb a b) : f32_scope.
Notation "a <=? b" := (F32.leb a b) : f32_scope.
Notation "a >? b" := (F32.gtb a b) : f32_scope.
Notation "a >=? b" := (F32.geb a b) : f32_scope.
Notation "- a" := (SFopp a) : f32_scope.

(** The literals of the two files. *)
Definition f_0_5 : float := F32.lit 5 10.
Definition f_1_0 : float := F32.of_int 1.
Definition f_2_0 : float := F32.of_int 2.
Definition f_1_2 : float := F32.lit 12 10.
Definition f_0_1 : float := F32.lit 1 10.
Definition f_0_4 : float := F32.lit 4 10.
Definition f_0_0001 : float := F32.lit 1 10000.

(** [#define M_PI 3.14159265358979323846], a [double]. *)
Definition M_PI : double := S754_finite false 7074237752028440 (-51).

(** [fabsf] and [ceilf] of <math.h>; both are exact. *)
Definition fabsf (f : float) : float := SFabs f.

Definition ceilf (f : float) : float :=
  match f with
  | S754_finite s m e =>
      if 0 <=? e then f
      else
        let q := Z.shiftr (Zpos m) (- e) in
        let r := Z.land (Zpos m) (Z.ones (- e)) in
        if s then (if q =? 0 then S754_zero true else F32.of_int (- q))
        else F32.of_int (if r =? 0 then q else q + 1)
  | _ => f
  end.

Definition INT_MIN : Z := - 2 ^ 31.
Definition INT_MAX : Z := 2 ^ 31 - 1.

(** The integer a finite float truncates to (toward zero). *)
Definition trunc (f : float) : option Z :=
  match f with
  | S754_zero _ => Some 0
  | S754_finite s m e =>
      let q := if 0 <=? e then Z.shiftl (Zpos m) e else Z.shiftr (Zpos m) (- e) in
      Some (if s then - q else q)
  | _ => None
  end.

(* ================================================================= *)
(** ** What the target supplies *)

(** The C library's single-precision [cosf], [sinf], [atan2f], and the value
    of [(int) f] when [f] is a NaN, an infinity or outside the range of
    [int] (undefined in C, fixed by the compiler and the machine). *)
Class Target := {
  cosf : float -> float;
  sinf : float -> float;
  atan2f : float -> float -> float;
  fptosi_undef : float -> Z
}.

(** [(int) f]. *)
Definition fptosi `{Target} (f : float) : Z :=
  match trunc f with
  | Some z => if (INT_MIN <=? z) && (z <=? INT_MAX) then z else fptosi_undef f
  | None => fptosi_undef f
  end.

(* ================================================================= *)
(** ** Control flow *)

Section Loops.
Context {St R : Type}.

(** [for (i = lo; i < hi; i++) body], where an iteration either goes on
    with a new state ([inr]) or leaves the loop with a result ([inl]: a
    [return], a [goto] out of the nest, a failed second conjunct of the
    loop condition). *)
Fixpoint for_nat (n : nat) (i : Z) (body : Z -> St -> R + St) (s : St) : R + St :=
  match n with
  | O => inr s
  | S n' =>
      match body i s with
      | inl r => inl r
      | inr s' => for_nat n' (i + 1) body s'
      end
  end.

Definition for_range (lo hi : Z) (body : Z -> St -> R + St) (s : St) : R + St :=
  for_nat (Z.to_nat (hi - lo)) lo body s.
End Loops.

(** A loop that is never left early. *)
Fixpoint iter_nat {St : Type} (n : nat) (i : Z) (body : Z -> St -> St) (s : St) : St :=
  match n with
  | O => s
  | S n' => iter_nat n' (i + 1) body (body i s)
  end.

Definition for_loop {St : Type} (lo hi : Z) (body : Z -> St -> St) (s : St) : St :=
  iter_nat (Z.to_nat (hi - lo)) lo body s.

(** Both ways out of a loop lead to the same statement. *)
Definition join {St : Type} (r : St + St) : St :=
  match r with inl s => s | inr s => s end.

(* ================================================================= *)
(** ** The obstacle registry *)

Definition MAX_OBSTACLES : Z := 10000.
Definition MAX_PROCESSED : Z := 20000.
#[global] Arguments MAX_OBSTACLES : simpl never.
#[global] Arguments MAX_PROCESSED : simpl never.

Record Obstacle := {
  obs_x : float; obs_y : float; obs_radius : float; obs_height : float;
  obs_id : Z; obs_type : Z
}.

Record ProcessedObstacle := {
  po_obstacle_id : Z; po_is_between : Z; po_type : Z;
  po_dx : float; po_dy : float; po_dist_sq : float
}.

Definition zero_obstacle : Obstacle :=
  {| obs_x := F32.zero; obs_y := F32.zero; obs_radius := F32.zero;
     obs_height := F32.zero; obs_id := 0; obs_type := 0 |}.

Definition zero_processed : ProcessedObstacle :=
  {| po_obstacle_id := 0; po_is_between := 0; po_type := 0;
     po_dx := F32.zero; po_dy := F32.zero; po_dist_sq := F32.zero |}.

#[export] Instance Obstacle_inhabited : Inhabited Obstacle := populate zero_obstacle.
#[export] Instance ProcessedObstacle_inhabited : Inhabited ProcessedObstacle :=
  populate zero_processed.

(** The three statics of game_logic.c. *)
Record State := {
  obstacles : list Obstacle;
  processed : list ProcessedObstacle;
  obstacle_count : Z
}.

(** A pointer to floats handed in by the host: the cell at each index. *)
Definition fbuf := Z -> float.

Definition fstore (b : fbuf) (i : Z) (v : float) : fbuf :=
  fun k => if k =? i then v else b k.

(** The statics as the program starts: zero-initialised. *)
Definition initial_state : State :=
  {| obstacles := replicate (Z.to_nat MAX_OBSTACLES) zero_obstacle;
     processed := replicate (Z.to_nat MAX_PROCESSED) zero_processed;
     obstacle_count := 0 |}.

Definition test_obstacle_wasm : Z := 42.

Definition init_obstacles (st : State) : State :=
  {| obstacles := replicate (length (obstacles st)) zero_obstacle;
     processed := processed st;
     obstacle_count := 0 |}.

Section Registry.
Context `{Target}.

(** One round of the loop of [add_obstacles_batch]. *)
Definition add_one (data : fbuf) (i : Z) (s : State * Z) : State * Z + State * Z :=
  let '(st, added) := s in
  if obstacle_count st <? MAX_OBSTACLES then
    let idx := i * 6 in
    let o := {| obs_x := data idx;
                obs_y := data (idx + 1);
                obs_radius := data (idx + 2);
                obs_height := data (idx + 3);
                obs_id := fptosi (data (idx + 4));
                obs_type := fptosi (data (idx + 5)) |} in
    inr ({| obstacles := <[Z.to_nat (obstacle_count st) := o]> (obstacles st);
            processed := processed st;
            obstacle_count := obstacle_count st + 1 |}, added + 1)
  else inl (st, added).

Definition add_obstacles_batch (data : fbuf) (count : Z) (st : State) : State * Z :=
  join (for_range 0 count (add_one data) (st, 0)).
End Registry.

Definition get_obstacle_count (st : State) : Z := obstacle_count st.

(* ================================================================= *)
(** ** Collision *)

(** The half-period correction both the collision test and the player
    projection apply to a displacement. *)
Definition wrap_delta (d half period : float) : float :=
  if (d >? half)%f32 then (d - period)%f32
  else if (d <? - half)%f32 then (d + period)%f32
  else d.

(** The body of the loop of [check_collision] for one obstacle: [true] when
    the function returns 1 there. *)
Definition collides (obs : Obstacle)
    (player_radius player_height new_x new_y map_width map_height : float) : bool :=
  let half_map_w := (map_width / f_2_0)%f32 in
  let half_map_h := (map_height / f_2_0)%f32 in
  if (player_height >=? obs_height obs)%f32 then false
  else
    let dx := (new_x - obs_x obs)%f32 in
    let dy := (new_y - obs_y obs)%f32 in
    let dx := wrap_delta dx half_map_w map_width in
    let dy := wrap_delta dy half_map_h map_height in
    let dist_sq := (dx * dx + dy * dy)%f32 in
    let combined_radius := (obs_radius obs + player_radius)%f32 in
    (dist_sq <? combined_radius * combined_radius)%f32.

Definition check_collision
    (player_x player_y player_radius player_height new_x new_y map_width map_height : float)
    (st : State) : Z :=
  match
    for_range 0 (obstacle_count st)
      (fun i (_ : unit) =>
         if collides (obstacles st !!! Z.to_nat i)
              player_radius player_height new_x new_y map_width map_height
         then inl 1 else inr tt) tt
  with
  | inl r => r
  | inr _ => 0
  end.

(* ================================================================= *)
(** ** Visibility *)

(** [normalize_angle]: the two [while] loops, each with a bound on the number
    of rounds (a round that does not change [angle] would repeat for ever). *)
Definition two_pi : double := F64.mul (F64.of_float f_2_0) M_PI.

Fixpoint normalize_down (fuel : nat) (angle : float) : option float :=
  if F64.gtb (F64.of_float angle) M_PI then
    match fuel with
    | O => None
    | S fuel' => normalize_down fuel' (F32.of_double (F64.sub (F64.of_float angle) two_pi))
    end
  else Some angle.

Fixpoint normalize_up (fuel : nat) (angle : float) : option float :=
  if F64.ltb (F64.of_float angle) (SFopp M_PI) then
    match fuel with
    | O => None
    | S fuel' =>
        normalize_up fuel' (F32.of_double (SFadd F64.prec F64.emax (F64.of_float angle) two_pi))
    end
  else Some angle.

Definition normalize_angle (fuel : nat) (angle : float) : option float :=
  match normalize_down fuel angle with
  | Some a => normalize_up fuel a
  | None => None
  end.

(** The scalars [process_visible_obstacles] computes before its loops, and
    its arguments the loops read. *)
Record View := {
  v_camera_x : float; v_camera_y : float; v_camera_angle : float;
  v_player_height : float; v_max_render_distance : float;
  v_map_width : float; v_map_height : float;
  v_half_fov : float; v_cos_a : float; v_sin_a : float;
  v_player_t : float; v_search_radius : float
}.

Section Visibility.
Context `{Target}.

Definition make_view
    (camera_x camera_y camera_angle player_x player_y player_height
     fov max_render_distance map_width map_height : float) : View :=
  let half_fov := (fov / f_2_0)%f32 in
  let cos_a := cosf camera_angle in
  let sin_a := sinf camera_angle in
  let half_map_w := (map_width / f_2_0)%f32 in
  let half_map_h := (map_height / f_2_0)%f32 in
  let player_dx_wrapped := wrap_delta (player_x - camera_x)%f32 half_map_w map_width in
  let player_dy_wrapped := wrap_delta (player_y - camera_y)%f32 half_map_h map_height in
  let player_t := (player_dx_wrapped * cos_a + player_dy_wrapped * sin_a)%f32 in
  let search_radius := (max_render_distance * f_1_2)%f32 in
  {| v_camera_x := camera_x; v_camera_y := camera_y; v_camera_angle := camera_angle;
     v_player_height := player_height; v_max_render_distance := max_render_distance;
     v_map_width := map_width; v_map_height := map_height;
     v_half_fov := half_fov; v_cos_a := cos_a; v_sin_a := sin_a;
     v_player_t := player_t; v_search_radius := search_radius |}.

Definition tiles_x (v : View) : Z := fptosi (ceilf (v_search_radius v / v_map_width v)%f32).
Definition tiles_y (v : View) : Z := fptosi (ceilf (v_search_radius v / v_map_height v)%f32).

(** The displacement from the camera to the image of [obs] in tile
    [(tx, ty)], and what the loop body derives from it. *)
Definition image_dx (v : View) (obs : Obstacle) (tx : Z) : float :=
  ((obs_x obs + F32.of_int tx * v_map_width v) - v_camera_x v)%f32.
Definition image_dy (v : View) (obs : Obstacle) (ty : Z) : float :=
  ((obs_y obs + F32.of_int ty * v_map_height v) - v_camera_y v)%f32.
Definition image_dist_sq (dx dy : float) : float := (dx * dx + dy * dy)%f32.

Definition angle_diff (v : View) (dx dy : float) : float :=
  let angle_to_obstacle := atan2f dy dx in
  let angle_diff := fabsf (angle_to_obstacle - v_camera_angle v)%f32 in
  if F64.gtb (F64.of_float angle_diff) M_PI
  then F32.of_double (F64.sub two_pi (F64.of_float angle_diff))
  else angle_diff.

Definition obstacle_t (v : View) (dx dy : float) : float :=
  (dx * v_cos_a v + dy * v_sin_a v)%f32.

Definition is_between_camera_and_player (v : View) (obs : Obstacle) (t : float) : Z :=
  if (v_player_height v <? obs_height obs)%f32 && (t >? f_0_5)%f32
     && (t <? v_player_t v)%f32
  then 1 else 0.

(** The body of the innermost loop, on the statics and [processed_count];
    [obs] is the pointer [&obstacles[i]], read where it is used, and [inl]
    is the [goto sort_and_return]. *)
Definition scan_state : Type := State * Z.

Definition store_processed (st : State) (k : Z) (p : ProcessedObstacle) : State :=
  {| obstacles := obstacles st;
     processed := <[Z.to_nat k := p]> (processed st);
     obstacle_count := obstacle_count st |}.

Definition visit (v : View) (i tx ty : Z) (s : scan_state) : scan_state + scan_state :=
  let '(st, processed_count) := s in
  let obs := obstacles st !!! Z.to_nat i in
  let dx := image_dx v obs tx in
  let dy := image_dy v obs ty in
  let dist_sq := image_dist_sq dx dy in
  if (dist_sq <? v_max_render_distance v * v_max_render_distance v)%f32 then
    if (angle_diff v dx dy <=? v_half_fov v + f_0_5)%f32 then
      let t := obstacle_t v dx dy in
      let between := is_between_camera_and_player v obs t in
      if (t >? f_0_5)%f32 then
        if MAX_PROCESSED <=? processed_count then inl s
        else
          inr (store_processed st processed_count
                 {| po_obstacle_id := obs_id obs; po_is_between := between;
                    po_type := obs_type obs;
                    po_dx := dx; po_dy := dy; po_dist_sq := dist_sq |},
               processed_count + 1)
      else inr s
    else inr s
  else inr s.

Definition scan (v : View) (st : State) : scan_state :=
  join
    (for_range 0 (obstacle_count st)
       (fun i s =>
          let tiles_x := tiles_x v in
          let tiles_y := tiles_y v in
          for_range (- tiles_x) (tiles_x + 1)
            (fun tx s => for_range (- tiles_y) (tiles_y + 1) (visit v i tx) s) s)
       (st, 0)).

(** The bubble sort after the label. *)
Definition swap_step (j : Z) (st : State) : State :=
  let a := processed st !!! Z.to_nat j in
  let b := processed st !!! Z.to_nat (j + 1) in
  if (po_dist_sq a <? po_dist_sq b)%f32
  then store_processed (store_processed st j b) (j + 1) a
  else st.

Definition sort_processed (processed_count : Z) (st : State) : State :=
  for_loop 0 (processed_count - 1)
    (fun i st => for_loop 0 (processed_count - i - 1) swap_step st) st.

(** The copy to the output buffer. *)
Definition write_record (st : State) (i : Z) (out : fbuf) : fbuf :=
  let idx := i * 6 in
  let p := processed st !!! Z.to_nat i in
  let out := fstore out idx (F32.of_int (po_obstacle_id p)) in
  let out := fstore out (idx + 1) (po_dx p) in
  let out := fstore out (idx + 2) (po_dy p) in
  let out := fstore out (idx + 3) (po_dist_sq p) in
  let out := fstore out (idx + 4) (F32.of_int (po_is_between p)) in
  fstore out (idx + 5) (F32.of_int (po_type p)).

(** [process_visible_obstacles]: the statics after the call, the output
    buffer after the call ([None] is the null pointer) and the value
    returned.  The two [printf] of the early returns are not modelled. *)
Definition process_visible_obstacles
    (camera_x camera_y camera_z camera_angle player_x player_y player_height
     fov max_render_distance map_width map_height : float)
    (output_buffer : option fbuf) (st : State) : State * option fbuf * Z :=
  match output_buffer with
  | None => (st, None, 0)
  | Some out =>
      if obstacle_count st =? 0 then (st, Some out, 0)
      else
        let v := make_view camera_x camera_y camera_angle player_x player_y
                   player_height fov max_render_distance map_width map_height in
        let '(st, processed_count) := scan v st in
        let st := sort_processed processed_count st in
        let out := for_loop 0 processed_count (write_record st) out in
        (st, Some out, processed_count)
  end.
End Visibility.

(** What one exported function does to the statics.  [check_collision] and
    [get_obstacle_count] contain no store. *)
Inductive Call :=
| Call_init_obstacles
| Call_add_obstacles_batch (data : fbuf) (count : Z)
| Call_process_visible_obstacles
    (camera_x camera_y camera_z camera_angle player_x player_y player_height
     fov max_render_distance map_width map_height : float) (output_buffer : option fbuf)
| Call_get_obstacle_count
| Call_check_collision
    (player_x player_y player_radius player_height new_x new_y map_width map_height : float).

Definition exec `{Target} (c : Call) (st : State) : State :=
  match c with
  | Call_init_obstacles => init_obstacles st
  | Call_add_obstacles_batch data count => fst (add_obstacles_batch data count st)
  | Call_process_visible_obstacles cx cy cz ca px py ph fov mrd mw mh out =>
      fst (fst (process_visible_obstacles cx cy cz ca px py ph fov mrd mw mh out st))
  | Call_get_obstacle_count => st
  | Call_check_collision _ _ _ _ _ _ _ _ => st
  end.

(* ================================================================= *)
(** ** The ground rasterizer *)

Definition test_wasm : Z := 42.

Definition fast_mod (value modulus : Z) : Z :=
  let result := Z.rem value modulus in
  if result <? 0 then result + modulus else result.

(** The destination buffer: its bytes, and the addresses stored to so far,
    latest first. *)
Record pixbuf := { px_bytes : list Z; px_stores : list Z }.

Definition store8 (p : pixbuf) (i v : Z) : pixbuf :=
  {| px_bytes := <[Z.to_nat i := v]> (px_bytes p); px_stores := i :: px_stores p |}.

(** [memcpy (&p[dst], &p[src], n)]. *)
Definition memcpy (p : pixbuf) (dst src n : Z) : pixbuf :=
  {| px_bytes :=
       list_inserts (Z.to_nat dst) (take (Z.to_nat n) (drop (Z.to_nat src) (px_bytes p)))
         (px_bytes p);
     px_stores := rev (seqZ dst n) ++ px_stores p |}.

(** [for (x = lo; x < hi; x += step) body]. *)
Fixpoint stride_nat {St : Type} (fuel : nat) (x hi step : Z) (body : Z -> St -> St) (s : St)
    : option St :=
  if x <? hi then
    match fuel with
    | O => None
    | S fuel' => stride_nat fuel' (x + step) hi step body (body x s)
    end
  else Some s.

(** The scalars of one scanline. *)
Record Scanline := { sl_lX : float; sl_lY : float; sl_dx : float; sl_dy : float }.

Definition scanline (ground_w y : Z) (camera_x camera_y cos_a sin_a sh_focal tan_f : float)
    : Scanline :=
  let inv_ground_w := (f_1_0 / F32.of_int ground_w)%f32 in
  let i := (F32.of_int y + f_1_0)%f32 in
  let dist := (sh_focal / i)%f32 in
  let lat := (dist * tan_f)%f32 in
  let dist_cos := (dist * cos_a)%f32 in
  let dist_sin := (dist * sin_a)%f32 in
  let lat_sin := (lat * sin_a)%f32 in
  let lat_cos := (lat * cos_a)%f32 in
  let lX := (camera_x + dist_cos - lat_sin)%f32 in
  let lY := (camera_y + dist_sin + lat_cos)%f32 in
  let rX := (camera_x + dist_cos + lat_sin)%f32 in
  let rY := (camera_y + dist_sin - lat_cos)%f32 in
  {| sl_lX := lX; sl_lY := lY;
     sl_dx := ((rX - lX) * inv_ground_w)%f32;
     sl_dy := ((rY - lY) * inv_ground_w)%f32 |}.

(** The state of the loop over the columns of a row. *)
Definition row_state : Type := pixbuf * float * float.

Section Rasterizer.
Context `{Target}.

Definition map_index (map_w map_h : Z) (cur_x cur_y : float) : Z :=
  let mx := fast_mod (fptosi cur_x) map_w in
  let my := fast_mod (fptosi cur_y) map_h in
  (my * map_w + mx) * 4.

Definition quality_pixel (map_data : list Z) (map_w map_h row_offset : Z) (sl : Scanline)
    (x : Z) (s : row_state) : row_state :=
  let '(p, cur_x, cur_y) := s in
  let map_index := map_index map_w map_h cur_x cur_y in
  let target_index := row_offset + x * 4 in
  let p := store8 p target_index (map_data !!! Z.to_nat map_index) in
  let p := store8 p (target_index + 1) (map_data !!! Z.to_nat (map_index + 1)) in
  let p := store8 p (target_index + 2) (map_data !!! Z.to_nat (map_index + 2)) in
  let p := store8 p (target_index + 3) 255 in
  (p, (cur_x + sl_dx sl)%f32, (cur_y + sl_dy sl)%f32).

Definition render_ground_quality
    (ground_pixels : pixbuf) (map_data : list Z) (ground_w ground_h map_w map_h : Z)
    (camera_x camera_y cos_a sin_a sh_focal tan_f : float) : pixbuf :=
  for_loop 0 ground_h
    (fun y p =>
       let sl := scanline ground_w y camera_x camera_y cos_a sin_a sh_focal tan_f in
       let row_offset := y * ground_w * 4 in
       fst (fst (for_loop 0 ground_w (quality_pixel map_data map_w map_h row_offset sl)
                   (p, sl_lX sl, sl_lY sl))))
    ground_pixels.

(** The step of a row in performance mode (game_logic.c). *)
Definition is_tilting (tilt : float) : bool :=
  F64.gtb (F64.fabs (F64.of_float tilt)) (F64.of_float f_0_0001).

Definition effective_rot (state_rot : Z) (tilt : float) : bool :=
  negb (state_rot =? 0) || is_tilting tilt.

Definition far_ratio : float := f_0_1.
Definition mid_ratio : float := f_0_5.
Definition t1 (ground_h : Z) : float := (F32.of_int ground_h * far_ratio)%f32.
Definition t2 (ground_h : Z) : float :=
  (F32.of_int ground_h * (far_ratio + mid_ratio))%f32.

Definition row_step (ground_h y base_res dynamic_res layered_res state_move state_rot : Z)
    (tilt : float) : Z :=
  let i := (F32.of_int y + f_1_0)%f32 in
  let effective_rot := effective_rot state_rot tilt in
  let both := negb (dynamic_res =? 0) && negb (layered_res =? 0) in
  let step :=
    if (i <=? t1 ground_h)%f32 then
      if both then (if effective_rot then 5 else 4) else base_res
    else if (i <=? t2 ground_h)%f32 then
      if both then (if effective_rot then 5 else if negb (state_move =? 0) then 4 else 2)
      else base_res
    else
      if both then (if effective_rot then 8 else if negb (state_move =? 0) then 6 else 2)
      else base_res in
  if step <? 1 then 1 else step.

(** The same selection as ground_renderer.c writes it. *)
Definition row_step_ground_renderer
    (ground_h y base_res dynamic_res layered_res state_move state_rot : Z) (tilt : float) : Z :=
  let i := (F32.of_int y + f_1_0)%f32 in
  let effective_rot := effective_rot state_rot tilt in
  let both := negb (dynamic_res =? 0) && negb (layered_res =? 0) in
  let step :=
    if (i <=? t1 ground_h)%f32 then
      if both then (if effective_rot then 5 else if negb (state_move =? 0) then 4 else 4)
      else base_res
    else if (i <=? t2 ground_h)%f32 then
      if both then (if effective_rot then 5 else if negb (state_move =? 0) then 4 else 2)
      else base_res
    else
      if both then (if effective_rot then 8 else if negb (state_move =? 0) then 6 else 2)
      else base_res in
  if step <? 1 then 1 else step.

(** One block of a recomputed row: a sample, and [step] pixels at most. *)
Definition performance_block (map_data : list Z) (ground_w map_w map_h row_offset step : Z)
    (sl : Scanline) (x : Z) (s : row_state) : row_state :=
  let '(p, cur_x, cur_y) := s in
  let map_index := map_index map_w map_h cur_x cur_y in
  let r := map_data !!! Z.to_nat map_index in
  let g := map_data !!! Z.to_nat (map_index + 1) in
  let b := map_data !!! Z.to_nat (map_index + 2) in
  let end_x := if ground_w <? x + step then ground_w else x + step in
  let p :=
    for_loop x end_x
      (fun block_x p =>
         let target_index := row_offset + block_x * 4 in
         let p := store8 p target_index r in
         let p := store8 p (target_index + 1) g in
         let p := store8 p (target_index + 2) b in
         store8 p (target_index + 3) 255) p in
  (p, (cur_x + sl_dx sl * F32.of_int step)%f32, (cur_y + sl_dy sl * F32.of_int step)%f32).

(** The body of the loop over the rows; the state is the buffer and
    [last_calculated_y].  [inl tt]: the loop over the columns did not end
    within [ground_w] rounds. *)
Definition performance_row
    (map_data : list Z) (ground_w ground_h map_w map_h : Z)
    (camera_x camera_y cos_a sin_a sh_focal tan_f : float)
    (base_res dynamic_res layered_res state_move state_rot : Z) (tilt : float)
    (y : Z) (s : pixbuf * Z) : unit + pixbuf * Z :=
  let '(p, last_calculated_y) := s in
  let step := row_step ground_h y base_res dynamic_res layered_res state_move state_rot tilt in
  if (0 <? y) && negb (Z.rem y step =? 0) && (0 <=? last_calculated_y) then
    inr (memcpy p (y * ground_w * 4) (last_calculated_y * ground_w * 4) (ground_w * 4),
         last_calculated_y)
  else
    let sl := scanline ground_w y camera_x camera_y cos_a sin_a sh_focal tan_f in
    let row_offset := y * ground_w * 4 in
    match
      stride_nat (Z.to_nat ground_w) 0 ground_w step
        (performance_block map_data ground_w map_w map_h row_offset step sl)
        (p, sl_lX sl, sl_lY sl)
    with
    | Some (p, _, _) => inr (p, y)
    | None => inl tt
    end.

Definition render_ground_performance
    (ground_pixels : pixbuf) (map_data : list Z) (ground_w ground_h map_w map_h : Z)
    (camera_x camera_y cos_a sin_a sh_focal tan_f : float)
    (base_res dynamic_res layered_res state_move state_rot : Z) (tilt : float)
    : option pixbuf :=
  match
    for_range 0 ground_h
      (performance_row map_data ground_w ground_h map_w map_h
         camera_x camera_y cos_a sin_a sh_focal tan_f
         base_res dynamic_res layered_res state_move state_rot tilt)
      (ground_pixels, -1)
  with
  | inl _ => None
  | inr (p, _) => Some p
  end.
End Rasterizer.

(* ================================================================= *)
(** * The vocabulary of the properties *)

(** What the type of the statics and the code maintain: the two arrays have
    their declared length and the count stays within the first. *)
Definition State_wf (st : State) : Prop :=
  length (obstacles st) = Z.to_nat MAX_OBSTACLES /\
  length (processed st) = Z.to_nat MAX_PROCESSED /\
  0 <= obstacle_count st <= MAX_OBSTACLES.

(** The record [add_obstacles_batch] builds from the [k]-th tuple of [data]. *)
Definition record_at `{Target} (data : fbuf) (k : Z) : Obstacle :=
  {| obs_x := data (k * 6); obs_y := data (k * 6 + 1);
     obs_radius := data (k * 6 + 2); obs_height := data (k * 6 + 3);
     obs_id := fptosi (data (k * 6 + 4)); obs_type := fptosi (data (k * 6 + 5)) |}.

(** What holds of the loop state of [add_obstacles_batch] after [i] rounds
    that stored a record each, started from [st0]. *)
Definition added_from `{Target} (data : fbuf) (st0 : State) (i : Z) (s : State * Z) : Prop :=
  let '(st, added) := s in
  added = i /\
  obstacle_count st = obstacle_count st0 + i /\
  obstacle_count st <= MAX_OBSTACLES /\
  length (obstacles st) = length (obstacles st0) /\
  processed st = processed st0 /\
  (forall k, 0 <= k < i ->
     obstacles st !! Z.to_nat (obstacle_count st0 + k) = Some (record_at data k)) /\
  (forall j : nat,
     (j < Z.to_nat (obstacle_count st0) \/ Z.to_nat (obstacle_count st0 + i) <= j)%nat ->
     obstacles st !! j = obstacles st0 !! j).

(** A target to evaluate the kernel on concrete inputs: the values of
    [cosf], [sinf] and [atan2f] at the arguments the examples use
    ([cosf 0 = 1], [sinf 0 = 0], [atan2f (+-0, x) = +-0] for [x > 0] and
    [atan2f (y, +-0) = -pi/2] for [y < 0] as the C standard fixes them, and
    the floats nearest to [cos 5.5] and [sin 5.5]), NaN elsewhere; a
    conversion without a value gives [INT_MIN]. *)
Definition f_5_5 : float := F32.lit 55 10.
Definition minus_half_pi : float := S754_finite true 13176795 (-23).

Definition example_target : Target := {|
  cosf := fun a =>
    if SFeqb a F32.zero then f_1_0
    else if SFeqb a f_5_5 then S754_finite false 11889506 (-24)
    else S754_nan;
  sinf := fun a =>
    if SFeqb a F32.zero then a
    else if SFeqb a f_5_5 then S754_finite true 11837002 (-24)
    else S754_nan;
  atan2f := fun y x =>
    match y, x with
    | S754_zero _, S754_finite false _ _ => y
    | S754_finite true _ _, S754_zero _ => minus_half_pi
    | _, _ => S754_nan
    end;
  fptosi_undef := fun _ => INT_MIN
|}.

(** The host's buffer holding the given tuples, zero elsewhere. *)
Definition tuples (l : list (Z * Z * Z * Z * Z * Z)) : fbuf :=
  fun k =>
    match l !! Z.to_nat (k / 6) with
    | Some (x, y, r, h, i, t) =>
        F32.of_int (nth (Z.to_nat (k mod 6)) [x; y; r; h; i; t] 0)
    | None => F32.zero
    end.

(** A registry one record short of full. *)
Definition nearly_full : State :=
  {| obstacles := replicate (Z.to_nat MAX_OBSTACLES) zero_obstacle;
     processed := replicate (Z.to_nat MAX_PROCESSED) zero_processed;
     obstacle_count := MAX_OBSTACLES - 1 |}.

(** A registry of two obstacles, the first no taller than a player of
    height 0, the second 80 units to its left on a map 100 wide. *)
Definition two_obstacles : State :=
  fst (add_obstacles_batch (H := example_target)
         (tuples [(90, 0, 1, 0, 1, 0); (10, 0, 25, 5, 2, 0)]) 2 initial_state).

(** A registry holding one obstacle of radius 2 and height 1 at (10, 10). *)
Definition one_obstacle : State :=
  fst (add_obstacles_batch (H := example_target)
         (tuples [(10, 10, 2, 1, 1, 0)]) 1 initial_state).

(** A loop over the elements of a list, with the same two ways out. *)
Fixpoint fold_exit {A St R : Type} (body : A -> St -> R + St) (l : list A) (s : St)
    : R + St :=
  match l with
  | [] => inr s
  | a :: l' =>
      match body a s with
      | inl r => inl r
      | inr s' => fold_exit body l' s'
      end
  end.

(** The tile offsets one axis is scanned over, and the images of the
    registered obstacles in the order the three loops visit them. *)
Definition tile_offsets (tiles : Z) : list Z := seqZ (- tiles) (2 * tiles + 1).

Definition images `{Target} (v : View) (count : Z) : list (Z * Z * Z) :=
  flat_map
    (fun i =>
       flat_map (fun tx => map (fun ty => (i, tx, ty)) (tile_offsets (tiles_y v)))
         (tile_offsets (tiles_x v)))
    (seqZ 0 count).

(** The three tests an image passes to be recorded, in the order the code
    makes them, and the record stored for it. *)
Definition visible `{Target} (v : View) (obs : Obstacle) (tx ty : Z) : bool :=
  let dx := image_dx v obs tx in
  let dy := image_dy v obs ty in
  (image_dist_sq dx dy <? v_max_render_distance v * v_max_render_distance v)%f32
  && (angle_diff v dx dy <=? v_half_fov v + f_0_5)%f32
  && (obstacle_t v dx dy >? f_0_5)%f32.

Definition record_of `{Target} (v : View) (obs : Obstacle) (tx ty : Z) : ProcessedObstacle :=
  let dx := image_dx v obs tx in
  let dy := image_dy v obs ty in
  {| po_obstacle_id := obs_id obs;
     po_is_between := is_between_camera_and_player v obs (obstacle_t v dx dy);
     po_type := obs_type obs;
     po_dx := dx; po_dy := dy; po_dist_sq := image_dist_sq dx dy |}.

Definition visible_image `{Target} (v : View) (os : list Obstacle) (img : Z * Z * Z) : bool :=
  let '(i, tx, ty) := img in visible v (os !!! Z.to_nat i) tx ty.

Definition record_of_image `{Target} (v : View) (os : list Obstacle) (img : Z * Z * Z)
    : ProcessedObstacle :=
  let '(i, tx, ty) := img in record_of v (os !!! Z.to_nat i) tx ty.

(** The records of the visible images in scan order, up to the capacity of
    [processed]. *)
Definition collected `{Target} (v : View) (st : State) : list ProcessedObstacle :=
  take (Z.to_nat MAX_PROCESSED)
    (map (record_of_image v (obstacles st))
       (List.filter (visible_image v (obstacles st)) (images v (obstacle_count st)))).

(** The records a call leaves in [processed] and reports to the host. *)
Definition returned (r : State * option fbuf * Z) : list ProcessedObstacle :=
  take (Z.to_nat (snd r)) (processed (fst (fst r))).

(** The comparison of two floats that are numbers is the lexicographic
    comparison of their classes, exponents and mantissas. *)
Definition rank (f : spec_float) : Z * Z * Z :=
  match f with
  | S754_infinity true => (-2, 0, 0)
  | S754_finite true m e => (-1, - e, - Zpos m)
  | S754_zero _ => (0, 0, 0)
  | S754_finite false m e => (1, e, Zpos m)
  | S754_infinity false => (2, 0, 0)
  | S754_nan => (3, 0, 0)
  end.

Definition lex_lt (p q : Z * Z * Z) : Prop :=
  p.1.1 < q.1.1 \/ (p.1.1 = q.1.1 /\ (p.1.2 < q.1.2 \/ (p.1.2 = q.1.2 /\ p.2 < q.2))).

Definition lex_le (p q : Z * Z * Z) : Prop :=
  p.1.1 < q.1.1 \/ (p.1.1 = q.1.1 /\ (p.1.2 < q.1.2 \/ (p.1.2 = q.1.2 /\ p.2 <= q.2))).

Definition is_number (f : spec_float) : Prop := f <> S754_nan.

(** The bubble sort on a list.  [swap_cells] is the body of the inner loop
    on the cells of an array; [carry a t] is one pass over [a :: t], with
    [a] the element held while it is below the next; [bubble k p] is [k]
    passes, each over one element less. *)
Definition swap_cells {A} `{Inhabited A} (lt : A -> A -> bool) (j : Z) (arr : list A) : list A :=
  let a := arr !!! Z.to_nat j in
  let b := arr !!! Z.to_nat (j + 1) in
  if lt a b then <[Z.to_nat (j + 1) := a]> (<[Z.to_nat j := b]> arr) else arr.

Definition sort_cells {A} `{Inhabited A} (lt : A -> A -> bool) (n : Z) (arr : list A) : list A :=
  for_loop 0 (n - 1) (fun i arr => for_loop 0 (n - i - 1) (swap_cells lt) arr) arr.

Fixpoint carry {A} (lt : A -> A -> bool) (a : A) (t : list A) : list A :=
  match t with
  | [] => [a]
  | b :: t' => if lt a b then b :: carry lt a t' else a :: carry lt b t'
  end.

Fixpoint bubble {A} (lt : A -> A -> bool) (k : nat) (p : list A) : list A :=
  match k, p with
  | S k', a :: t =>
      let q := carry lt a t in
      bubble lt k' (removelast q) ++ [List.last q a]
  | _, _ => p
  end.

(** The order of the records: by squared distance. *)
Definition farther (a b : ProcessedObstacle) : bool :=
  (po_dist_sq a <? po_dist_sq b)%f32.

Definition with_processed (st : State) (arr : list ProcessedObstacle) : State :=
  {| obstacles := obstacles st; processed := arr; obstacle_count := obstacle_count st |}.

(** The registry part of the statics. *)
Definition registry (st : State) : list Obstacle * Z := (obstacles st, obstacle_count st).

(** Four obstacles on the x axis, two of them at the same place; one
    obstacle straight below the origin. *)
Definition axis_obstacles : State :=
  fst (add_obstacles_batch (H := example_target)
         (tuples [(10, 0, 2, 1, 1, 0); (30, 0, 2, 3, 2, 0); (20, 0, 2, 1, 3, 1);
                  (30, 0, 1, 1, 4, 0)]) 4 initial_state).

Definition south_obstacle : State :=
  fst (add_obstacles_batch (H := example_target)
         (tuples [(0, -10, 2, 1, 7, 3)]) 1 initial_state).

Definition no_output : fbuf := fun _ => F32.zero.

(** The angular difference as the description words it: the shortest arc
    between the angle to the image and the heading, the difference of the
    two wrapped at +-pi (by [normalize_angle], within [fuel] rounds). *)
Definition shortest_arc_diff `{Target} (fuel : nat) (v : View) (dx dy : float) : option float :=
  fabsf <$> normalize_angle fuel (atan2f dy dx - v_camera_angle v)%f32.

(** The bands and the table of steps as the description gives them: a row
    is in the far band when [y + 1 <= 0.1 * ground_h], else in the mid band
    when [y + 1 <= (0.1 + 0.5) * ground_h], else in the near band. *)
Inductive Band := Far | Mid | Near.

Definition band (ground_h y : Z) : Band :=
  let i := (F32.of_int y + f_1_0)%f32 in
  if (i <=? F32.of_int ground_h * f_0_1)%f32 then Far
  else if (i <=? F32.of_int ground_h * (f_0_1 + f_0_5))%f32 then Mid
  else Near.

Definition table_step (b : Band) (rotating_or_tilting moving : bool) : Z :=
  match b with
  | Far => if rotating_or_tilting then 5 else 4
  | Mid => if rotating_or_tilting then 5 else if moving then 4 else 2
  | Near => if rotating_or_tilting then 8 else if moving then 6 else 2
  end.

(** [|f| > num / den] for a float [f], read off its value [m * 2^e]; the
    description's tilting test is [|tilt| > 1e-4]. *)
Definition magnitude_above (f : spec_float) (num den : Z) : bool :=
  match f with
  | S754_infinity _ => true
  | S754_finite _ m e =>
      if 0 <=? e then num <? Zpos m * 2 ^ e * den
      else num * 2 ^ (- e) <? Zpos m * den
  | _ => false
  end.

Definition described_step
    (ground_h y base_res dynamic_res layered_res state_move state_rot : Z) (tilt : float) : Z :=
  Z.max 1
    (if negb (dynamic_res =? 0) && negb (layered_res =? 0)
     then table_step (band ground_h y)
            (negb (state_rot =? 0) || magnitude_above tilt 1 10000) (negb (state_move =? 0))
     else base_res).

(** [p'] is [p] after a store to each of the [n] bytes from [lo], once and
    in increasing order, and to no other. *)
Definition stores_range (p p' : pixbuf) (lo n : Z) : Prop :=
  length (px_bytes p') = length (px_bytes p) /\
  px_stores p' = rev (seqZ lo n) ++ px_stores p /\
  forall j : nat, Z.of_nat j < lo \/ lo + n <= Z.of_nat j ->
    px_bytes p' !! j = px_bytes p !! j.

(** The coordinate after [k] additions of the increment. *)
Fixpoint accumulate (start d : float) (k : nat) : float :=
  match k with
  | O => start
  | S k' => (accumulate start d k' + d)%f32
  end.

(** The byte of channel [c] the quality mode gives the pixel [(x, y)]: the
    texel at the truncated coordinates reduced modulo the size of the map,
    alpha 255. *)
Definition quality_sample `{Target} (map_data : list Z) (ground_w map_w map_h : Z)
    (camera_x camera_y cos_a sin_a sh_focal tan_f : float) (x y c : Z) : Z :=
  let sl := scanline ground_w y camera_x camera_y cos_a sin_a sh_focal tan_f in
  let cur_x := accumulate (sl_lX sl) (sl_dx sl) (Z.to_nat x) in
  let cur_y := accumulate (sl_lY sl) (sl_dy sl) (Z.to_nat x) in
  let mx := fptosi cur_x mod map_w in
  let my := fptosi cur_y mod map_h in
  if c =? 3 then 255 else map_data !!! Z.to_nat ((my * map_w + mx) * 4 + c).

(** A row of the performance mode is computed when it is row 0 or a
    multiple of its step; [source_row] is the last computed row up to [y]. *)
Definition recomputed (step_of : Z -> Z) (y : Z) : bool :=
  (y <=? 0) || (Z.rem y (step_of y) =? 0).

Fixpoint source_row_nat (step_of : Z -> Z) (y : nat) : Z :=
  match y with
  | O => 0
  | S y' =>
      if recomputed step_of (Z.of_nat y) then Z.of_nat y else source_row_nat step_of y'
  end.

Definition source_row (step_of : Z -> Z) (y : Z) : Z := source_row_nat step_of (Z.to_nat y).

(** A buffer of [n] zero bytes, with no store yet; a map of two by two
    texels. *)
Definition blank (n : Z) : pixbuf :=
  {| px_bytes := replicate (Z.to_nat n) 0; px_stores := [] |}.

Definition checker_map : list Z :=
  [10; 20; 30; 40;  50; 60; 70; 80;  90; 100; 110; 120;  130; 140; 150; 160].

(** What holds before row [y] of the performance mode: the bytes of the
    rows above have been stored to once each, [last_calculated_y] is the last
    computed row, and each row above equals its source row. *)
Definition rows_done (ground_w : Z) (step_of : Z -> Z) (p0 : pixbuf) (y : Z)
    (s : pixbuf * Z) : Prop :=
  let '(p, last) := s in
  stores_range p0 p 0 (y * ground_w * 4) /\
  (y = 0 -> last = -1) /\
  (0 < y -> last = source_row step_of (y - 1)) /\
  forall r k, 0 <= r < y -> 0 <= k < ground_w * 4 ->
    px_bytes p !! Z.to_nat (r * ground_w * 4 + k) =
    px_bytes p !! Z.to_nat (source_row step_of r * ground_w * 4 + k).

(** The states of the statics the host can reach through the exported
    functions. *)
Inductive Reachable `{Target} : State -> Prop :=
| Reachable_initial : Reachable initial_state
| Reachable_exec c st : Reachable st -> Reachable (exec c st).

(** The host's pointer [data + 6 * k]: the buffer from the [k]-th tuple on. *)
Definition shift_data (data : fbuf) (k : Z) : fbuf := fun j => data (k * 6 + j).

(** The loop state of [add_obstacles_batch] with [d] more records counted. *)
Definition more_added (d : Z) (r : State * Z + State * Z) : State * Z + State * Z :=
  match r with
  | inl (st, a) => inl (st, a + d)
  | inr (st, a) => inr (st, a + d)
  end.

(** A float that is not below zero: without sign, or no number. *)
Definition unsigned_or_nan (f : spec_float) : Prop :=
  match f with
  | S754_zero false | S754_finite false _ _ | S754_infinity false | S754_nan => True
  | _ => False
  end.

(** The byte of channel [c] at the sampling point [(cur_x, cur_y)]. *)
Definition texel `{Target} (map_data : list Z) (map_w map_h : Z) (cur_x cur_y : float) (c : Z)
    : Z :=
  if c =? 3 then 255 else map_data !!! Z.to_nat (map_index map_w map_h cur_x cur_y + c).

(** The byte of channel [c] the performance mode computes for the pixel
    [(x, y)] of a computed row of step [step]: the texel at the point reached
    after one addition of [step] times the increment for each block before
    the block of [x], the truncated coordinates reduced modulo the size of
    the map, alpha 255. *)
Definition performance_sample `{Target} (map_data : list Z) (ground_w map_w map_h : Z)
    (camera_x camera_y cos_a sin_a sh_focal tan_f : float) (step x y c : Z) : Z :=
  let sl := scanline ground_w y camera_x camera_y cos_a sin_a sh_focal tan_f in
  let block := Z.to_nat (x / step) in
  let cur_x := accumulate (sl_lX sl) (sl_dx sl * F32.of_int step)%f32 block in
  let cur_y := accumulate (sl_lY sl) (sl_dy sl * F32.of_int step)%f32 block in
  let mx := fptosi cur_x mod map_w in
  let my := fptosi cur_y mod map_h in
  if c =? 3 then 255 else map_data !!! Z.to_nat ((my * map_w + mx) * 4 + c).

(** What holds before row [y] of the performance mode of the rows computed
    above it. *)
Definition rows_sampled (ground_w : Z) (step_of : Z -> Z) (sample : Z -> Z -> Z -> Z) (y : Z)
    (s : pixbuf * Z) : Prop :=
  forall r x c, 0 <= r < y -> recomputed step_of r = true ->
    0 <= x < ground_w -> 0 <= c < 4 ->
    px_bytes (fst s) !! Z.to_nat (r * ground_w * 4 + x * 4 + c) = Some (sample x r c).

(** A float that is a zero or a finite number. *)
Definition is_finite (f : spec_float) : Prop :=
  match f with S754_zero _ | S754_finite _ _ _ => True | _ => False end.

(* ================================================================= *)
(** * Properties *)

(** ** The literals and the exact functions of <math.h> *)

Example lit_0_5 : f_0_5 = S754_finite false 8388608 (-24).
Proof. reflexivity. Qed.
Example lit_1_2 : f_1_2 = S754_finite false 10066330 (-23).
Proof. reflexivity. Qed.
Example lit_0_1 : f_0_1 = S754_finite false 13421773 (-27).
Proof. reflexivity. Qed.
Example lit_0_0001 : f_0_0001 = S754_finite false 13743895 (-37).
Proof. reflexivity. Qed.
Example lit_M_PI :
  SFdiv F64.prec F64.emax (S754_finite false 314159265358979323846 0)
        (S754_finite false 100000000000000000000 0) = M_PI.
Proof. reflexivity. Qed.
Example ceilf_2_5 : ceilf (F32.lit 25 10) = F32.of_int 3.
Proof. reflexivity. Qed.
Example ceilf_m2_5 : ceilf (SFopp (F32.lit 25 10)) = F32.of_int (-2).
Proof. reflexivity. Qed.
Example ceilf_m0_5 : ceilf (SFopp f_0_5) = S754_zero true.
Proof. reflexivity. Qed.
Example trunc_m2_5 : trunc (SFopp (F32.lit 25 10)) = Some (-2).
Proof. reflexivity. Qed.

(** ** Loops *)

Section LoopFacts.
Context {St R : Type}.
Implicit Types (body : Z -> St -> R + St) (s : St).

Lemma for_range_nil lo hi body s : hi <= lo -> for_range lo hi body s = inr s.
Proof.
  intros Hle. unfold for_range.
  replace (Z.to_nat (hi - lo)) with O by lia. reflexivity.
Qed.

Lemma for_range_cons lo hi body s :
  lo < hi ->
  for_range lo hi body s =
  match body lo s with
  | inl r => inl r
  | inr s' => for_range (lo + 1) hi body s'
  end.
Proof.
  intros Hlt. unfold for_range.
  replace (Z.to_nat (hi - lo)) with (S (Z.to_nat (hi - (lo + 1)))) by lia.
  reflexivity.
Qed.

(** The rule of the invariant: [P i] before round [i], [Q] where the loop
    is left early. *)
Lemma for_range_inv (P : Z -> St -> Prop) (Q : R -> Prop) lo hi body s :
  lo <= hi ->
  P lo s ->
  (forall i s, lo <= i < hi -> P i s ->
     match body i s with inl r => Q r | inr s' => P (i + 1) s' end) ->
  match for_range lo hi body s with inl r => Q r | inr s' => P hi s' end.
Proof.
  intros Hle HP Hstep. unfold for_range.
  remember (Z.to_nat (hi - lo)) as n eqn:Hn.
  revert lo s Hle HP Hstep Hn.
  induction n as [|n IH]; intros lo s Hle HP Hstep Hn; simpl.
  - replace hi with lo by lia. exact HP.
  - specialize (Hstep lo s ltac:(lia) HP) as Hb.
    destruct (body lo s) as [r|s']; [exact Hb|].
    apply IH; [lia|exact Hb| |lia].
    intros i s0 Hi. apply Hstep. lia.
Qed.
End LoopFacts.

Lemma for_loop_nil {St} lo hi (body : Z -> St -> St) s : hi <= lo -> for_loop lo hi body s = s.
Proof.
  intros Hle. unfold for_loop. replace (Z.to_nat (hi - lo)) with O by lia. reflexivity.
Qed.

Lemma for_loop_cons {St} lo hi (body : Z -> St -> St) s :
  lo < hi -> for_loop lo hi body s = for_loop (lo + 1) hi body (body lo s).
Proof.
  intros Hlt. unfold for_loop.
  replace (Z.to_nat (hi - lo)) with (S (Z.to_nat (hi - (lo + 1)))) by lia.
  reflexivity.
Qed.

Lemma for_loop_inv {St} (P : Z -> St -> Prop) lo hi (body : Z -> St -> St) s :
  lo <= hi ->
  P lo s ->
  (forall i s, lo <= i < hi -> P i s -> P (i + 1) (body i s)) ->
  P hi (for_loop lo hi body s).
Proof.
  intros Hle HP Hstep. unfold for_loop.
  remember (Z.to_nat (hi - lo)) as n eqn:Hn.
  revert lo s Hle HP Hstep Hn.
  induction n as [|n IH]; intros lo s Hle HP Hstep Hn; simpl.
  - replace hi with lo by lia. exact HP.
  - apply IH; [lia|apply Hstep; [lia|exact HP]| |lia].
    intros i s0 Hi. apply Hstep. lia.
Qed.

(** ** The registry *)

Lemma initial_state_wf : State_wf initial_state.
Proof.
  unfold State_wf, initial_state; cbn [obstacles processed obstacle_count].
  rewrite !length_replicate. unfold MAX_OBSTACLES. lia.
Qed.

Lemma init_obstacles_wf st : State_wf st -> State_wf (init_obstacles st).
Proof.
  intros (Ho & Hp & Hc). unfold State_wf, init_obstacles; cbn [obstacles processed obstacle_count].
  rewrite length_replicate. repeat split; auto; unfold MAX_OBSTACLES; lia.
Qed.

Section RegistryFacts.
Context `{Target}.

Lemma add_one_step data st0 i s :
  State_wf st0 -> 0 <= i -> added_from data st0 i s ->
  match add_one data i s with
  | inl s' => added_from data st0 i s' /\ obstacle_count (fst s') = MAX_OBSTACLES
  | inr s' => added_from data st0 (i + 1) s'
  end.
Proof.
  intros (Hlen & _ & Hc0) Hi. destruct s as [st added].
  intros (Ha & Hc & Hle & Hl & Hp & Hnew & Hold). unfold add_one.
  destruct (Z.ltb_spec (obstacle_count st) MAX_OBSTACLES) as [Hlt|Hge].
  - simpl. repeat split; try lia.
    + rewrite length_insert. exact Hl.
    + exact Hp.
    + intros k Hk. destruct (Z.eq_dec k i) as [->|Hne].
      * rewrite Hc. apply list_lookup_insert_eq. lia.
      * rewrite list_lookup_insert_ne by lia. apply Hnew. lia.
    + intros j Hj. rewrite list_lookup_insert_ne by lia. apply Hold. lia.
  - simpl. split; [|lia]. repeat split; auto.
Qed.
End RegistryFacts.

Section RegistryTheorems.
Context `{Target}.

Lemma add_obstacles_batch_rounds data count st :
  State_wf st -> 0 <= count ->
  exists i, 0 <= i <= count /\
    added_from data st i (add_obstacles_batch data count st) /\
    (i < count -> obstacle_count (fst (add_obstacles_batch data count st)) = MAX_OBSTACLES).
Proof.
  intros Hwf Hcount. unfold add_obstacles_batch.
  pose proof (for_range_inv (added_from data st)
                (fun s => exists i, 0 <= i < count /\ added_from data st i s /\
                                    obstacle_count (fst s) = MAX_OBSTACLES)
                0 count (add_one data) (st, 0) Hcount) as Hinv.
  assert (added_from data st 0 (st, 0)) as H0.
  { destruct Hwf as (? & ? & ?). cbn. repeat split; auto; try lia. }
  specialize (Hinv H0).
  assert (forall i s, 0 <= i < count -> added_from data st i s ->
            match add_one data i s with
            | inl r => exists i, 0 <= i < count /\ added_from data st i r /\
                                 obstacle_count (fst r) = MAX_OBSTACLES
            | inr s' => added_from data st (i + 1) s'
            end) as Hstep.
  { intros i s Hi HP.
    pose proof (add_one_step data st i s Hwf ltac:(lia) HP) as Hs.
    destruct (add_one data i s) as [s'|s']; [|exact Hs].
    exists i. tauto. }
  specialize (Hinv Hstep). clear Hstep H0.
  destruct (for_range 0 count (add_one data) (st, 0)) as [r|r]; cbn.
  - destruct Hinv as (i & Hi & Ha & Hfull). exists i. repeat split; auto; lia.
  - exists count. repeat split; auto; lia.
Qed.

Lemma add_obstacles_batch_wf data count st :
  State_wf st -> 0 <= count -> State_wf (fst (add_obstacles_batch data count st)).
Proof.
  intros Hwf Hcount.
  destruct (add_obstacles_batch_rounds data count st Hwf Hcount) as (i & Hi & Ha & _).
  destruct (add_obstacles_batch data count st) as [st' a]. cbn in *.
  destruct Ha as (_ & Hc & Hle & Hl & Hp & _).
  destruct Hwf as (Ho & Hq & Hr). repeat split; try congruence; lia.
Qed.

(** C9. From a registry of size [n], [add_obstacles_batch] with [count]
    records stores exactly [min (count, MAX_OBSTACLES - n)] of them, the
    [k]-th tuple of the input in cell [n + k], returns that number, and
    [get_obstacle_count] then gives [n] plus it; no other cell of the array
    changes, so what does not fit is dropped. *)
Theorem add_obstacles_batch_capped data count st :
  State_wf st -> 0 <= count ->
  let n := obstacle_count st in
  let st' := fst (add_obstacles_batch data count st) in
  let added := snd (add_obstacles_batch data count st) in
  added = Z.min count (MAX_OBSTACLES - n) /\
  get_obstacle_count st' = n + added /\
  (forall k, 0 <= k < added ->
     obstacles st' !! Z.to_nat (n + k) = Some (record_at data k)) /\
  (forall j : nat, (j < Z.to_nat n \/ Z.to_nat (n + added) <= j)%nat ->
     obstacles st' !! j = obstacles st !! j) /\
  length (obstacles st') = length (obstacles st).
Proof.
  intros Hwf Hcount n st' added. subst st' added. unfold get_obstacle_count.
  destruct (add_obstacles_batch_rounds data count st Hwf Hcount) as (i & Hi & Ha & Hfull).
  destruct (add_obstacles_batch data count st) as [st' a]. cbn in *.
  destruct Ha as (-> & Hc & Hle & Hl & Hp & Hnew & Hold).
  fold n in Hc, Hnew, Hold. repeat split; auto; lia.
Qed.
End RegistryTheorems.

(** Three records offered to a registry with one free cell: one is stored. *)
Lemma add_obstacles_batch_capped_witness :
  let data := tuples [(10, 10, 2, 1, 1, 0); (20, 20, 2, 1, 2, 0); (30, 30, 2, 1, 3, 0)] in
  let r := add_obstacles_batch (H := example_target) data 3 nearly_full in
  snd r = Z.min 3 (MAX_OBSTACLES - (MAX_OBSTACLES - 1)) /\
  get_obstacle_count (fst r) = (MAX_OBSTACLES - 1) + snd r /\
  (forall k, 0 <= k < snd r ->
     obstacles (fst r) !! Z.to_nat ((MAX_OBSTACLES - 1) + k) =
     Some (record_at (H := example_target) data k)) /\
  (forall j : nat,
     (j < Z.to_nat (MAX_OBSTACLES - 1) \/ Z.to_nat ((MAX_OBSTACLES - 1) + snd r) <= j)%nat ->
     obstacles (fst r) !! j = obstacles nearly_full !! j) /\
  length (obstacles (fst r)) = length (obstacles nearly_full).
Proof.
  intros data r.
  apply (add_obstacles_batch_capped (H := example_target) data 3 nearly_full).
  - unfold State_wf, nearly_full; cbn [obstacles processed obstacle_count].
    rewrite !length_replicate. unfold MAX_OBSTACLES. lia.
  - lia.
Defined.

(** ** Collision *)

Lemma F32_sub_diag (x : float) :
  match x with S754_zero _ | S754_finite _ _ _ => True | _ => False end ->
  (x - x)%f32 = F32.zero.
Proof.
  destruct x as [s|s| |s m e]; intros Hx; try contradiction.
  - destruct s; reflexivity.
  - unfold F32.sub, SFsub. rewrite Z.sub_diag. reflexivity.
Qed.

Section CollisionFacts.
Variables player_radius player_height new_x new_y map_width map_height : float.

Let hit (o : Obstacle) : bool :=
  collides o player_radius player_height new_x new_y map_width map_height.

(** [check_collision] returns 1 exactly when the test succeeds for one of
    the registered obstacles, and 0 otherwise. *)
Lemma check_collision_spec player_x player_y st :
  (check_collision player_x player_y player_radius player_height new_x new_y
     map_width map_height st = 1 /\
   exists j, 0 <= j < obstacle_count st /\ hit (obstacles st !!! Z.to_nat j) = true) \/
  (check_collision player_x player_y player_radius player_height new_x new_y
     map_width map_height st = 0 /\
   forall j, 0 <= j < obstacle_count st -> hit (obstacles st !!! Z.to_nat j) = false).
Proof.
  unfold check_collision.
  set (body := fun (i : Z) (_ : unit) =>
                 if collides (obstacles st !!! Z.to_nat i) player_radius player_height
                      new_x new_y map_width map_height
                 then inl 1 else inr tt).
  destruct (Z.le_gt_cases 0 (obstacle_count st)) as [Hle|Hgt].
  - pose proof (for_range_inv
                  (fun i (_ : unit) => forall j, 0 <= j < i ->
                     hit (obstacles st !!! Z.to_nat j) = false)
                  (fun r => r = 1 /\ exists j, 0 <= j < obstacle_count st /\
                     hit (obstacles st !!! Z.to_nat j) = true)
                  0 (obstacle_count st) body tt Hle) as Hinv.
    assert (forall j, 0 <= j < 0 -> hit (obstacles st !!! Z.to_nat j) = false) as H0
      by (intros; lia).
    specialize (Hinv H0). clear H0.
    assert (forall i (s : unit), 0 <= i < obstacle_count st ->
              (forall j, 0 <= j < i -> hit (obstacles st !!! Z.to_nat j) = false) ->
              match body i s with
              | inl r => r = 1 /\ exists j, 0 <= j < obstacle_count st /\
                                    hit (obstacles st !!! Z.to_nat j) = true
              | inr _ => forall j, 0 <= j < i + 1 ->
                                    hit (obstacles st !!! Z.to_nat j) = false
              end) as Hstep.
    { intros i s Hi Hprev. unfold body.
      destruct (collides (obstacles st !!! Z.to_nat i) _ _ _ _ _ _) eqn:Hc.
      - split; [reflexivity|]. exists i. split; [lia|exact Hc].
      - intros j Hj. destruct (Z.eq_dec j i) as [->|Hne]; [exact Hc|].
        apply Hprev. lia. }
    specialize (Hinv Hstep).
    destruct (for_range 0 (obstacle_count st) body tt) as [r|u].
    + left. exact Hinv.
    + right. split; [reflexivity|exact Hinv].
  - rewrite for_range_nil by lia. right. split; [reflexivity|]. intros; lia.
Qed.
End CollisionFacts.

(** C4. An obstacle whose height is at most the player's never makes
    [check_collision] report a collision: the test is false for it whatever
    the positions and radii, and a reported collision comes from another
    registered obstacle. *)
Theorem flyover_never_collides
    player_x player_y player_radius player_height new_x new_y map_width map_height st i :
  0 <= i < obstacle_count st ->
  (obs_height (obstacles st !!! Z.to_nat i) <=? player_height)%f32 = true ->
  collides (obstacles st !!! Z.to_nat i)
    player_radius player_height new_x new_y map_width map_height = false /\
  (check_collision player_x player_y player_radius player_height new_x new_y
     map_width map_height st = 1 ->
   exists j, 0 <= j < obstacle_count st /\ j <> i /\
     collides (obstacles st !!! Z.to_nat j)
       player_radius player_height new_x new_y map_width map_height = true).
Proof.
  intros Hi Hle.
  assert (collides (obstacles st !!! Z.to_nat i)
            player_radius player_height new_x new_y map_width map_height = false) as Hno.
  { unfold collides, F32.geb. unfold F32.leb in Hle. rewrite Hle. reflexivity. }
  split; [exact Hno|].
  intros Hret.
  destruct (check_collision_spec player_radius player_height new_x new_y map_width
              map_height player_x player_y st) as [(_ & j & Hj & Hhit)|(H0 & _)].
  - exists j. repeat split; try lia; [|exact Hhit].
    intros ->. rewrite Hno in Hhit. discriminate.
  - rewrite H0 in Hret. discriminate.
Qed.

(** In [two_obstacles] the first obstacle is flown over by a player of
    height 0 standing on it. *)
Lemma flyover_never_collides_witness :
  let z := F32.zero in
  collides (obstacles two_obstacles !!! Z.to_nat 0)
    f_1_0 z (F32.of_int 90) z (F32.of_int 100) (F32.of_int 100) = false /\
  (check_collision z z f_1_0 z (F32.of_int 90) z (F32.of_int 100) (F32.of_int 100)
     two_obstacles = 1 ->
   exists j, 0 <= j < obstacle_count two_obstacles /\ j <> 0 /\
     collides (obstacles two_obstacles !!! Z.to_nat j)
       f_1_0 z (F32.of_int 90) z (F32.of_int 100) (F32.of_int 100) = true).
Proof.
  intros z.
  apply (flyover_never_collides z z f_1_0 z (F32.of_int 90) z (F32.of_int 100)
           (F32.of_int 100) two_obstacles 0).
  - vm_compute. split; [discriminate|reflexivity].
  - vm_compute. reflexivity.
Defined.

(** A width whose half lies between zero and itself: every positive finite
    float. *)
Lemma half_below_zero_false (h : float) :
  (F32.zero <=? h)%f32 = true ->
  (F32.zero >? h)%f32 = false /\ (F32.zero <? - h)%f32 = false.
Proof.
  destruct h as [[]|[]| |[] m e]; cbn; intros Hh; try discriminate; split; reflexivity.
Qed.

Lemma ltb_finite_r (a b : float) :
  (a <? b)%f32 = true ->
  match b with S754_nan => False | _ => True end /\
  match a with S754_nan => False | _ => True end.
Proof.
  destruct a, b; cbn; intros Hab; try discriminate; auto.
Qed.

(** The test of [check_collision] against one obstacle, a map period to the
    right of the obstacle and on it. *)
Lemma collides_wrap_symmetry (o : Obstacle) player_radius player_height map_width map_height :
  (F32.zero <=? map_width / f_2_0)%f32 = true ->
  (map_width / f_2_0 <? map_width)%f32 = true ->
  ((obs_x o + map_width) - obs_x o)%f32 = map_width ->
  collides o player_radius player_height (obs_x o + map_width)%f32 (obs_y o)
    map_width map_height =
  collides o player_radius player_height (obs_x o) (obs_y o) map_width map_height.
Proof.
  intros Hpos Hhalf Hexact. unfold collides.
  destruct (player_height >=? obs_height o)%f32; [reflexivity|].
  rewrite Hexact.
  assert (match map_width with S754_zero _ | S754_finite _ _ _ => True | _ => False end)
    as Hfin.
  { destruct map_width as [s|[]| |s m e]; auto; cbn in Hhalf; discriminate. }
  assert (match obs_x o with S754_zero _ | S754_finite _ _ _ => True | _ => False end)
    as Hx.
  { destruct (obs_x o) as [s|s| |s m e]; auto.
    - destruct map_width as [s'|s'| |s' m' e']; try contradiction;
        destruct s; cbn in Hexact; discriminate.
    - destruct map_width as [s'|s'| |s' m' e']; try contradiction;
        cbn in Hexact; discriminate. }
  assert (wrap_delta map_width (map_width / f_2_0)%f32 map_width = F32.zero) as ->.
  { unfold wrap_delta. unfold F32.gtb. unfold F32.ltb in Hhalf. rewrite Hhalf.
    apply F32_sub_diag. exact Hfin. }
  rewrite (F32_sub_diag (obs_x o) Hx).
  assert (wrap_delta F32.zero (map_width / f_2_0)%f32 map_width = F32.zero) as ->.
  { unfold wrap_delta. destruct (half_below_zero_false _ Hpos) as [-> ->]. reflexivity. }
  reflexivity.
Qed.

(** C5, as the code has it. For a positive width (its half lies between
    zero and it) and an obstacle whose [x] plus the width is exact in
    [float], the test against that obstacle has the same outcome a map
    period to its right as on it; hence [check_collision] agrees at the two
    positions when the obstacle is the only one registered, and reports a
    collision at both when it does on the obstacle. *)
Theorem collision_wrap_symmetry
    player_x player_y player_radius player_height map_width map_height st i :
  let o := obstacles st !!! Z.to_nat i in
  let shifted := check_collision player_x player_y player_radius player_height
                   (obs_x o + map_width)%f32 (obs_y o) map_width map_height st in
  let own := check_collision player_x player_y player_radius player_height
               (obs_x o) (obs_y o) map_width map_height st in
  0 <= i < obstacle_count st ->
  (F32.zero <=? map_width / f_2_0)%f32 = true ->
  (map_width / f_2_0 <? map_width)%f32 = true ->
  ((obs_x o + map_width) - obs_x o)%f32 = map_width ->
  collides o player_radius player_height (obs_x o + map_width)%f32 (obs_y o)
    map_width map_height =
  collides o player_radius player_height (obs_x o) (obs_y o) map_width map_height /\
  (obstacle_count st = 1 -> shifted = own) /\
  (collides o player_radius player_height (obs_x o) (obs_y o) map_width map_height = true ->
   shifted = 1 /\ own = 1).
Proof.
  intros o shifted own Hi Hpos Hhalf Hexact.
  pose proof (collides_wrap_symmetry o player_radius player_height map_width map_height
                Hpos Hhalf Hexact) as Hsym.
  split; [exact Hsym|]. subst shifted own. split.
  - intros Hone.
    assert (i = 0) as -> by lia. fold o in Hsym.
    destruct (check_collision_spec player_radius player_height (obs_x o + map_width)%f32
                (obs_y o) map_width map_height player_x player_y st)
      as [(-> & j & Hj & Hhit)|(-> & Hnone)];
    destruct (check_collision_spec player_radius player_height (obs_x o)
                (obs_y o) map_width map_height player_x player_y st)
      as [(-> & j' & Hj' & Hhit')|(-> & Hnone')]; try reflexivity; exfalso.
    + assert (j = 0) as -> by lia. specialize (Hnone' 0 ltac:(lia)).
      fold o in Hnone', Hhit. congruence.
    + assert (j' = 0) as -> by lia. specialize (Hnone 0 ltac:(lia)).
      fold o in Hnone, Hhit'. congruence.
  - intros Hown. split.
    + destruct (check_collision_spec player_radius player_height (obs_x o + map_width)%f32
                  (obs_y o) map_width map_height player_x player_y st)
        as [(-> & _)|(_ & Hnone)]; [reflexivity|].
      specialize (Hnone i Hi). fold o in Hnone. congruence.
    + destruct (check_collision_spec player_radius player_height (obs_x o)
                  (obs_y o) map_width map_height player_x player_y st)
        as [(-> & _)|(_ & Hnone)]; [reflexivity|].
      specialize (Hnone i Hi). fold o in Hnone. congruence.
Qed.

(** The obstacle of [one_obstacle] on a map 100 wide, radius of the player 1. *)
Lemma collision_wrap_symmetry_witness :
  let z := F32.zero in
  let w := F32.of_int 100 in
  let o := obstacles one_obstacle !!! Z.to_nat 0 in
  let shifted := check_collision z z f_1_0 z (obs_x o + w)%f32 (obs_y o) w w one_obstacle in
  let own := check_collision z z f_1_0 z (obs_x o) (obs_y o) w w one_obstacle in
  collides o f_1_0 z (obs_x o + w)%f32 (obs_y o) w w =
  collides o f_1_0 z (obs_x o) (obs_y o) w w /\
  (obstacle_count one_obstacle = 1 -> shifted = own) /\
  (collides o f_1_0 z (obs_x o) (obs_y o) w w = true -> shifted = 1 /\ own = 1).
Proof.
  intros z w o shifted own.
  apply (collision_wrap_symmetry z z f_1_0 z w w one_obstacle 0).
  - vm_compute. split; [discriminate|reflexivity].
  - vm_compute. reflexivity.
  - vm_compute. reflexivity.
  - vm_compute. reflexivity.
Defined.

(** C5 as stated fails. In [two_obstacles], on a map 100 wide, a player of
    height 0 and radius 1 proposed on the first obstacle (at x = 90) collides
    with the second (at x = 10, 20 away across the seam); proposed a period
    to the right (x = 190) the single correction leaves the second obstacle
    80 away and no collision is reported. *)
Lemma collision_wrap_symmetry_counterexample :
  check_collision F32.zero F32.zero f_1_0 F32.zero
    (obs_x (obstacles two_obstacles !!! Z.to_nat 0) + F32.of_int 100)%f32
    (obs_y (obstacles two_obstacles !!! Z.to_nat 0))
    (F32.of_int 100) (F32.of_int 100) two_obstacles = 0 /\
  check_collision F32.zero F32.zero f_1_0 F32.zero
    (obs_x (obstacles two_obstacles !!! Z.to_nat 0))
    (obs_y (obstacles two_obstacles !!! Z.to_nat 0))
    (F32.of_int 100) (F32.of_int 100) two_obstacles = 1.
Proof. vm_compute. split; reflexivity. Qed.

(** ** The scan of the images *)

Section FoldExit.
Context {A St R : Type}.
Implicit Types (l : list A) (s : St).

Lemma fold_exit_app (body : A -> St -> R + St) l1 l2 s :
  fold_exit body (l1 ++ l2) s =
  match fold_exit body l1 s with
  | inl r => inl r
  | inr s' => fold_exit body l2 s'
  end.
Proof.
  revert s. induction l1 as [|a l1 IH]; intros s; simpl; [reflexivity|].
  destruct (body a s); [reflexivity|apply IH].
Qed.

Lemma fold_exit_map {B} (h : B -> A) (body : A -> St -> R + St) (l : list B) s :
  fold_exit body (map h l) s = fold_exit (fun b => body (h b)) l s.
Proof.
  revert s. induction l as [|b l IH]; intros s; simpl; [reflexivity|].
  destruct (body (h b) s); [reflexivity|apply IH].
Qed.

Lemma fold_exit_flat_map {B} (f : B -> list A) (body : A -> St -> R + St) (l : list B) s :
  fold_exit body (flat_map f l) s = fold_exit (fun b s => fold_exit body (f b) s) l s.
Proof.
  revert s. induction l as [|b l IH]; intros s; simpl; [reflexivity|].
  rewrite fold_exit_app. destruct (fold_exit body (f b) s); [reflexivity|apply IH].
Qed.

Lemma fold_exit_ext (body body' : A -> St -> R + St) l s :
  (forall a s, body a s = body' a s) -> fold_exit body l s = fold_exit body' l s.
Proof.
  intros Hext. revert s. induction l as [|a l IH]; intros s; simpl; [reflexivity|].
  rewrite Hext. destruct (body' a s); [reflexivity|apply IH].
Qed.

Lemma for_range_fold (body : Z -> St -> R + St) lo hi s :
  for_range lo hi body s = fold_exit body (seqZ lo (hi - lo)) s.
Proof.
  unfold for_range, seqZ.
  generalize (Z.to_nat (hi - lo)) as n. intros n. revert lo s.
  induction n as [|n IH]; intros lo s; [reflexivity|].
  cbn [for_nat seq fmap list_fmap fold_exit].
  replace (Z.of_nat 0 + lo) with lo by lia.
  destruct (body lo s) as [r|s']; [reflexivity|].
  rewrite IH. f_equal.
  rewrite <- (fmap_S_seq 0 n), <- list_fmap_compose.
  apply list_fmap_ext. intros _ k _. cbn. lia.
Qed.
End FoldExit.

Section ScanFacts.
Context `{Target}.

Lemma visit_visible v i tx ty st n :
  visit v i tx ty (st, n) =
  if visible v (obstacles st !!! Z.to_nat i) tx ty then
    if MAX_PROCESSED <=? n then inl (st, n)
    else inr (store_processed st n (record_of v (obstacles st !!! Z.to_nat i) tx ty), n + 1)
  else inr (st, n).
Proof.
  unfold visit, visible, record_of.
  destruct (_ <? _)%f32; [|reflexivity].
  destruct (_ <=? _)%f32; [|reflexivity].
  destruct (_ >? _)%f32; reflexivity.
Qed.

Lemma scan_fold v st :
  scan v st =
  join (fold_exit (fun '(i, tx, ty) => visit v i tx ty) (images v (obstacle_count st)) (st, 0)).
Proof.
  unfold scan, images, tile_offsets. f_equal.
  rewrite for_range_fold, Z.sub_0_r, fold_exit_flat_map.
  apply fold_exit_ext. intros i s.
  rewrite for_range_fold, fold_exit_flat_map.
  replace (tiles_x v + 1 - - tiles_x v) with (2 * tiles_x v + 1) by lia.
  apply fold_exit_ext. intros tx s'.
  rewrite for_range_fold, fold_exit_map.
  replace (tiles_y v + 1 - - tiles_y v) with (2 * tiles_y v + 1) by lia.
  reflexivity.
Qed.

(** The scan from any point on: the records of the visible images follow
    those already stored, until the array is full. *)
Lemma fold_visit v os imgs : forall st n,
  obstacles st = os ->
  0 <= n <= MAX_PROCESSED ->
  length (processed st) = Z.to_nat MAX_PROCESSED ->
  let recs := map (record_of_image v os) (List.filter (visible_image v os) imgs) in
  let r := join (fold_exit (fun '(i, tx, ty) => visit v i tx ty) imgs (st, n)) in
  obstacles (fst r) = os /\
  obstacle_count (fst r) = obstacle_count st /\
  length (processed (fst r)) = Z.to_nat MAX_PROCESSED /\
  snd r = Z.min MAX_PROCESSED (n + Z.of_nat (length recs)) /\
  take (Z.to_nat (snd r)) (processed (fst r)) =
  take (Z.to_nat n) (processed st) ++ take (Z.to_nat (MAX_PROCESSED - n)) recs.
Proof.
  induction imgs as [|[[i tx] ty] imgs IH]; intros st n Hos Hn Hlen; cbn zeta.
  - cbn. repeat split; auto; [lia|]. rewrite take_nil, app_nil_r. reflexivity.
  - cbn [fold_exit List.filter]. rewrite visit_visible.
    cbn [visible_image]. rewrite Hos.
    destruct (visible v (os !!! Z.to_nat i) tx ty) eqn:Hvis.
    + destruct (Z.leb_spec MAX_PROCESSED n) as [Hfull|Hroom].
      * cbn. repeat split; auto; [lia|].
        replace (Z.to_nat (MAX_PROCESSED - n)) with O by lia.
        rewrite app_nil_r. reflexivity.
      * specialize (IH (store_processed st n (record_of v (os !!! Z.to_nat i) tx ty))
                      (n + 1)).
        cbn [store_processed obstacles processed obstacle_count] in IH.
        specialize (IH Hos ltac:(lia)).
        rewrite length_insert in IH. specialize (IH Hlen).
        cbn zeta in IH. destruct IH as (Ho & Hc & Hl & Hcount & Htake).
        repeat split; auto.
        -- rewrite Hcount. cbn [map length]. lia.
        -- rewrite Htake. cbn [map record_of_image].
           replace (Z.to_nat (n + 1)) with (S (Z.to_nat n)) by lia.
           replace (Z.to_nat (MAX_PROCESSED - n))
             with (S (Z.to_nat (MAX_PROCESSED - (n + 1)))) by lia.
           erewrite take_S_r by (apply list_lookup_insert_eq; lia).
           rewrite take_insert_ge by lia.
           rewrite <- app_assoc. reflexivity.
    + apply IH; auto.
Qed.

Lemma scan_collected v st :
  State_wf st ->
  obstacles (fst (scan v st)) = obstacles st /\
  obstacle_count (fst (scan v st)) = obstacle_count st /\
  length (processed (fst (scan v st))) = Z.to_nat MAX_PROCESSED /\
  0 <= snd (scan v st) <= MAX_PROCESSED /\
  snd (scan v st) = Z.of_nat (length (collected v st)) /\
  take (Z.to_nat (snd (scan v st))) (processed (fst (scan v st))) = collected v st.
Proof.
  intros (Ho & Hp & Hc). rewrite scan_fold.
  pose proof (fold_visit v (obstacles st) (images v (obstacle_count st)) st 0
                eq_refl ltac:(unfold MAX_PROCESSED; lia) Hp) as Hf.
  cbn zeta in Hf. destruct Hf as (H1 & H2 & H3 & H4 & H5).
  unfold collected. repeat split; auto.
  - rewrite H4. unfold MAX_PROCESSED. lia.
  - rewrite H4. unfold MAX_PROCESSED. lia.
  - rewrite H4, length_take. unfold MAX_PROCESSED. lia.
Qed.
End ScanFacts.

(** ** The order of the floats *)

Lemma SFcompare_rank (a b : spec_float) :
  is_number a -> is_number b ->
  exists c, SFcompare a b = Some c /\
    match c with
    | Lt => lex_lt (rank a) (rank b)
    | Eq => rank a = rank b
    | Gt => lex_lt (rank b) (rank a)
    end.
Proof.
  unfold is_number, lex_lt.
  destruct a as [[]|[]| |[] ma ea], b as [[]|[]| |[] mb eb]; intros Ha Hb;
    try congruence; cbn;
    try (eexists; split; [reflexivity|]; cbn; first [reflexivity | lia]).
  - change (Pos.compare_cont Eq ma mb) with (Pos.compare ma mb).
    destruct (Z.compare_spec ea eb) as [->|Hlt|Hgt].
    + destruct (Pos.compare_spec ma mb) as [->|Hm|Hm];
        (eexists; split; [reflexivity|]; cbn; first [reflexivity | lia]).
    + eexists; split; [reflexivity|]; cbn; lia.
    + eexists; split; [reflexivity|]; cbn; lia.
  - change (Pos.compare_cont Eq ma mb) with (Pos.compare ma mb).
    destruct (Z.compare_spec ea eb) as [->|Hlt|Hgt].
    + destruct (Pos.compare_spec ma mb) as [->|Hm|Hm];
        (eexists; split; [reflexivity|]; cbn; first [reflexivity | lia]).
    + eexists; split; [reflexivity|]; cbn; lia.
    + eexists; split; [reflexivity|]; cbn; lia.
Qed.

Lemma SFltb_number (a b : spec_float) : SFltb a b = true -> is_number a /\ is_number b.
Proof.
  unfold is_number. destruct a, b; cbn; intros Hlt; try discriminate; split; congruence.
Qed.

Lemma SFleb_number (a b : spec_float) : SFleb a b = true -> is_number a /\ is_number b.
Proof.
  unfold is_number. destruct a, b; cbn; intros Hlt; try discriminate; split; congruence.
Qed.

Lemma SFeqb_number (a b : spec_float) : SFeqb a b = true -> is_number a /\ is_number b.
Proof.
  unfold is_number. destruct a, b; cbn; intros Hlt; try discriminate; split; congruence.
Qed.

Lemma SFltb_lex (a b : spec_float) :
  is_number a -> is_number b -> (SFltb a b = true <-> lex_lt (rank a) (rank b)).
Proof.
  intros Ha Hb. destruct (SFcompare_rank a b Ha Hb) as (c & Hc & Hr).
  unfold SFltb. rewrite Hc. unfold lex_lt in *.
  destruct c; split; intros Hx; try discriminate; try reflexivity; try exact Hr;
    try (rewrite Hr in Hx); lia.
Qed.

Lemma SFleb_lex (a b : spec_float) :
  is_number a -> is_number b -> (SFleb a b = true <-> lex_le (rank a) (rank b)).
Proof.
  intros Ha Hb. destruct (SFcompare_rank a b Ha Hb) as (c & Hc & Hr).
  unfold SFleb. rewrite Hc. unfold lex_lt, lex_le in *.
  destruct c; split; intros Hx; try discriminate; try reflexivity;
    try (rewrite Hr); try (rewrite Hr in Hx); lia.
Qed.

Lemma SFeqb_lex (a b : spec_float) :
  is_number a -> is_number b -> (SFeqb a b = true <-> rank a = rank b).
Proof.
  intros Ha Hb. destruct (SFcompare_rank a b Ha Hb) as (c & Hc & Hr).
  unfold SFeqb. rewrite Hc. unfold lex_lt in *.
  destruct c; split; intros Hx; try discriminate; try reflexivity; try exact Hr;
    rewrite Hx in Hr; lia.
Qed.

Lemma SFltb_leb (a b : spec_float) : SFltb a b = true -> SFleb a b = true.
Proof.
  unfold SFltb, SFleb. destruct (SFcompare a b) as [[]|]; congruence.
Qed.

Lemma SFltb_false_leb (a b : spec_float) :
  is_number a -> is_number b -> SFltb a b = false -> SFleb b a = true.
Proof.
  intros Ha Hb Hlt. apply SFleb_lex; auto.
  destruct (SFltb a b) eqn:E; [discriminate|].
  assert (~ lex_lt (rank a) (rank b)) as Hn.
  { intros Hx. apply SFltb_lex in Hx; auto. congruence. }
  unfold lex_lt, lex_le in *. lia.
Qed.

Lemma SFleb_trans (a b c : spec_float) :
  SFleb a b = true -> SFleb b c = true -> SFleb a c = true.
Proof.
  intros Hab Hbc.
  destruct (SFleb_number _ _ Hab) as [Ha Hb]. destruct (SFleb_number _ _ Hbc) as [_ Hc].
  apply SFleb_lex in Hab; auto. apply SFleb_lex in Hbc; auto. apply SFleb_lex; auto.
  unfold lex_le in *. lia.
Qed.

Lemma SFeqb_ltb_false (a b d : spec_float) :
  SFeqb a d = true -> SFeqb b d = true -> SFltb a b = false.
Proof.
  intros Had Hbd.
  destruct (SFeqb_number _ _ Had) as [Ha Hd]. destruct (SFeqb_number _ _ Hbd) as [Hb _].
  apply SFeqb_lex in Had; auto. apply SFeqb_lex in Hbd; auto.
  destruct (SFltb a b) eqn:E; [|reflexivity].
  apply SFltb_lex in E; auto. unfold lex_lt in E. rewrite Had, Hbd in E. lia.
Qed.

(** ** The bubble sort *)

Section Bubble.
Context {A : Type} `{Inhabited A}.
Variables (lt le : A -> A -> bool) (ok : A -> Prop).
Hypothesis lt_le : forall x y, lt x y = true -> le x y = true.
Hypothesis le_total : forall x y, ok x -> ok y -> lt x y = false -> le y x = true.
Hypothesis le_trans : forall x y z, le x y = true -> le y z = true -> le x z = true.

Lemma carry_snoc (t : list A) : forall a,
  exists front m, carry lt a t = front ++ [m] /\ length front = length t.
Proof.
  induction t as [|b t IH]; intros a; cbn.
  - exists [], a. split; reflexivity.
  - destruct (lt a b).
    + destruct (IH a) as (front & m & -> & Hlen). exists (b :: front), m.
      split; [reflexivity|cbn; lia].
    + destruct (IH b) as (front & m & -> & Hlen). exists (a :: front), m.
      split; [reflexivity|cbn; lia].
Qed.

Lemma carry_perm (t : list A) : forall a, carry lt a t ≡ₚ a :: t.
Proof.
  induction t as [|b t IH]; intros a; cbn; [reflexivity|].
  destruct (lt a b).
  - rewrite IH. apply Permutation_swap.
  - rewrite IH. reflexivity.
Qed.

(** A pass leaves last an element that is below all the others. *)
Lemma carry_min (t : list A) : forall a,
  Forall ok (a :: t) ->
  forall front m, carry lt a t = front ++ [m] ->
  Forall (fun x => le m x = true) front /\ le m a = true.
Proof.
  induction t as [|b t IH]; intros a Hok front m Heq; cbn in Heq.
  - destruct front as [|x [|y front]]; cbn in Heq; try discriminate.
    injection Heq as Heq. subst m. split; [constructor|].
    apply Forall_cons in Hok as [Ha _].
    destruct (lt a a) eqn:E; [apply lt_le; exact E|apply le_total; auto].
  - apply Forall_cons in Hok as [Ha Hok]. pose proof Hok as Hok'.
    apply Forall_cons in Hok' as [Hb Ht].
    destruct (lt a b) eqn:E.
    + destruct front as [|x front]; cbn in Heq.
      { destruct (carry_snoc t a) as (f & m' & Hc & _). rewrite Hc in Heq.
        destruct f; cbn in Heq; discriminate. }
      injection Heq as <- Heq.
      destruct (IH a ltac:(constructor; auto) front m Heq) as [Hfront Hma].
      split; [|exact Hma]. constructor; [|exact Hfront].
      apply le_trans with a; [exact Hma|apply lt_le; exact E].
    + destruct front as [|x front]; cbn in Heq.
      { destruct (carry_snoc t b) as (f & m' & Hc & _). rewrite Hc in Heq.
        destruct f; cbn in Heq; discriminate. }
      injection Heq as <- Heq.
      destruct (IH b Hok front m Heq) as [Hfront Hmb].
      assert (le m a = true) as Hma
        by (apply le_trans with b; [exact Hmb|apply le_total; auto]).
      split; [|exact Hma]. constructor; [exact Hma|exact Hfront].
Qed.

(** A pass never exchanges two elements of a class [c] within which no
    element is below another: the class keeps its order. *)
Lemma carry_filter (c : A -> bool) (t : list A) : forall a,
  (forall x y, x ∈ a :: t -> y ∈ a :: t -> c x = true -> c y = true -> lt x y = false) ->
  List.filter c (carry lt a t) = List.filter c (a :: t).
Proof.
  induction t as [|b t IH]; intros a Hc; [reflexivity|].
  cbn [carry]. destruct (lt a b) eqn:E.
  - cbn [List.filter]. rewrite IH.
    + cbn [List.filter]. destruct (c a) eqn:Ea, (c b) eqn:Eb; try reflexivity.
      rewrite (Hc a b) in E; [discriminate| | |exact Ea|exact Eb];
        rewrite !elem_of_cons; tauto.
    + intros x y Hx Hy. apply Hc; revert Hx Hy; rewrite !elem_of_cons; tauto.
  - cbn [List.filter]. rewrite IH; [reflexivity|].
    intros x y Hx Hy. apply Hc; revert Hx Hy; rewrite !elem_of_cons; tauto.
Qed.

Lemma bubble_perm (k : nat) : forall p, bubble lt k p ≡ₚ p.
Proof.
  induction k as [|k IH]; intros [|a t]; cbn; try reflexivity.
  destruct (carry_snoc t a) as (front & m & Hq & Hlen).
  rewrite Hq, removelast_last, last_last, IH, <- Hq. apply carry_perm.
Qed.

Lemma bubble_filter (c : A -> bool) (k : nat) : forall p,
  (forall x y, x ∈ p -> y ∈ p -> c x = true -> c y = true -> lt x y = false) ->
  List.filter c (bubble lt k p) = List.filter c p.
Proof.
  induction k as [|k IH]; intros [|a t] Hc; cbn; try reflexivity.
  destruct (carry_snoc t a) as (front & m & Hq & Hlen).
  rewrite Hq, removelast_last, last_last, List.filter_app, IH.
  - rewrite <- List.filter_app, <- Hq. apply carry_filter. exact Hc.
  - pose proof (carry_perm t a) as Hp. rewrite Hq in Hp.
    intros x y Hx Hy. apply Hc; rewrite <- Hp, elem_of_app; tauto.
Qed.

Lemma bubble_sorted (k : nat) : forall p,
  length p = S k -> Forall ok p ->
  StronglySorted (fun x y => le y x = true) (bubble lt k p).
Proof.
  induction k as [|k IH]; intros [|a t] Hlen Hok; cbn in Hlen; try discriminate.
  - destruct t; [|discriminate]. cbn. repeat constructor.
  - cbn [bubble]. destruct (carry_snoc t a) as (front & m & Hq & Hfl).
    rewrite Hq, removelast_last, last_last.
    destruct (carry_min t a Hok front m Hq) as [Hmin _].
    pose proof (carry_perm t a) as Hp. rewrite Hq in Hp.
    assert (Forall ok front) as Hokf.
    { rewrite Forall_forall in Hok |- *. intros x Hx. apply Hok.
      rewrite <- Hp, elem_of_app. tauto. }
    apply StronglySorted_app_2.
    + intros x1 x2 Hx1 Hx2. apply list_elem_of_singleton in Hx2 as ->.
      rewrite Forall_forall in Hmin. apply Hmin.
      rewrite <- (bubble_perm k front). exact Hx1.
    + apply IH; [lia|exact Hokf].
    + repeat constructor.
Qed.

Lemma swap_cells_at (l1 : list A) a b l2 j :
  j = Z.of_nat (length l1) ->
  swap_cells lt j (l1 ++ a :: b :: l2) =
  l1 ++ (if lt a b then b :: a :: l2 else a :: b :: l2).
Proof.
  intros ->. unfold swap_cells.
  replace (Z.to_nat (Z.of_nat (length l1) + 1)) with (length l1 + 1)%nat by lia.
  rewrite Nat2Z.id.
  assert ((l1 ++ a :: b :: l2) !!! length l1 = a) as ->
    by (apply list_lookup_total_middle; reflexivity).
  assert ((l1 ++ a :: b :: l2) !!! (length l1 + 1)%nat = b) as ->.
  { change (l1 ++ a :: b :: l2) with (l1 ++ [a] ++ b :: l2). rewrite app_assoc.
    apply list_lookup_total_middle. rewrite length_app. cbn. lia. }
  destruct (lt a b); [|reflexivity].
  replace (length l1) with (length l1 + 0)%nat at 2 by lia.
  rewrite !insert_app_r. reflexivity.
Qed.

Lemma pass_carry (t : list A) : forall l1 a rest j0,
  j0 = Z.of_nat (length l1) ->
  for_loop j0 (j0 + Z.of_nat (length t)) (swap_cells lt) (l1 ++ a :: t ++ rest) =
  l1 ++ carry lt a t ++ rest.
Proof.
  induction t as [|b t IH]; intros l1 a rest j0 Hj0.
  - rewrite for_loop_nil by (cbn; lia). reflexivity.
  - rewrite for_loop_cons by (cbn [length]; lia).
    cbn [app]. rewrite (swap_cells_at l1 a b (t ++ rest) j0 Hj0).
    cbn [carry]. destruct (lt a b).
    + replace (l1 ++ b :: a :: t ++ rest) with ((l1 ++ [b]) ++ a :: t ++ rest)
        by (rewrite <- app_assoc; reflexivity).
      replace (j0 + Z.of_nat (length (b :: t))) with (j0 + 1 + Z.of_nat (length t))
        by (cbn [length]; lia).
      rewrite IH by (rewrite length_app; cbn; lia).
      rewrite <- app_assoc. reflexivity.
    + replace (l1 ++ a :: b :: t ++ rest) with ((l1 ++ [a]) ++ b :: t ++ rest)
        by (rewrite <- app_assoc; reflexivity).
      replace (j0 + Z.of_nat (length (b :: t))) with (j0 + 1 + Z.of_nat (length t))
        by (cbn [length]; lia).
      rewrite IH by (rewrite length_app; cbn; lia).
      rewrite <- app_assoc. reflexivity.
Qed.

Lemma passes_bubble (k : nat) : forall p rest i0 n,
  length p = S k -> n = i0 + Z.of_nat k + 1 ->
  for_loop i0 (i0 + Z.of_nat k)
    (fun i arr => for_loop 0 (n - i - 1) (swap_cells lt) arr) (p ++ rest) =
  bubble lt k p ++ rest.
Proof.
  induction k as [|k IH]; intros p rest i0 n Hlen Hn.
  - rewrite for_loop_nil by lia. destruct p; reflexivity.
  - destruct p as [|a t]; [discriminate|]. cbn in Hlen.
    rewrite for_loop_cons by lia.
    replace (n - i0 - 1) with (0 + Z.of_nat (length t)) by lia.
    pose proof (pass_carry t [] a rest 0 eq_refl) as Hpass. cbn [app] in Hpass.
    cbn [app]. rewrite Hpass.
    cbn [bubble]. destruct (carry_snoc t a) as (front & m & Hq & Hfl).
    rewrite Hq, removelast_last, last_last, <- !app_assoc.
    replace (i0 + Z.of_nat (S k)) with (i0 + 1 + Z.of_nat k) by lia.
    rewrite IH by lia. reflexivity.
Qed.

Lemma sort_cells_bubble (n : Z) (arr : list A) :
  0 <= n <= Z.of_nat (length arr) ->
  sort_cells lt n arr =
  bubble lt (Z.to_nat (n - 1)) (take (Z.to_nat n) arr) ++ drop (Z.to_nat n) arr.
Proof.
  intros Hn. unfold sort_cells.
  destruct (Z.eq_dec n 0) as [->|Hne].
  - rewrite for_loop_nil by lia. reflexivity.
  - rewrite <- (take_drop (Z.to_nat n) arr) at 1.
    pose proof (passes_bubble (Z.to_nat (n - 1)) (take (Z.to_nat n) arr)
                  (drop (Z.to_nat n) arr) 0 n) as Hp.
    replace (0 + Z.of_nat (Z.to_nat (n - 1))) with (n - 1) in Hp by lia.
    apply Hp; [rewrite length_take; lia|lia].
Qed.
End Bubble.

(** ** What a call leaves of the registry *)

Lemma for_range_preserves {St R} (P : St -> Prop) (Q : R -> Prop) lo hi
    (body : Z -> St -> R + St) s :
  P s ->
  (forall i s, P s -> match body i s with inl r => Q r | inr s' => P s' end) ->
  match for_range lo hi body s with inl r => Q r | inr s' => P s' end.
Proof.
  intros HP Hstep. unfold for_range.
  generalize (Z.to_nat (hi - lo)) as n. intros n. revert lo s HP.
  induction n as [|n IH]; intros lo s HP; cbn; [exact HP|].
  specialize (Hstep lo s HP). destruct (body lo s) as [r|s']; [exact Hstep|].
  apply IH. exact Hstep.
Qed.

Lemma for_loop_preserves {St} (P : St -> Prop) lo hi (body : Z -> St -> St) s :
  P s -> (forall i s, P s -> P (body i s)) -> P (for_loop lo hi body s).
Proof.
  intros HP Hstep. unfold for_loop.
  generalize (Z.to_nat (hi - lo)) as n. intros n. revert lo s HP.
  induction n as [|n IH]; intros lo s HP; cbn; [exact HP|].
  apply IH. apply Hstep. exact HP.
Qed.

Lemma for_loop_lift {St St'} (h : St' -> St) (f : Z -> St -> St) (g : Z -> St' -> St')
    lo hi x :
  (forall i x, f i (h x) = h (g i x)) ->
  for_loop lo hi f (h x) = h (for_loop lo hi g x).
Proof.
  intros Hfg. unfold for_loop.
  generalize (Z.to_nat (hi - lo)) as n. intros n. revert lo x.
  induction n as [|n IH]; intros lo x; cbn; [reflexivity|].
  rewrite Hfg. apply IH.
Qed.

Lemma for_loop_ext {St} (f g : Z -> St -> St) lo hi s :
  (forall i s, f i s = g i s) -> for_loop lo hi f s = for_loop lo hi g s.
Proof.
  intros Hfg. unfold for_loop.
  generalize (Z.to_nat (hi - lo)) as n. intros n. revert lo s.
  induction n as [|n IH]; intros lo s; cbn; [reflexivity|].
  rewrite Hfg. apply IH.
Qed.

Section FrameFacts.
Context `{Target}.

Lemma visit_registry v i tx ty (s : scan_state) :
  match visit v i tx ty s with
  | inl s' => registry (fst s') = registry (fst s)
  | inr s' => registry (fst s') = registry (fst s)
  end.
Proof.
  destruct s as [st n]. rewrite visit_visible.
  destruct (visible _ _ _ _); [|reflexivity].
  destruct (_ <=? _); reflexivity.
Qed.

Lemma scan_registry v st : registry (fst (scan v st)) = registry st.
Proof.
  unfold scan.
  pose proof (for_range_preserves
                (fun s : scan_state => registry (fst s) = registry st)
                (fun s : scan_state => registry (fst s) = registry st)
                0 (obstacle_count st)
                (fun i s =>
                   let tiles_x := tiles_x v in
                   let tiles_y := tiles_y v in
                   for_range (- tiles_x) (tiles_x + 1)
                     (fun tx s => for_range (- tiles_y) (tiles_y + 1) (visit v i tx) s) s)
                (st, 0) eq_refl) as Houter.
  cbn zeta in Houter.
  match type of Houter with ?P -> _ => assert P as Hstep end.
  { intros i s Hs.
    apply (for_range_preserves
             (fun s : scan_state => registry (fst s) = registry st)
             (fun s : scan_state => registry (fst s) = registry st)); [exact Hs|].
    intros tx s1 Hs1.
    apply (for_range_preserves
             (fun s : scan_state => registry (fst s) = registry st)
             (fun s : scan_state => registry (fst s) = registry st)); [exact Hs1|].
    intros ty s2 Hs2. pose proof (visit_registry v i tx ty s2) as Hv.
    destruct (visit v i tx ty s2); congruence. }
  specialize (Houter Hstep). cbn beta in Houter. unfold join.
  match goal with
  | |- context [for_range ?a ?b ?c ?d] => destruct (for_range a b c d)
  end; exact Houter.
Qed.

Lemma with_processed_id st : with_processed st (processed st) = st.
Proof. destruct st; reflexivity. Qed.

Lemma swap_step_cells j st :
  swap_step j st = with_processed st (swap_cells farther j (processed st)).
Proof.
  unfold swap_step, swap_cells, farther.
  destruct (_ <? _)%f32; [reflexivity|]. symmetry. apply with_processed_id.
Qed.

Lemma sort_processed_cells n st :
  sort_processed n st = with_processed st (sort_cells farther n (processed st)).
Proof.
  unfold sort_processed, sort_cells.
  rewrite <- (with_processed_id st) at 1.
  apply (for_loop_lift (with_processed st)). intros i arr.
  apply (for_loop_lift (with_processed st)). intros j arr'.
  rewrite swap_step_cells. reflexivity.
Qed.

Lemma process_visible_obstacles_registry
    camera_x camera_y camera_z camera_angle player_x player_y player_height
    fov max_render_distance map_width map_height output_buffer st :
  registry (fst (fst (process_visible_obstacles camera_x camera_y camera_z camera_angle
                        player_x player_y player_height fov max_render_distance
                        map_width map_height output_buffer st))) = registry st.
Proof.
  unfold process_visible_obstacles.
  destruct output_buffer as [out|]; [|reflexivity].
  destruct (obstacle_count st =? 0); [reflexivity|].
  set (v := make_view _ _ _ _ _ _ _ _ _ _).
  pose proof (scan_registry v st) as Hs.
  destruct (scan v st) as [st1 n]. cbn [fst snd] in *.
  rewrite sort_processed_cells. exact Hs.
Qed.
End FrameFacts.

(** ** The visibility processor *)

Section VisibilityFacts.
Context `{Target}.

Lemma write_records st n out :
  0 <= n ->
  forall k, 0 <= k < n ->
  let p := processed st !!! Z.to_nat k in
  let out' := for_loop 0 n (write_record st) out in
  out' (k * 6) = F32.of_int (po_obstacle_id p) /\
  out' (k * 6 + 1) = po_dx p /\
  out' (k * 6 + 2) = po_dy p /\
  out' (k * 6 + 3) = po_dist_sq p /\
  out' (k * 6 + 4) = F32.of_int (po_is_between p) /\
  out' (k * 6 + 5) = F32.of_int (po_type p).
Proof.
  intros Hn.
  apply (for_loop_inv
           (fun i out' => forall k, 0 <= k < i ->
              let p := processed st !!! Z.to_nat k in
              out' (k * 6) = F32.of_int (po_obstacle_id p) /\
              out' (k * 6 + 1) = po_dx p /\
              out' (k * 6 + 2) = po_dy p /\
              out' (k * 6 + 3) = po_dist_sq p /\
              out' (k * 6 + 4) = F32.of_int (po_is_between p) /\
              out' (k * 6 + 5) = F32.of_int (po_type p))
           0 n (write_record st) out Hn).
  - intros k Hk. lia.
  - intros i o Hi IHk k Hk. cbn zeta.
    destruct (Z.eq_dec k i) as [->|Hne].
    + unfold write_record, fstore.
      repeat match goal with
             | |- context [?a =? ?b] => destruct (Z.eqb_spec a b); try lia
             end.
      repeat split; reflexivity.
    + specialize (IHk k ltac:(lia)). cbn zeta in IHk.
      unfold write_record, fstore.
      repeat match goal with
             | |- context [?a =? ?b] => destruct (Z.eqb_spec a b); try lia
             end.
      exact IHk.
Qed.

(** The main path of [process_visible_obstacles]: the records returned are
    those collected by the scan, after the passes of the bubble sort. *)
Lemma process_visible_obstacles_returned
    camera_x camera_y camera_z camera_angle player_x player_y player_height
    fov max_render_distance map_width map_height out st :
  State_wf st -> obstacle_count st <> 0 ->
  let v := make_view camera_x camera_y camera_angle player_x player_y player_height
             fov max_render_distance map_width map_height in
  let r := process_visible_obstacles camera_x camera_y camera_z camera_angle
             player_x player_y player_height fov max_render_distance
             map_width map_height (Some out) st in
  snd r = Z.of_nat (length (collected v st)) /\
  returned r = bubble farther (Z.to_nat (snd r - 1)) (collected v st) /\
  length (processed (fst (fst r))) = Z.to_nat MAX_PROCESSED /\
  exists out', snd (fst r) = Some out' /\
    forall k, 0 <= k < snd r ->
      out' (k * 6 + 3) = po_dist_sq (returned r !!! Z.to_nat k) /\
      out' (k * 6 + 4) = F32.of_int (po_is_between (returned r !!! Z.to_nat k)).
Proof.
  intros Hwf Hcount v r. subst r. unfold process_visible_obstacles, returned.
  destruct (Z.eqb_spec (obstacle_count st) 0) as [|_]; [contradiction|].
  fold v.
  destruct (scan_collected v st Hwf) as (Ho & Hc & Hl & Hn & Hlen & Htake).
  destruct (scan v st) as [st1 n]. cbn [fst snd] in *.
  rewrite sort_processed_cells. cbn [with_processed processed fst snd].
  rewrite (sort_cells_bubble farther n (processed st1)) by lia.
  rewrite Htake.
  assert (length (bubble farther (Z.to_nat (n - 1)) (collected v st)) = Z.to_nat n) as Hbl.
  { rewrite (Permutation_length (bubble_perm farther _ _)). lia. }
  assert (take (Z.to_nat n)
            (bubble farther (Z.to_nat (n - 1)) (collected v st) ++
             drop (Z.to_nat n) (processed st1)) =
          bubble farther (Z.to_nat (n - 1)) (collected v st)) as Hret
    by (apply take_app_length'; symmetry; exact Hbl).
  rewrite Hret. repeat split; auto.
  - rewrite length_app, length_drop, Hbl. lia.
  - eexists. split; [reflexivity|]. intros k Hk.
    set (st2 := with_processed st1 _).
    destruct (write_records st2 n out ltac:(lia) k Hk) as (_ & _ & _ & H3 & H4 & _).
    cbn zeta in H3, H4. rewrite H3, H4. subst st2. cbn [with_processed processed].
    rewrite lookup_total_app_l by (rewrite Hbl; lia). split; reflexivity.
Qed.
End VisibilityFacts.

Section VisibilityTheorems.
Context `{Target}.

Lemma collected_elem v st p :
  p ∈ collected v st <->
  exists k img,
    (k < Z.to_nat MAX_PROCESSED)%nat /\
    List.filter (visible_image v (obstacles st)) (images v (obstacle_count st)) !! k
      = Some img /\
    p = record_of_image v (obstacles st) img.
Proof.
  unfold collected. rewrite elem_of_take. split.
  - intros (k & Hk & Hlt). exists k.
    change (map ?f ?l) with (f <$> l) in Hk. rewrite list_lookup_fmap in Hk.
    destruct (List.filter _ _ !! k) as [img|] eqn:E; [|discriminate].
    cbn in Hk. injection Hk as <-. exists img. auto.
  - intros (k & img & Hlt & Hk & ->). exists k. split; [|exact Hlt].
    change (map ?f ?l) with (f <$> l). rewrite list_lookup_fmap, Hk. reflexivity.
Qed.

Lemma collected_visible v st p :
  p ∈ collected v st ->
  exists img,
    img ∈ images v (obstacle_count st) /\
    visible_image v (obstacles st) img = true /\
    p = record_of_image v (obstacles st) img.
Proof.
  intros Hp. apply collected_elem in Hp as (k & img & _ & Hk & ->).
  exists img. apply list_elem_of_lookup_2 in Hk.
  apply list_elem_of_In, filter_In in Hk as [Hin Hvis].
  repeat split; auto. apply list_elem_of_In. exact Hin.
Qed.

Lemma collected_numbers v st :
  Forall (fun p => is_number (po_dist_sq p)) (collected v st).
Proof.
  apply Forall_forall. intros p Hp.
  apply collected_visible in Hp as ([[i tx] ty] & _ & Hvis & ->).
  cbn in Hvis |- *. unfold visible in Hvis.
  apply andb_prop in Hvis as [Hvis _]. apply andb_prop in Hvis as [Hd _].
  apply SFltb_number in Hd. tauto.
Qed.

(** The images scanned are those of the registered obstacles over the tile
    offsets from [- tiles] to [tiles] on each axis. *)
Lemma elem_of_images v count i tx ty :
  (i, tx, ty) ∈ images v count <->
  0 <= i < count /\ - tiles_x v <= tx <= tiles_x v /\ - tiles_y v <= ty <= tiles_y v.
Proof.
  unfold images, tile_offsets. rewrite list_elem_of_In, in_flat_map. split.
  - intros (i' & Hi & Hin). apply in_flat_map in Hin as (tx' & Htx & Hin).
    apply in_map_iff in Hin as (ty' & Heq & Hty). injection Heq as -> -> ->.
    apply list_elem_of_In, elem_of_seqZ in Hi, Htx, Hty. lia.
  - intros (Hi & Htx & Hty). exists i. split.
    + apply list_elem_of_In, elem_of_seqZ. lia.
    + apply in_flat_map. exists tx. split.
      * apply list_elem_of_In, elem_of_seqZ. lia.
      * apply in_map. apply list_elem_of_In, elem_of_seqZ. lia.
Qed.

(** What the scan records, with the angular test as the code makes it.  With
    a registry that is not empty and an output buffer, the records returned
    are, up to their order, those of the images
    [(i, tx, ty)] of the registered obstacles over the tile offsets
    [-tiles .. tiles] of each axis that pass the three tests of [visible]:
    squared distance below [max_render_distance] squared; angular difference
    at most [fov / 2 + 0.5], where the difference is
    [|atan2f (dy, dx) - camera_angle|] replaced by [2 pi] minus itself when it
    exceeds [pi]; projection on the forward axis above 0.5.  They are taken in
    scan order until [MAX_PROCESSED] are stored, so below that number an image
    has a record exactly when it passes the tests, and an image whose forward
    distance is not above 0.5 has none. *)
Theorem visible_images_recorded
    camera_x camera_y camera_z camera_angle player_x player_y player_height
    fov max_render_distance map_width map_height out st :
  State_wf st -> obstacle_count st <> 0 ->
  let v := make_view camera_x camera_y camera_angle player_x player_y player_height
             fov max_render_distance map_width map_height in
  let r := process_visible_obstacles camera_x camera_y camera_z camera_angle
             player_x player_y player_height fov max_render_distance
             map_width map_height (Some out) st in
  let passing := List.filter (visible_image v (obstacles st))
                   (images v (obstacle_count st)) in
  tiles_x v = fptosi (ceilf (max_render_distance * f_1_2 / map_width)%f32) /\
  tiles_y v = fptosi (ceilf (max_render_distance * f_1_2 / map_height)%f32) /\
  (forall i tx ty,
     (i, tx, ty) ∈ images v (obstacle_count st) <->
     0 <= i < obstacle_count st /\
     - tiles_x v <= tx <= tiles_x v /\ - tiles_y v <= ty <= tiles_y v) /\
  (forall obs tx ty,
     let dx := image_dx v obs tx in
     let dy := image_dy v obs ty in
     visible v obs tx ty =
     (image_dist_sq dx dy <? max_render_distance * max_render_distance)%f32
     && (angle_diff v dx dy <=? fov / f_2_0 + f_0_5)%f32
     && (obstacle_t v dx dy >? f_0_5)%f32) /\
  snd r = Z.min MAX_PROCESSED (Z.of_nat (length passing)) /\
  returned r ≡ₚ
    take (Z.to_nat MAX_PROCESSED) (map (record_of_image v (obstacles st)) passing) /\
  (Z.of_nat (length passing) <= MAX_PROCESSED ->
   forall p, p ∈ returned r <->
     exists img, img ∈ images v (obstacle_count st) /\
       visible_image v (obstacles st) img = true /\
       p = record_of_image v (obstacles st) img) /\
  (forall obs tx ty,
     (obstacle_t v (image_dx v obs tx) (image_dy v obs ty) >? f_0_5)%f32 = false ->
     visible v obs tx ty = false).
Proof.
  intros Hwf Hcount v r passing.
  destruct (process_visible_obstacles_returned camera_x camera_y camera_z camera_angle
              player_x player_y player_height fov max_render_distance map_width
              map_height out st Hwf Hcount) as (Hn & Hret & _).
  fold v r in Hn, Hret.
  assert (returned r ≡ₚ collected v st) as Hperm
    by (rewrite Hret; apply bubble_perm).
  split; [reflexivity|]. split; [reflexivity|].
  split; [intros i tx ty; apply elem_of_images|]. split; [reflexivity|].
  split; [|split; [|split]].
  - rewrite Hn. unfold collected. fold passing.
    rewrite length_take, length_map. unfold MAX_PROCESSED. lia.
  - exact Hperm.
  - intros Hcap p. rewrite Hperm. split.
    + apply collected_visible.
    + intros (img & Hin & Hvis & ->).
      unfold collected. fold passing. rewrite take_ge by (rewrite length_map; lia).
      apply list_elem_of_In, in_map, filter_In. split; [|exact Hvis].
      apply list_elem_of_In. exact Hin.
  - intros obs tx ty Ht. unfold visible. rewrite Ht. apply andb_false_r.
Qed.

(** C2. The records [process_visible_obstacles] returns are in
    non-increasing order of [dist_sq]; those of equal [dist_sq] are in the
    order the scan stored them; they are the records collected, whether or
    not the scan stopped at [MAX_PROCESSED]; and the host reads them in that
    order in the output buffer. *)
Theorem returned_sorted_farthest_first
    camera_x camera_y camera_z camera_angle player_x player_y player_height
    fov max_render_distance map_width map_height output_buffer st :
  State_wf st ->
  let v := make_view camera_x camera_y camera_angle player_x player_y player_height
             fov max_render_distance map_width map_height in
  let r := process_visible_obstacles camera_x camera_y camera_z camera_angle
             player_x player_y player_height fov max_render_distance
             map_width map_height output_buffer st in
  StronglySorted (fun a b => (po_dist_sq b <=? po_dist_sq a)%f32 = true) (returned r) /\
  (is_Some output_buffer -> obstacle_count st <> 0 ->
   returned r ≡ₚ collected v st /\
   (forall d : float,
      List.filter (fun p => SFeqb (po_dist_sq p) d) (returned r) =
      List.filter (fun p => SFeqb (po_dist_sq p) d) (collected v st)) /\
   exists out', snd (fst r) = Some out' /\
     forall k, 0 <= k -> k + 1 < snd r ->
       F32.leb (out' ((k + 1) * 6 + 3)) (out' (k * 6 + 3)) = true).
Proof.
  intros Hwf v r.
  assert (output_buffer = None \/ obstacle_count st = 0 ->
          returned r = []) as Hempty.
  { intros Hcase. subst r. unfold process_visible_obstacles, returned.
    destruct output_buffer as [out|]; [|reflexivity].
    destruct Hcase as [|Hz]; [discriminate|]. rewrite Hz. reflexivity. }
  destruct output_buffer as [out|]; [|split; [rewrite Hempty by auto; constructor|]].
  2: { intros [x Hx]. discriminate. }
  destruct (Z.eq_dec (obstacle_count st) 0) as [Hz|Hnz].
  { split; [rewrite Hempty by auto; constructor|]. intros _ Hc. contradiction. }
  destruct (process_visible_obstacles_returned camera_x camera_y camera_z camera_angle
              player_x player_y player_height fov max_render_distance map_width
              map_height out st Hwf Hnz) as (Hn & Hret & Hlen & out' & Hout & Hfields).
  fold v r in Hn, Hret, Hlen, Hout, Hfields.
  pose proof (collected_numbers v st) as Hnum.
  assert (StronglySorted (fun a b => (po_dist_sq b <=? po_dist_sq a)%f32 = true)
            (returned r)) as Hsorted.
  { rewrite Hret. destruct (collected v st) as [|p0 l] eqn:Ecol.
    - destruct (Z.to_nat (snd r - 1)); constructor.
    - apply (bubble_sorted farther
               (fun a b => (po_dist_sq a <=? po_dist_sq b)%f32)
               (fun p => is_number (po_dist_sq p))).
      + intros x y. apply SFltb_leb.
      + intros x y Hx Hy. apply SFltb_false_leb; assumption.
      + intros x y z. apply SFleb_trans.
      + rewrite Hn. cbn [length]. lia.
      + exact Hnum. }
  split; [exact Hsorted|]. intros _ _. split; [|split].
  - rewrite Hret. apply bubble_perm.
  - intros d. rewrite Hret. apply bubble_filter.
    intros x y _ _ Hx Hy. unfold farther. apply (SFeqb_ltb_false _ _ d); assumption.
  - exists out'. split; [exact Hout|]. intros k Hk0 Hk1.
    destruct (Hfields k ltac:(lia)) as [-> _].
    destruct (Hfields (k + 1) ltac:(lia)) as [-> _].
    assert (length (returned r) = Z.to_nat (snd r)) as Hrl.
    { rewrite Hret, (Permutation_length (bubble_perm farther _ _)). lia. }
    destruct (lookup_lt_is_Some_2 (returned r) (Z.to_nat k) ltac:(lia)) as [a Ha].
    destruct (lookup_lt_is_Some_2 (returned r) (Z.to_nat (k + 1)) ltac:(lia)) as [b Hb].
    rewrite (list_lookup_total_correct _ _ _ Ha), (list_lookup_total_correct _ _ _ Hb).
    replace (Z.to_nat (k + 1)) with (S (Z.to_nat k)) in Hb by lia.
    rewrite <- (take_drop (Z.to_nat k) (returned r)) in Hsorted, Ha, Hb.
    assert (length (take (Z.to_nat k) (returned r)) = Z.to_nat k) as Htl
      by (rewrite length_take; lia).
    rewrite lookup_app_r in Ha, Hb by lia.
    rewrite Htl in Ha, Hb.
    replace (Z.to_nat k - Z.to_nat k)%nat with O in Ha by lia.
    replace (S (Z.to_nat k) - Z.to_nat k)%nat with 1%nat in Hb by lia.
    apply StronglySorted_app_1_r in Hsorted.
    destruct (drop (Z.to_nat k) (returned r)) as [|a' [|b' l]]; try discriminate.
    cbn in Ha, Hb. injection Ha as ->. injection Hb as ->.
    apply StronglySorted_inv in Hsorted as [_ Hall].
    apply Forall_cons in Hall as [Hab _]. exact Hab.
Qed.

(** C3. Each record returned comes from an image [(i, tx, ty)] of a
    registered obstacle: its [dx] and [dy] are the obstacle's position moved
    by [tx] widths and [ty] heights, less the camera's; the forward distance
    [t = dx * cosf (camera_angle) + dy * sinf (camera_angle)] of the image is
    above 0.5; and the flag [is_between] is 1 exactly when the player's
    height is below the obstacle's and [t] is below the forward distance of
    the player, the same projection of the player's displacement from the
    camera after one correction by a map period on each axis where the
    displacement is beyond half the map; otherwise the flag is 0. *)
Theorem occluding_flag
    camera_x camera_y camera_z camera_angle player_x player_y player_height
    fov max_render_distance map_width map_height out st :
  State_wf st -> obstacle_count st <> 0 ->
  let v := make_view camera_x camera_y camera_angle player_x player_y player_height
             fov max_render_distance map_width map_height in
  let r := process_visible_obstacles camera_x camera_y camera_z camera_angle
             player_x player_y player_height fov max_render_distance
             map_width map_height (Some out) st in
  let half_w := (map_width / f_2_0)%f32 in
  let half_h := (map_height / f_2_0)%f32 in
  let raw_x := (player_x - camera_x)%f32 in
  let raw_y := (player_y - camera_y)%f32 in
  let player_dx :=
    if SFltb half_w raw_x then (raw_x - map_width)%f32
    else if SFltb raw_x (SFopp half_w) then (raw_x + map_width)%f32
    else raw_x in
  let player_dy :=
    if SFltb half_h raw_y then (raw_y - map_height)%f32
    else if SFltb raw_y (SFopp half_h) then (raw_y + map_height)%f32
    else raw_y in
  let player_t := (player_dx * cosf camera_angle + player_dy * sinf camera_angle)%f32 in
  forall p, p ∈ returned r ->
    exists i tx ty,
      (i, tx, ty) ∈ images v (obstacle_count st) /\
      let obs := obstacles st !!! Z.to_nat i in
      let dx := ((obs_x obs + F32.of_int tx * map_width) - camera_x)%f32 in
      let dy := ((obs_y obs + F32.of_int ty * map_height) - camera_y)%f32 in
      let t := (dx * cosf camera_angle + dy * sinf camera_angle)%f32 in
      p = record_of v obs tx ty /\
      po_obstacle_id p = obs_id obs /\ po_type p = obs_type obs /\
      po_dx p = dx /\ po_dy p = dy /\ po_dist_sq p = (dx * dx + dy * dy)%f32 /\
      SFltb f_0_5 t = true /\
      (po_is_between p = 1 <->
         SFltb player_height (obs_height obs) = true /\
         SFltb f_0_5 t = true /\ SFltb t player_t = true) /\
      (po_is_between p = 0 \/ po_is_between p = 1).
Proof.
  intros Hwf Hcount v r half_w half_h raw_x raw_y player_dx player_dy player_t p Hp.
  destruct (process_visible_obstacles_returned camera_x camera_y camera_z camera_angle
              player_x player_y player_height fov max_render_distance map_width
              map_height out st Hwf Hcount) as (_ & Hret & _).
  fold v r in Hret. rewrite Hret, bubble_perm in Hp.
  apply collected_visible in Hp as ([[i tx] ty] & Hin & Hvis & ->).
  exists i, tx, ty. split; [exact Hin|]. cbn zeta. split; [reflexivity|].
  cbn [visible_image] in Hvis. unfold visible in Hvis.
  apply andb_prop in Hvis as [_ Ht].
  cbn [record_of_image record_of po_obstacle_id po_type po_dx po_dy po_dist_sq
       po_is_between].
  split; [reflexivity|]. split; [reflexivity|]. split; [reflexivity|].
  split; [reflexivity|]. split; [reflexivity|].
  change (obstacle_t v (image_dx v (obstacles st !!! Z.to_nat i) tx)
            (image_dy v (obstacles st !!! Z.to_nat i) ty))
    with (((obs_x (obstacles st !!! Z.to_nat i) + F32.of_int tx * map_width) - camera_x)
          * cosf camera_angle
          + ((obs_y (obstacles st !!! Z.to_nat i) + F32.of_int ty * map_height) - camera_y)
            * sinf camera_angle)%f32 in Ht |- *.
  unfold F32.gtb in Ht. split; [exact Ht|].
  unfold is_between_camera_and_player. change (v_player_height v) with player_height.
  change (v_player_t v) with player_t. unfold F32.gtb, F32.ltb. rewrite Ht.
  destruct (SFltb player_height _), (SFltb _ player_t); cbn;
    (split; [split; [intros; try lia; auto|intros (? & ? & ?); congruence]|lia]).
Qed.

(** C10. [process_visible_obstacles] leaves the stored obstacles and their
    count as they were, [check_collision] stores nothing, and a call after
    which the registry differs is one of [init_obstacles] and
    [add_obstacles_batch], each of which does change it from some state. *)
Theorem registry_frame :
  (forall camera_x camera_y camera_z camera_angle player_x player_y player_height
          fov max_render_distance map_width map_height output_buffer st,
     let st' := fst (fst (process_visible_obstacles camera_x camera_y camera_z
                            camera_angle player_x player_y player_height fov
                            max_render_distance map_width map_height output_buffer st)) in
     obstacles st' = obstacles st /\ obstacle_count st' = obstacle_count st) /\
  (forall player_x player_y player_radius player_height new_x new_y map_width map_height st,
     exec (Call_check_collision player_x player_y player_radius player_height
             new_x new_y map_width map_height) st = st) /\
  (forall c st,
     registry (exec c st) <> registry st ->
     c = Call_init_obstacles \/ exists data count, c = Call_add_obstacles_batch data count) /\
  registry (exec Call_init_obstacles nearly_full) <> registry nearly_full /\
  registry (exec (Call_add_obstacles_batch no_output 1) initial_state)
    <> registry initial_state.
Proof.
  split; [|split; [|split; [|split]]].
  - intros. subst st'.
    pose proof (process_visible_obstacles_registry camera_x camera_y camera_z camera_angle
                  player_x player_y player_height fov max_render_distance map_width
                  map_height output_buffer st) as Hr.
    unfold registry in Hr. injection Hr as Ho Hc. split; assumption.
  - reflexivity.
  - intros c st Hne. destruct c; cbn [exec] in Hne.
    + left. reflexivity.
    + right. eauto.
    + exfalso. apply Hne. apply process_visible_obstacles_registry.
    + exfalso. apply Hne. reflexivity.
    + exfalso. apply Hne. reflexivity.
  - intros Heq. apply (f_equal snd) in Heq. cbn in Heq. unfold MAX_OBSTACLES in Heq. lia.
  - intros Heq. apply (f_equal snd) in Heq. cbn [exec registry snd] in Heq.
    destruct (add_obstacles_batch_rounds no_output 1 initial_state initial_state_wf
                ltac:(lia)) as (i & Hi & Ha & Hfull).
    destruct (add_obstacles_batch no_output 1 initial_state) as [st' a].
    cbn [fst snd] in *. destruct Ha as (_ & Hc & _).
    rewrite Heq in Hc. cbn in Hc.
    assert (i = 0) as -> by lia. specialize (Hfull ltac:(lia)).
    rewrite Heq in Hfull. cbn in Hfull. unfold MAX_OBSTACLES in Hfull. lia.
Qed.
End VisibilityTheorems.

(** ** The invariant of the statics *)

Section Invariant.
Context `{Target}.

Lemma process_visible_obstacles_wf
    camera_x camera_y camera_z camera_angle player_x player_y player_height
    fov max_render_distance map_width map_height output_buffer st :
  State_wf st ->
  State_wf (fst (fst (process_visible_obstacles camera_x camera_y camera_z camera_angle
                        player_x player_y player_height fov max_render_distance
                        map_width map_height output_buffer st))).
Proof.
  intros Hwf.
  destruct output_buffer as [out|]; [|exact Hwf].
  destruct (Z.eq_dec (obstacle_count st) 0) as [Hz|Hnz].
  { unfold process_visible_obstacles. rewrite Hz. exact Hwf. }
  pose proof (process_visible_obstacles_registry camera_x camera_y camera_z camera_angle
                player_x player_y player_height fov max_render_distance map_width
                map_height (Some out) st) as Hreg.
  destruct (process_visible_obstacles_returned camera_x camera_y camera_z camera_angle
              player_x player_y player_height fov max_render_distance map_width
              map_height out st Hwf Hnz) as (_ & _ & Hlen & _).
  cbn zeta in Hlen.
  set (r := process_visible_obstacles _ _ _ _ _ _ _ _ _ _ _ _ _) in *.
  unfold registry in Hreg. injection Hreg as Ho Hc.
  destruct Hwf as (Hwo & _ & Hwc). unfold State_wf. rewrite Ho, Hc.
  split; [exact Hwo|]. split; [exact Hlen|exact Hwc].
Qed.

Lemma exec_wf c st : State_wf st -> State_wf (exec c st).
Proof.
  intros Hwf. destruct c; cbn [exec]; try exact Hwf.
  - apply init_obstacles_wf. exact Hwf.
  - destruct (Z.le_gt_cases 0 count) as [Hle|Hgt].
    + apply add_obstacles_batch_wf; assumption.
    + unfold add_obstacles_batch. rewrite for_range_nil by lia. exact Hwf.
  - apply process_visible_obstacles_wf. exact Hwf.
Qed.

(** Every state the host can reach has the two arrays at their declared
    length and the count within the first. *)
Lemma reachable_wf st : Reachable st -> State_wf st.
Proof.
  induction 1 as [|c st _ IH]; [apply initial_state_wf|apply exec_wf; exact IH].
Qed.
End Invariant.

(** ** The visibility processor on concrete registries *)

Section VisibilityExamples.
#[local] Existing Instance example_target.

Lemma axis_obstacles_wf : State_wf axis_obstacles.
Proof. apply add_obstacles_batch_wf; [apply initial_state_wf|lia]. Qed.

Lemma south_obstacle_wf : State_wf south_obstacle.
Proof. apply add_obstacles_batch_wf; [apply initial_state_wf|lia]. Qed.

(** The camera at the origin looking along the x axis, the player at
    (25, 0) on the ground, a field of view of 1.5, 50 units of depth on a map
    of 100 by 100. *)
Example axis_returned :
  let z := F32.zero in
  let r := process_visible_obstacles z z z z (F32.of_int 25) z z
             (F32.lit 15 10) (F32.of_int 50) (F32.of_int 100) (F32.of_int 100)
             (Some no_output) axis_obstacles in
  snd r = 4 /\
  map (fun p => (po_obstacle_id p, po_is_between p)) (returned r) =
  [(2, 0); (4, 0); (3, 1); (1, 1)].
Proof. vm_compute. split; reflexivity. Qed.

Lemma visible_images_recorded_witness :
  let z := F32.zero in
  let v := make_view z z z (F32.of_int 25) z z
             (F32.lit 15 10) (F32.of_int 50) (F32.of_int 100) (F32.of_int 100) in
  let r := process_visible_obstacles z z z z (F32.of_int 25) z z
             (F32.lit 15 10) (F32.of_int 50) (F32.of_int 100) (F32.of_int 100)
             (Some no_output) axis_obstacles in
  returned r ≡ₚ
    take (Z.to_nat MAX_PROCESSED)
      (map (record_of_image v (obstacles axis_obstacles))
         (List.filter (visible_image v (obstacles axis_obstacles))
            (images v (obstacle_count axis_obstacles)))).
Proof.
  intros z v r.
  refine (proj1 (proj2 (proj2 (proj2 (proj2 (proj2
            (visible_images_recorded z z z z (F32.of_int 25) z z
               (F32.lit 15 10) (F32.of_int 50) (F32.of_int 100) (F32.of_int 100)
               no_output axis_obstacles axis_obstacles_wf _))))))).
  vm_compute. discriminate.
Defined.

Lemma returned_sorted_farthest_first_witness :
  let z := F32.zero in
  let r := process_visible_obstacles z z z z (F32.of_int 25) z z
             (F32.lit 15 10) (F32.of_int 50) (F32.of_int 100) (F32.of_int 100)
             (Some no_output) axis_obstacles in
  StronglySorted (fun a b => (po_dist_sq b <=? po_dist_sq a)%f32 = true) (returned r).
Proof.
  intros z r.
  exact (proj1 (returned_sorted_farthest_first z z z z
                  (F32.of_int 25) z z (F32.lit 15 10) (F32.of_int 50) (F32.of_int 100)
                  (F32.of_int 100) (Some no_output) axis_obstacles axis_obstacles_wf)).
Defined.

(** The camera at (90, 0) looking along the x axis on a map 100 wide, the
    player at (15, 0) across the seam: its displacement -75 is corrected to
    25.  The four obstacles of [axis_obstacles] are seen one period to the
    right, at forward distances 20, 40, 30 and 40; the nearest, returned
    last, is the only one between the camera and the player. *)
Lemma occluding_flag_witness :
  let z := F32.zero in
  let w := F32.of_int 100 in
  let cx := F32.of_int 90 in
  let px := F32.of_int 15 in
  let v := make_view cx z z px z z (F32.lit 15 10) (F32.of_int 50) w w in
  let r := process_visible_obstacles cx z z z px z z (F32.lit 15 10) (F32.of_int 50) w w
             (Some no_output) axis_obstacles in
  let half_w := (w / f_2_0)%f32 in
  let raw_x := (px - cx)%f32 in
  let raw_y := (z - z)%f32 in
  let player_dx :=
    if SFltb half_w raw_x then (raw_x - w)%f32
    else if SFltb raw_x (SFopp half_w) then (raw_x + w)%f32
    else raw_x in
  let player_dy :=
    if SFltb half_w raw_y then (raw_y - w)%f32
    else if SFltb raw_y (SFopp half_w) then (raw_y + w)%f32
    else raw_y in
  let player_t := (player_dx * cosf z + player_dy * sinf z)%f32 in
  let p := returned r !!! 3%nat in
  (exists i tx ty,
     (i, tx, ty) ∈ images v (obstacle_count axis_obstacles) /\
     let obs := obstacles axis_obstacles !!! Z.to_nat i in
     let dx := ((obs_x obs + F32.of_int tx * w) - cx)%f32 in
     let dy := ((obs_y obs + F32.of_int ty * w) - z)%f32 in
     let t := (dx * cosf z + dy * sinf z)%f32 in
     p = record_of v obs tx ty /\
     po_obstacle_id p = obs_id obs /\ po_type p = obs_type obs /\
     po_dx p = dx /\ po_dy p = dy /\ po_dist_sq p = (dx * dx + dy * dy)%f32 /\
     SFltb f_0_5 t = true /\
     (po_is_between p = 1 <->
        SFltb z (obs_height obs) = true /\
        SFltb f_0_5 t = true /\ SFltb t player_t = true) /\
     (po_is_between p = 0 \/ po_is_between p = 1)) /\
  player_t = F32.of_int 25 /\
  map (fun q => (po_obstacle_id q, po_dx q, po_is_between q)) (returned r) =
  [(2, F32.of_int 40, 0); (4, F32.of_int 40, 0); (3, F32.of_int 30, 0);
   (1, F32.of_int 20, 1)].
Proof.
  intros z w cx px v r half_w raw_x raw_y player_dx player_dy player_t p.
  split; [|split; vm_compute; reflexivity].
  apply (occluding_flag cx z z z px z z (F32.lit 15 10) (F32.of_int 50) w w
           no_output axis_obstacles axis_obstacles_wf).
  - vm_compute. discriminate.
  - apply list_elem_of_lookup_total_2. vm_compute. lia.
Defined.

(** C1. The code departs from the claim for a heading it does not
    normalise.  The camera at the origin with a heading of 5.5 radians and a
    field of view of 0.2, one obstacle registered at (0, -10): the angle to it
    is -pi/2, the raw difference 7.07 exceeds 2 pi, and the single fold
    [2 pi - difference] the code applies gives a negative value, which is
    below [fov / 2 + 0.5 = 0.6]: the image is recorded, and it is the one
    record returned.  The shortest arc between the two directions, the
    difference wrapped at +-pi as [normalize_angle] (defined beside the scan
    and never called) computes it, is 0.79, above 0.6: by the claim the image
    has no record. *)
Theorem unnormalized_heading_recorded :
  let z := F32.zero in
  let v := make_view z z f_5_5 z z z
             (F32.lit 2 10) (F32.of_int 50) (F32.of_int 100) (F32.of_int 100) in
  let r := process_visible_obstacles z z z f_5_5 z z z
             (F32.lit 2 10) (F32.of_int 50) (F32.of_int 100) (F32.of_int 100)
             (Some no_output) south_obstacle in
  let obs := obstacles south_obstacle !!! Z.to_nat 0 in
  snd r = 1 /\
  returned r = [record_of v obs 0 0] /\
  (angle_diff v (image_dx v obs 0) (image_dy v obs 0) <? F32.zero)%f32 = true /\
  exists d,
    shortest_arc_diff 4 v (image_dx v obs 0) (image_dy v obs 0)
      = Some d /\
    d = S754_finite false 13213923 (-24) /\
    (d <=? v_half_fov v + f_0_5)%f32 = false.
Proof.
  intros z v r obs. split; [vm_compute; reflexivity|].
  split; [vm_compute; reflexivity|]. split; [vm_compute; reflexivity|].
  exists (S754_finite false 13213923 (-24)).
  split; [vm_compute; reflexivity|]. split; [reflexivity|vm_compute; reflexivity].
Qed.
End VisibilityExamples.

(** ** The ground rasterizer *)

Lemma row_step_ge_1 ground_h y base_res dynamic_res layered_res state_move state_rot tilt :
  1 <= row_step ground_h y base_res dynamic_res layered_res state_move state_rot tilt.
Proof.
  unfold row_step.
  match goal with |- 1 <= (if ?s <? 1 then 1 else ?s) => destruct (Z.ltb_spec s 1) end; lia.
Qed.

(** ** The tilting test *)

Lemma digits2_pos_lower (p : positive) : 2 ^ (Zpos (digits2_pos p) - 1) <= Zpos p.
Proof.
  induction p as [p IH|p IH|]; cbn [digits2_pos]; [| |cbn; lia].
  - rewrite Pos2Z.inj_succ. replace (Z.succ (Zpos (digits2_pos p)) - 1)
      with (Z.succ (Zpos (digits2_pos p) - 1)) by lia.
    rewrite Z.pow_succ_r by lia. lia.
  - rewrite Pos2Z.inj_succ. replace (Z.succ (Zpos (digits2_pos p)) - 1)
      with (Z.succ (Zpos (digits2_pos p) - 1)) by lia.
    rewrite Z.pow_succ_r by lia. lia.
Qed.

Lemma iter_xO_digits (p k : positive) :
  Zpos (digits2_pos (Pos.iter xO p k)) = Zpos (digits2_pos p) + Zpos k.
Proof.
  induction k as [|k IH] using Pos.peano_ind.
  - cbn. lia.
  - rewrite Pos.iter_succ. cbn [digits2_pos]. lia.
Qed.

Lemma iter_xO_value (p k : positive) : Zpos (Pos.iter xO p k) = Zpos p * 2 ^ Zpos k.
Proof.
  induction k as [|k IH] using Pos.peano_ind.
  - cbn. lia.
  - rewrite Pos.iter_succ, Pos2Z.inj_succ, Z.pow_succ_r by lia.
    rewrite Pos2Z.inj_xO, IH. lia.
Qed.

Lemma digits2_pos_upper (p : positive) : Zpos p < 2 ^ Zpos (digits2_pos p).
Proof.
  induction p as [p IH|p IH|]; cbn [digits2_pos]; [| |cbn; lia];
    rewrite Pos2Z.inj_succ, Z.pow_succ_r by lia; lia.
Qed.

(** A mantissa of 53 digits is not rounded in [double]. *)
Lemma binary_round_aux_exact_double s (m : positive) e :
  Zpos (digits2_pos m) = 53 -> -1074 <= e <= 971 ->
  binary_round_aux 53 1024 s (Zpos m) e loc_Exact = S754_finite s m e.
Proof.
  intros Hd He. unfold binary_round_aux, shr_fexp, fexp, emin.
  cbn [Zdigits2 shr_record_of_loc]. rewrite Hd.
  replace (Z.max (53 + e - 53) (3 - 1024 - 53) - e) with 0 by lia.
  cbn [shr shr_m loc_of_shr_record round_nearest_even Zdigits2 shr_record_of_loc].
  rewrite Hd.
  replace (Z.max (53 + e - 53) (3 - 1024 - 53) - e) with 0 by lia.
  cbn [shr shr_m].
  destruct (Z.leb_spec e (1024 - 53)); [reflexivity|lia].
Qed.

(** The promotion of a float of the format: the mantissa shifted to 53
    digits. *)
Lemma of_float_finite s (m : positive) e :
  bounded F32.prec F32.emax m e = true ->
  exists k : positive,
    Zpos k = 53 - Zpos (digits2_pos m) /\
    F64.of_float (S754_finite s m e) =
    S754_finite s (Pos.iter xO m k) (Zpos (digits2_pos m) + e - 53).
Proof.
  unfold bounded, canonical_mantissa, fexp, emin, F32.prec, F32.emax.
  intros Hb. apply andb_prop in Hb as [Hc Hb]. apply Z.eqb_eq in Hc. apply Z.leb_le in Hb.
  set (d := Zpos (digits2_pos m)) in *.
  assert (1 <= d) as Hd1 by (subst d; lia).
  assert (d <= 24 /\ -149 <= e) as [Hd He] by lia.
  unfold F64.of_float, binary_round, shl_align, fexp, emin, F64.prec, F64.emax. fold d.
  replace (Z.max (d + e - 53) (3 - 1024 - 53)) with (d + e - 53) by lia.
  destruct (d + e - 53 - e) as [|k|k] eqn:Ek; [lia|lia|].
  exists k. split; [lia|].
  apply binary_round_aux_exact_double; [rewrite iter_xO_digits; fold d; lia|lia].
Qed.

Lemma is_tilting_magnitude (tilt : float) :
  valid_binary F32.prec F32.emax tilt = true ->
  is_tilting tilt = magnitude_above tilt 1 10000.
Proof.
  destruct tilt as [s|s| |s m e]; cbn [valid_binary]; intros Hv.
  - destruct s; reflexivity.
  - destruct s; reflexivity.
  - reflexivity.
  - destruct (of_float_finite s m e Hv) as (k & Hk & Hof).
    unfold is_tilting, F64.fabs, F64.gtb. rewrite Hof. cbn [SFabs].
    change (F64.of_float f_0_0001) with (S754_finite false 7378697443082240 (-66)).
    unfold bounded, canonical_mantissa, fexp, emin, F32.prec, F32.emax in Hv.
    apply andb_prop in Hv as [Hc Hb]. apply Z.eqb_eq in Hc. apply Z.leb_le in Hb.
    pose proof (digits2_pos_lower m) as Hlo. pose proof (digits2_pos_upper m) as Hup.
    pose proof (iter_xO_value m k) as Hval.
    set (d := Zpos (digits2_pos m)) in *.
    assert (1 <= d) as Hd1 by (subst d; lia).
    assert (Zpos m < 2 ^ 24) as Hm24.
    { assert (2 ^ d <= 2 ^ 24) by (apply Z.pow_le_mono_r; lia). lia. }
    change (2 ^ 24) with 16777216 in Hm24.
    unfold SFltb, SFcompare, magnitude_above.
    destruct (Z.compare_spec (-66) (d + e - 53)) as [Heq|Hlt|Hgt].
    + assert (e = -37) as -> by lia. assert (d = 24) as Hd by lia.
      rewrite Hd in Hk, Hlo. assert (k = 29%positive) as -> by lia.
      change (2 ^ Z.pos 29) with 536870912 in Hval.
      cbn [Z.leb Z.compare Z.opp]. change (1 * 2 ^ 37) with 137438953472.
      change (Pos.compare_cont Eq 7378697443082240 (Pos.iter xO m 29))
        with (Pos.compare 7378697443082240 (Pos.iter xO m 29)).
      rewrite Pos2Z.inj_compare, Hval.
      destruct (Z.compare_spec 7378697443082240 (Z.pos m * 536870912));
        destruct (Z.ltb_spec 137438953472 (Z.pos m * 10000)); try reflexivity; lia.
    + assert (d = 24) as Hd by lia. rewrite Hd in Hlo.
      change (2 ^ (24 - 1)) with 8388608 in Hlo.
      destruct (Z.leb_spec 0 e) as [He|He].
      * assert (0 < 2 ^ e) by (apply Z.pow_pos_nonneg; lia).
        destruct (Z.ltb_spec 1 (Z.pos m * 2 ^ e * 10000)); [reflexivity|nia].
      * assert (2 ^ (- e) <= 2 ^ 36) as Hp by (apply Z.pow_le_mono_r; lia).
        change (2 ^ 36) with 68719476736 in Hp.
        destruct (Z.ltb_spec (1 * 2 ^ (- e)) (Z.pos m * 10000)); [reflexivity|lia].
    + assert (e <= -38) as He by lia.
      destruct (Z.leb_spec 0 e) as [|_]; [lia|].
      assert (2 ^ 38 <= 2 ^ (- e)) as Hp by (apply Z.pow_le_mono_r; lia).
      change (2 ^ 38) with 274877906944 in Hp.
      destruct (Z.ltb_spec (1 * 2 ^ (- e)) (Z.pos m * 10000)); [lia|reflexivity].
Qed.

(** C8. The step of a row in performance mode is the entry of the table for
    the band of the row (far: [y + 1 <= 0.1 * ground_h]; mid: the next rows up
    to [(0.1 + 0.5) * ground_h]; near: the others) when both flags are set,
    [base_res] otherwise, and never below 1, where a view is rotating or
    tilting when [state_rot] is set or the magnitude of [tilt], a float of
    the format, is above 1/10000; game_logic.c and ground_renderer.c select
    the same step. *)
Theorem sampling_step_table
    ground_h y base_res dynamic_res layered_res state_move state_rot tilt :
  (valid_binary F32.prec F32.emax tilt = true ->
   row_step ground_h y base_res dynamic_res layered_res state_move state_rot tilt =
   described_step ground_h y base_res dynamic_res layered_res state_move state_rot tilt) /\
  row_step_ground_renderer ground_h y base_res dynamic_res layered_res state_move
    state_rot tilt =
  row_step ground_h y base_res dynamic_res layered_res state_move state_rot tilt /\
  1 <= row_step ground_h y base_res dynamic_res layered_res state_move state_rot tilt.
Proof.
  split.
  - intros Hvalid.
    unfold row_step, described_step, band, table_step, effective_rot, t1, t2,
      far_ratio, mid_ratio.
    rewrite (is_tilting_magnitude tilt Hvalid).
    destruct (_ <=? F32.of_int ground_h * f_0_1)%f32;
      [|destruct (_ <=? F32.of_int ground_h * (f_0_1 + f_0_5))%f32];
      destruct (negb (dynamic_res =? 0) && negb (layered_res =? 0));
      destruct (negb (state_rot =? 0) || magnitude_above tilt 1 10000);
      destruct (negb (state_move =? 0)); cbn;
      try (destruct (Z.ltb_spec base_res 1)); lia.
  - unfold row_step, row_step_ground_renderer, effective_rot, t1, t2, far_ratio, mid_ratio.
    destruct (_ <=? F32.of_int ground_h * f_0_1)%f32;
      [|destruct (_ <=? F32.of_int ground_h * (f_0_1 + f_0_5))%f32];
      destruct (negb (dynamic_res =? 0) && negb (layered_res =? 0));
      destruct (negb (state_rot =? 0) || is_tilting tilt);
      destruct (negb (state_move =? 0)); cbn;
      try (destruct (Z.ltb_spec base_res 1)); split; lia.
Qed.

(** A far row of a view at rest but for its tilt: at [0.0001f], which is
    below 1/10000, the step is 4; at the next float, which is above, it is 5;
    the sign of the tilt does not matter. *)
Lemma sampling_step_table_witness :
  let below := f_0_0001 in
  let above := S754_finite false 13743896 (-37) in
  row_step 10 0 3 1 1 0 0 below = described_step 10 0 3 1 1 0 0 below /\
  row_step 10 0 3 1 1 0 0 above = described_step 10 0 3 1 1 0 0 above /\
  row_step 10 0 3 1 1 0 0 (SFopp above) = described_step 10 0 3 1 1 0 0 (SFopp above) /\
  described_step 10 0 3 1 1 0 0 below = 4 /\
  described_step 10 0 3 1 1 0 0 above = 5 /\
  described_step 10 0 3 1 1 0 0 (SFopp above) = 5 /\
  row_step 10 0 3 1 1 0 0 below = 4 /\
  row_step 10 0 3 1 1 0 0 above = 5 /\
  row_step 10 0 3 1 1 0 0 (SFopp above) = 5.
Proof.
  intros below above.
  split; [apply (proj1 (sampling_step_table 10 0 3 1 1 0 0 below)); reflexivity|].
  split; [apply (proj1 (sampling_step_table 10 0 3 1 1 0 0 above)); reflexivity|].
  split; [apply (proj1 (sampling_step_table 10 0 3 1 1 0 0 (SFopp above))); reflexivity|].
  repeat split; vm_compute; reflexivity.
Defined.

(** With 10 rows: one far, five mid, four near. *)
Example bands_of_ten :
  map (band 10) (seqZ 0 10) = [Far; Mid; Mid; Mid; Mid; Mid; Near; Near; Near; Near].
Proof. vm_compute. reflexivity. Qed.

(** A tilt of exactly [0.0001f] does not count as tilting; the next float does. *)
Example tilting_threshold :
  is_tilting f_0_0001 = false /\ is_tilting (S754_finite false 13743896 (-37)) = true.
Proof. vm_compute. split; reflexivity. Qed.

Lemma stores_range_refl p lo : stores_range p p lo 0.
Proof. repeat split; auto. Qed.

Lemma stores_range_trans p p' p'' lo n m :
  0 <= n -> 0 <= m ->
  stores_range p p' lo n -> stores_range p' p'' (lo + n) m ->
  stores_range p p'' lo (n + m).
Proof.
  intros Hn Hm (Hl1 & Hs1 & Hf1) (Hl2 & Hs2 & Hf2). repeat split.
  - congruence.
  - rewrite Hs2, Hs1, seqZ_app, rev_app_distr, app_assoc by lia. reflexivity.
  - intros j Hj. rewrite Hf2 by lia. apply Hf1. lia.
Qed.

Lemma store8_range p i v : 0 <= i -> stores_range p (store8 p i v) i 1.
Proof.
  intros Hi. unfold store8. repeat split; cbn.
  - apply length_insert.
  - intros j Hj. apply list_lookup_insert_ne. lia.
Qed.

Lemma store8_lookup p i v :
  0 <= i < Z.of_nat (length (px_bytes p)) ->
  px_bytes (store8 p i v) !! Z.to_nat i = Some v.
Proof. intros Hi. cbn. apply list_lookup_insert_eq. lia. Qed.

Lemma memcpy_range p dst src n :
  0 <= dst -> 0 <= n -> stores_range p (memcpy p dst src n) dst n.
Proof.
  intros Hd Hn. unfold memcpy. repeat split; cbn.
  - apply length_inserts.
  - intros j [Hj|Hj].
    + apply list_lookup_inserts_lt. lia.
    + apply list_lookup_inserts_ge. rewrite length_take. lia.
Qed.

Lemma memcpy_lookup p dst src n k :
  0 <= dst -> 0 <= src -> 0 <= k < n ->
  src + n <= Z.of_nat (length (px_bytes p)) ->
  dst + n <= Z.of_nat (length (px_bytes p)) ->
  px_bytes (memcpy p dst src n) !! Z.to_nat (dst + k) = px_bytes p !! Z.to_nat (src + k).
Proof.
  intros Hd Hs Hk Hsl Hdl. unfold memcpy. cbn.
  rewrite list_lookup_inserts.
  - rewrite lookup_take_lt by lia. rewrite lookup_drop. f_equal. lia.
  - rewrite length_take, length_drop. lia.
  - lia.
Qed.

Lemma fast_mod_mod v m : 0 < m -> fast_mod v m = v mod m /\ 0 <= v mod m < m.
Proof.
  intros Hm. split; [|apply Z.mod_pos_bound; exact Hm].
  unfold fast_mod.
  pose proof (Z.quot_rem' v m) as Hqr.
  pose proof (Z.rem_bound_abs v m ltac:(lia)) as Hb.
  destruct (Z.ltb_spec (Z.rem v m) 0) as [Hneg|Hpos].
  - apply (Z.mod_unique v m (Z.quot v m - 1)); lia.
  - apply (Z.mod_unique v m (Z.quot v m)); lia.
Qed.

Section QualityFacts.
Context `{Target}.
Variables (map_data : list Z) (ground_w map_w map_h : Z).
Variables (camera_x camera_y cos_a sin_a sh_focal tan_f : float).
Hypothesis map_w_pos : 0 < map_w.
Hypothesis map_h_pos : 0 < map_h.

Let sample := quality_sample map_data ground_w map_w map_h
                camera_x camera_y cos_a sin_a sh_focal tan_f.
Let line := fun y => scanline ground_w y camera_x camera_y cos_a sin_a sh_focal tan_f.

Lemma quality_pixel_spec (off x y : Z) (p : pixbuf) :
  0 <= x -> 0 <= off ->
  off + x * 4 + 4 <= Z.of_nat (length (px_bytes p)) ->
  let s := (p, accumulate (sl_lX (line y)) (sl_dx (line y)) (Z.to_nat x),
               accumulate (sl_lY (line y)) (sl_dy (line y)) (Z.to_nat x)) in
  let s' := quality_pixel map_data map_w map_h off (line y) x s in
  stores_range p (fst (fst s')) (off + x * 4) 4 /\
  snd (fst s') = accumulate (sl_lX (line y)) (sl_dx (line y)) (Z.to_nat (x + 1)) /\
  snd s' = accumulate (sl_lY (line y)) (sl_dy (line y)) (Z.to_nat (x + 1)) /\
  forall c, 0 <= c < 4 ->
    px_bytes (fst (fst s')) !! Z.to_nat (off + x * 4 + c) = Some (sample x y c).
Proof.
  intros Hx Hoff Hlen s s'. subst s s'. unfold quality_pixel. cbn [fst snd].
  replace (Z.to_nat (x + 1)) with (S (Z.to_nat x)) by lia. cbn [accumulate].
  split; [|split; [reflexivity|split; [reflexivity|]]].
  - set (t := off + x * 4).
    set (p1 := store8 p t _). set (p2 := store8 p1 (t + 1) _).
    set (p3 := store8 p2 (t + 2) _).
    assert (stores_range p p1 t 1) as H1 by (apply store8_range; lia).
    assert (stores_range p1 p2 (t + 1) 1) as H2 by (apply store8_range; lia).
    assert (stores_range p2 p3 (t + (1 + 1)) 1) as H3
      by (replace (t + (1 + 1)) with (t + 2) by lia; apply store8_range; lia).
    assert (stores_range p3 (store8 p3 (t + 3) 255) (t + (1 + 1 + 1)) 1) as H4
      by (replace (t + (1 + 1 + 1)) with (t + 3) by lia; apply store8_range; lia).
    pose proof (stores_range_trans p p1 p2 t 1 1 ltac:(lia) ltac:(lia) H1 H2) as H12.
    pose proof (stores_range_trans p p2 p3 t (1 + 1) 1 ltac:(lia) ltac:(lia) H12 H3) as H13.
    exact (stores_range_trans p p3 _ t (1 + 1 + 1) 1 ltac:(lia) ltac:(lia) H13 H4).
  - intros c Hc. unfold sample, quality_sample, map_index. fold (line y).
    rewrite (proj1 (fast_mod_mod (fptosi _) map_w map_w_pos)).
    rewrite (proj1 (fast_mod_mod (fptosi _) map_h map_h_pos)).
    set (mi := (_ * map_w + _) * 4).
    set (t := off + x * 4). cbn [store8 px_bytes].
    assert (c = 0 \/ c = 1 \/ c = 2 \/ c = 3) as [-> | [-> | [-> | ->]]] by lia;
      cbn [Z.eqb].
    + rewrite !list_lookup_insert_ne by lia.
      replace (t + 0) with t by lia. replace (mi + 0) with mi by lia.
      apply list_lookup_insert_eq. lia.
    + rewrite !list_lookup_insert_ne by lia.
      apply list_lookup_insert_eq. rewrite length_insert. lia.
    + rewrite !list_lookup_insert_ne by lia.
      apply list_lookup_insert_eq. rewrite !length_insert. lia.
    + apply list_lookup_insert_eq. rewrite !length_insert. lia.
Qed.

Lemma quality_row_spec (y : Z) (p : pixbuf) :
  0 <= ground_w -> 0 <= y ->
  y * ground_w * 4 + ground_w * 4 <= Z.of_nat (length (px_bytes p)) ->
  let p' := fst (fst (for_loop 0 ground_w
                        (quality_pixel map_data map_w map_h (y * ground_w * 4) (line y))
                        (p, sl_lX (line y), sl_lY (line y)))) in
  stores_range p p' (y * ground_w * 4) (ground_w * 4) /\
  forall x c, 0 <= x < ground_w -> 0 <= c < 4 ->
    px_bytes p' !! Z.to_nat (y * ground_w * 4 + x * 4 + c) = Some (sample x y c).
Proof.
  intros Hw Hy Hlen. set (off := y * ground_w * 4) in *.
  assert (0 <= off) as Hoff by (subst off; nia).
  pose proof (for_loop_inv
    (fun x (s : row_state) =>
       stores_range p (fst (fst s)) off (x * 4) /\
       snd (fst s) = accumulate (sl_lX (line y)) (sl_dx (line y)) (Z.to_nat x) /\
       snd s = accumulate (sl_lY (line y)) (sl_dy (line y)) (Z.to_nat x) /\
       forall x' c, 0 <= x' < x -> 0 <= c < 4 ->
         px_bytes (fst (fst s)) !! Z.to_nat (off + x' * 4 + c) = Some (sample x' y c))
    0 ground_w (quality_pixel map_data map_w map_h off (line y))
    (p, sl_lX (line y), sl_lY (line y)) Hw) as Hinv.
  cbn beta in Hinv.
  match type of Hinv with ?P0 -> ?Pstep -> _ =>
    assert P0 as H0; [|assert Pstep as Hstep; [|specialize (Hinv H0 Hstep)]] end.
  - cbn [fst snd]. split; [apply stores_range_refl|].
    split; [reflexivity|split; [reflexivity|]]. intros; lia.
  - intros x [[p1 cx] cy] Hx (Hr & Hcx & Hcy & Hprev). cbn [fst snd] in *. subst cx cy.
    destruct Hr as (Hl1 & Hs1 & Hf1).
    destruct (quality_pixel_spec off x y p1 ltac:(lia) Hoff ltac:(lia))
      as (Hr2 & Hcx2 & Hcy2 & Hnew).
    cbn zeta in *.
    split; [|split; [exact Hcx2|split; [exact Hcy2|]]].
    + replace ((x + 1) * 4) with (x * 4 + 4) by lia.
      eapply stores_range_trans; [lia|lia| |exact Hr2]. repeat split; auto.
    + intros x' c Hx' Hc. destruct (Z.eq_dec x' x) as [->|Hne].
      * apply Hnew. exact Hc.
      * destruct Hr2 as (_ & _ & Hf2). rewrite Hf2 by lia. apply Hprev; lia.
  - destruct Hinv as (Hr & _ & _ & Hall). split; [exact Hr|].
    intros x c Hx Hc. apply Hall; assumption.
Qed.
End QualityFacts.

(** C6. For a destination of [ground_w] by [ground_h] pixels and a map of
    positive size, [render_ground_quality] stores to each of the
    [ground_w * ground_h * 4] bytes of the destination once (in increasing
    order) and to no other; afterwards the pixel [(x, y)] holds the texel at
    the truncated coordinates accumulated along the scanline, reduced into
    [0, map_w) and [0, map_h), with alpha 255.  The result is a function of
    the arguments. *)
Theorem render_ground_quality_covers `{Target}
    (ground_pixels : pixbuf) (map_data : list Z) (ground_w ground_h map_w map_h : Z)
    (camera_x camera_y cos_a sin_a sh_focal tan_f : float) :
  0 < ground_w -> 0 < ground_h -> 0 < map_w -> 0 < map_h ->
  length (px_bytes ground_pixels) = Z.to_nat (ground_w * ground_h * 4) ->
  let p' := render_ground_quality ground_pixels map_data ground_w ground_h map_w map_h
              camera_x camera_y cos_a sin_a sh_focal tan_f in
  px_stores p' = rev (seqZ 0 (ground_w * ground_h * 4)) ++ px_stores ground_pixels /\
  length (px_bytes p') = length (px_bytes ground_pixels) /\
  (forall x y c, 0 <= x < ground_w -> 0 <= y < ground_h -> 0 <= c < 4 ->
     px_bytes p' !! Z.to_nat ((y * ground_w + x) * 4 + c) =
     Some (quality_sample map_data ground_w map_w map_h
             camera_x camera_y cos_a sin_a sh_focal tan_f x y c)) /\
  (forall x y, 0 <= x < ground_w -> 0 <= y < ground_h ->
     px_bytes p' !! Z.to_nat ((y * ground_w + x) * 4 + 3) = Some 255) /\
  (forall v, fast_mod v map_w = v mod map_w /\ 0 <= fast_mod v map_w < map_w) /\
  (forall v, fast_mod v map_h = v mod map_h /\ 0 <= fast_mod v map_h < map_h).
Proof.
  intros Hw Hh Hmw Hmh Hlen p'.
  set (sample := quality_sample map_data ground_w map_w map_h
                   camera_x camera_y cos_a sin_a sh_focal tan_f).
  assert (stores_range ground_pixels p' 0 (ground_h * ground_w * 4) /\
          forall x y c, 0 <= x < ground_w -> 0 <= y < ground_h -> 0 <= c < 4 ->
            px_bytes p' !! Z.to_nat (y * ground_w * 4 + x * 4 + c) = Some (sample x y c))
    as [(Hl & Hs & _) Hall].
  { subst p'. unfold render_ground_quality.
    apply (for_loop_inv
             (fun y p =>
                stores_range ground_pixels p 0 (y * ground_w * 4) /\
                forall x y' c, 0 <= x < ground_w -> 0 <= y' < y -> 0 <= c < 4 ->
                  px_bytes p !! Z.to_nat (y' * ground_w * 4 + x * 4 + c)
                  = Some (sample x y' c))); [lia| |].
    - split; [apply stores_range_refl|]. intros; lia.
    - intros y p Hy (Hr & Hprev). cbn zeta.
      pose proof Hr as (Hl1 & _ & _).
      destruct (quality_row_spec map_data ground_w map_w map_h camera_x camera_y
                  cos_a sin_a sh_focal tan_f Hmw Hmh y p ltac:(lia) ltac:(lia)
                  ltac:(nia)) as (Hr2 & Hnew).
      cbn zeta in Hr2, Hnew. split.
      + replace ((y + 1) * ground_w * 4) with (y * ground_w * 4 + ground_w * 4) by lia.
        eapply stores_range_trans; [nia|lia|exact Hr|exact Hr2].
      + intros x y' c Hx Hy' Hc. destruct (Z.eq_dec y' y) as [->|Hne].
        * apply Hnew; assumption.
        * destruct Hr2 as (_ & _ & Hf2). rewrite Hf2 by nia. apply Hprev; lia. }
  split; [|split; [exact Hl|split; [|split; [|split]]]].
  - rewrite Hs. do 3 f_equal. lia.
  - intros x y c Hx Hy Hc.
    replace ((y * ground_w + x) * 4 + c) with (y * ground_w * 4 + x * 4 + c) by lia.
    apply Hall; assumption.
  - intros x y Hx Hy.
    replace ((y * ground_w + x) * 4 + 3) with (y * ground_w * 4 + x * 4 + 3) by lia.
    rewrite (Hall x y 3 Hx Hy ltac:(lia)). reflexivity.
  - intros v. destruct (fast_mod_mod v map_w Hmw) as [-> Hb]. split; [reflexivity|exact Hb].
  - intros v. destruct (fast_mod_mod v map_h Hmh) as [-> Hb]. split; [reflexivity|exact Hb].
Qed.

Section RasterExamples.
#[local] Existing Instance example_target.

(** Two rows of two pixels from [checker_map], the camera at the origin
    looking along the x axis. *)
Example quality_two_by_two :
  px_bytes (render_ground_quality (blank 16) checker_map 2 2 2 2
              F32.zero F32.zero f_1_0 F32.zero f_2_0 f_1_0) =
  [10; 20; 30; 255;  10; 20; 30; 255;  130; 140; 150; 255;  50; 60; 70; 255].
Proof. vm_compute. reflexivity. Qed.

Lemma render_ground_quality_covers_witness :
  let p' := render_ground_quality (blank 16) checker_map 2 2 2 2
              F32.zero F32.zero f_1_0 F32.zero f_2_0 f_1_0 in
  px_stores p' = rev (seqZ 0 (2 * 2 * 4)) ++ px_stores (blank 16) /\
  length (px_bytes p') = length (px_bytes (blank 16)) /\
  (forall x y c, 0 <= x < 2 -> 0 <= y < 2 -> 0 <= c < 4 ->
     px_bytes p' !! Z.to_nat ((y * 2 + x) * 4 + c) =
     Some (quality_sample checker_map 2 2 2
             F32.zero F32.zero f_1_0 F32.zero f_2_0 f_1_0 x y c)) /\
  (forall x y, 0 <= x < 2 -> 0 <= y < 2 ->
     px_bytes p' !! Z.to_nat ((y * 2 + x) * 4 + 3) = Some 255) /\
  (forall v, fast_mod v 2 = v mod 2 /\ 0 <= fast_mod v 2 < 2) /\
  (forall v, fast_mod v 2 = v mod 2 /\ 0 <= fast_mod v 2 < 2).
Proof.
  apply (render_ground_quality_covers (blank 16) checker_map 2 2 2 2
           F32.zero F32.zero f_1_0 F32.zero f_2_0 f_1_0); try lia.
  reflexivity.
Defined.
End RasterExamples.

(** ** The performance mode *)

Lemma stores_range_zero p p' lo lo' : stores_range p p' lo 0 -> stores_range p p' lo' 0.
Proof.
  intros (Hl & Hs & Hf). repeat split; auto.
  intros j _. apply Hf. lia.
Qed.

Lemma store_pixel_range p t r g b a :
  0 <= t ->
  stores_range p (store8 (store8 (store8 (store8 p t r) (t + 1) g) (t + 2) b) (t + 3) a) t 4.
Proof.
  intros Ht.
  set (p1 := store8 p t r). set (p2 := store8 p1 (t + 1) g). set (p3 := store8 p2 (t + 2) b).
  assert (stores_range p p1 t 1) as H1 by (apply store8_range; lia).
  assert (stores_range p1 p2 (t + 1) 1) as H2 by (apply store8_range; lia).
  assert (stores_range p2 p3 (t + (1 + 1)) 1) as H3
    by (replace (t + (1 + 1)) with (t + 2) by lia; apply store8_range; lia).
  assert (stores_range p3 (store8 p3 (t + 3) a) (t + (1 + 1 + 1)) 1) as H4
    by (replace (t + (1 + 1 + 1)) with (t + 3) by lia; apply store8_range; lia).
  pose proof (stores_range_trans p p1 p2 t 1 1 ltac:(lia) ltac:(lia) H1 H2) as H12.
  pose proof (stores_range_trans p p2 p3 t (1 + 1) 1 ltac:(lia) ltac:(lia) H12 H3) as H13.
  exact (stores_range_trans p p3 _ t (1 + 1 + 1) 1 ltac:(lia) ltac:(lia) H13 H4).
Qed.

Section SourceRow.
Variable step_of : Z -> Z.

Lemma source_row_recomputed y :
  0 <= y -> recomputed step_of y = true -> source_row step_of y = y.
Proof.
  intros Hy Hr. unfold source_row. destruct (Z.to_nat y) as [|n] eqn:E; cbn.
  - lia.
  - rewrite <- E, Z2Nat.id by lia. rewrite Hr. reflexivity.
Qed.

Lemma source_row_skipped y :
  0 <= y -> recomputed step_of y = false ->
  0 < y /\ source_row step_of y = source_row step_of (y - 1).
Proof.
  intros Hy Hr. unfold source_row.
  assert (0 < y) as Hpos.
  { destruct (Z.eq_dec y 0) as [->|]; [discriminate|lia]. }
  split; [exact Hpos|].
  replace (Z.to_nat y) with (S (Z.to_nat (y - 1))) by lia. cbn [source_row_nat].
  replace (Z.of_nat (S (Z.to_nat (y - 1)))) with y by lia. rewrite Hr. reflexivity.
Qed.

(** [source_row y] is the last computed row up to [y]. *)
Lemma source_row_last (n : nat) :
  let s := source_row_nat step_of n in
  0 <= s <= Z.of_nat n /\ recomputed step_of s = true /\
  forall q, s < q <= Z.of_nat n -> recomputed step_of q = false.
Proof.
  induction n as [|n IH]; cbn zeta.
  - cbn. split; [lia|]. split; [reflexivity|]. intros; lia.
  - cbn [source_row_nat]. destruct (recomputed step_of (Z.of_nat (S n))) eqn:E.
    + split; [lia|]. split; [exact E|]. intros; lia.
    + cbn zeta in IH. destruct IH as (Hb & Hr & Hgap).
      split; [lia|]. split; [exact Hr|]. intros q Hq.
      destruct (Z.eq_dec q (Z.of_nat (S n))) as [->|Hne]; [exact E|].
      apply Hgap. lia.
Qed.
End SourceRow.

Section PerformanceFacts.
Context `{Target}.
Variables (map_data : list Z) (ground_w ground_h map_w map_h : Z).
Variables (camera_x camera_y cos_a sin_a sh_focal tan_f : float).
Variables (base_res dynamic_res layered_res state_move state_rot : Z) (tilt : float).
Hypothesis ground_w_pos : 0 < ground_w.

Let step_of := fun y =>
  row_step ground_h y base_res dynamic_res layered_res state_move state_rot tilt.

Lemma performance_block_range off step sl x (s : row_state) :
  0 <= off -> 0 <= x < ground_w -> 1 <= step ->
  stores_range (fst (fst s))
    (fst (fst (performance_block map_data ground_w map_w map_h off step sl x s)))
    (off + x * 4) ((Z.min ground_w (x + step) - x) * 4).
Proof.
  intros Hoff Hx Hstep. destruct s as [[p cx] cy]. unfold performance_block. cbn [fst snd].
  set (end_x := if ground_w <? x + step then ground_w else x + step).
  assert (end_x = Z.min ground_w (x + step)) as Hend
    by (subst end_x; destruct (Z.ltb_spec ground_w (x + step)); lia).
  rewrite <- Hend.
  apply (for_loop_inv
           (fun bx p1 => stores_range p p1 (off + x * 4) ((bx - x) * 4))); [lia| |].
  - replace ((x - x) * 4) with 0 by lia. apply stores_range_refl.
  - intros bx p1 Hbx Hr.
    replace ((bx + 1 - x) * 4) with ((bx - x) * 4 + 4) by lia.
    eapply stores_range_trans; [lia|lia|exact Hr|].
    replace (off + x * 4 + (bx - x) * 4) with (off + bx * 4) by lia.
    apply store_pixel_range. lia.
Qed.

(** The loop over the blocks of a row ends, having stored to the bytes of
    the row from column [x] on. *)
Lemma stride_blocks off step sl (fuel : nat) : forall x (s : row_state),
  0 <= off -> 0 <= x -> 1 <= step -> ground_w - x <= Z.of_nat fuel ->
  exists s',
    stride_nat fuel x ground_w step
      (performance_block map_data ground_w map_w map_h off step sl) s = Some s' /\
    stores_range (fst (fst s)) (fst (fst s')) (off + x * 4) (Z.max 0 (ground_w - x) * 4).
Proof.
  induction fuel as [|fuel IH]; intros x s Hoff Hx Hstep Hfuel.
  - cbn. destruct (Z.ltb_spec x ground_w) as [Hlt|Hge]; [lia|].
    exists s. split; [reflexivity|].
    replace (Z.max 0 (ground_w - x) * 4) with 0 by lia. apply stores_range_refl.
  - cbn [stride_nat]. destruct (Z.ltb_spec x ground_w) as [Hlt|Hge].
    + pose proof (performance_block_range off step sl x s Hoff ltac:(lia) Hstep) as Hb.
      set (s1 := performance_block map_data ground_w map_w map_h off step sl x s) in *.
      destruct (IH (x + step) s1 Hoff ltac:(lia) Hstep ltac:(lia)) as (s' & Hs' & Hr).
      exists s'. split; [exact Hs'|].
      replace (Z.max 0 (ground_w - x) * 4)
        with ((Z.min ground_w (x + step) - x) * 4 + Z.max 0 (ground_w - (x + step)) * 4)
        by lia.
      eapply stores_range_trans; [lia|lia|exact Hb|].
      destruct (Z.le_gt_cases (x + step) ground_w) as [Hle|Hgt].
      * replace (off + x * 4 + (Z.min ground_w (x + step) - x) * 4)
          with (off + (x + step) * 4) by lia. exact Hr.
      * replace (Z.max 0 (ground_w - (x + step)) * 4) with 0 in * by lia.
        eapply stores_range_zero. exact Hr.
    + exists s. split; [reflexivity|].
      replace (Z.max 0 (ground_w - x) * 4) with 0 by lia. apply stores_range_refl.
Qed.

Lemma performance_row_step p0 y (s : pixbuf * Z) :
  0 <= y < ground_h ->
  length (px_bytes p0) = Z.to_nat (ground_w * ground_h * 4) ->
  rows_done ground_w step_of p0 y s ->
  match performance_row map_data ground_w ground_h map_w map_h
          camera_x camera_y cos_a sin_a sh_focal tan_f
          base_res dynamic_res layered_res state_move state_rot tilt y s with
  | inl _ => False
  | inr s' => rows_done ground_w step_of p0 (y + 1) s'
  end.
Proof.
  intros Hy Hlen0. destruct s as [p last]. intros (Hr & Hl0 & Hl1 & Hrows).
  pose proof Hr as (Hlen & _ & _).
  unfold performance_row. fold (step_of y).
  assert (1 <= step_of y) as Hstep by apply row_step_ge_1.
  pose proof (source_row_last step_of (Z.to_nat (y - 1))) as Hsrc. cbn zeta in Hsrc.
  fold (source_row step_of (y - 1)) in Hsrc.
  destruct ((0 <? y) && negb (Z.rem y (step_of y) =? 0) && (0 <=? last)) eqn:Ecopy.
  - (* the row is copied *)
    apply andb_prop in Ecopy as [Ecopy Hlast]. apply andb_prop in Ecopy as [Hpos Hrem].
    apply Z.ltb_lt in Hpos. apply negb_true_iff, Z.eqb_neq in Hrem.
    specialize (Hl1 Hpos). subst last.
    assert (recomputed step_of y = false) as Hskip.
    { unfold recomputed. destruct (Z.leb_spec y 0); [lia|].
      destruct (Z.eqb_spec (Z.rem y (step_of y)) 0); [contradiction|reflexivity]. }
    destruct (source_row_skipped step_of y ltac:(lia) Hskip) as [_ Hsy].
    set (src := source_row step_of (y - 1)) in *.
    assert (0 <= src <= y - 1) as Hsb by lia.
    pose proof (memcpy_range p (y * ground_w * 4) (src * ground_w * 4) (ground_w * 4)
                  ltac:(nia) ltac:(lia)) as Hm.
    split; [|split; [lia|split]].
    + replace ((y + 1) * ground_w * 4) with (y * ground_w * 4 + ground_w * 4) by lia.
      eapply stores_range_trans; [nia|lia|exact Hr|exact Hm].
    + intros _. replace (y + 1 - 1) with y by lia. symmetry. exact Hsy.
    + intros r k Hrk Hk. destruct Hm as (_ & _ & Hf).
      destruct (Z.eq_dec r y) as [->|Hne].
      * rewrite Hsy.
        rewrite (memcpy_lookup p (y * ground_w * 4) (src * ground_w * 4) (ground_w * 4) k)
          by nia.
        symmetry. apply Hf. nia.
      * pose proof (source_row_last step_of (Z.to_nat r)) as Hsr. cbn zeta in Hsr.
        fold (source_row step_of r) in Hsr.
        rewrite !Hf by nia. apply Hrows; lia.
  - (* the row is computed *)
    assert (recomputed step_of y = true) as Hcomp.
    { unfold recomputed. destruct (Z.leb_spec y 0); [reflexivity|]. cbn.
      destruct (Z.eqb_spec (Z.rem y (step_of y)) 0); [reflexivity|].
      specialize (Hl1 ltac:(lia)).
      destruct (Z.ltb_spec 0 y); [|lia]. destruct (Z.leb_spec 0 last); [|lia].
      cbn in Ecopy. discriminate. }
    set (sl := scanline ground_w y camera_x camera_y cos_a sin_a sh_focal tan_f).
    destruct (stride_blocks (y * ground_w * 4) (step_of y) sl (Z.to_nat ground_w) 0
                (p, sl_lX sl, sl_lY sl) ltac:(nia) ltac:(lia) Hstep ltac:(lia))
      as ([[p' cx] cy] & -> & Hb).
    cbn [fst] in Hb.
    replace (y * ground_w * 4 + 0 * 4) with (y * ground_w * 4) in Hb by lia.
    replace (Z.max 0 (ground_w - 0) * 4) with (ground_w * 4) in Hb by lia.
    split; [|split; [lia|split]].
    + replace ((y + 1) * ground_w * 4) with (y * ground_w * 4 + ground_w * 4) by lia.
      eapply stores_range_trans; [nia|lia|exact Hr|exact Hb].
    + intros _. replace (y + 1 - 1) with y by lia.
      symmetry. apply source_row_recomputed; [lia|exact Hcomp].
    + intros r k Hrk Hk. destruct Hb as (_ & _ & Hf).
      destruct (Z.eq_dec r y) as [->|Hne].
      * rewrite (source_row_recomputed step_of y ltac:(lia) Hcomp). reflexivity.
      * pose proof (source_row_last step_of (Z.to_nat r)) as Hsr. cbn zeta in Hsr.
        fold (source_row step_of r) in Hsr.
        rewrite !Hf by nia. apply Hrows; lia.
Qed.
End PerformanceFacts.

Lemma source_row_run (step_of : Z -> Z) r y :
  0 <= r <= y ->
  recomputed step_of r = true ->
  (forall q, r < q <= y -> recomputed step_of q = false) ->
  source_row step_of y = r.
Proof.
  intros Hry Hr Hgap.
  pose proof (source_row_last step_of (Z.to_nat y)) as Hsrc. cbn zeta in Hsrc.
  fold (source_row step_of y) in Hsrc. rewrite Z2Nat.id in Hsrc by lia.
  destruct Hsrc as (Hb & Hrec & Hgap').
  destruct (Z.lt_trichotomy (source_row step_of y) r) as [Hlt|[Heq|Hgt]]; [|exact Heq|].
  - rewrite (Hgap' r) in Hr by lia. discriminate.
  - rewrite (Hgap (source_row step_of y)) in Hrec by lia. discriminate.
Qed.

Lemma recomputed_rem (step_of : Z -> Z) q :
  0 <= q ->
  (recomputed step_of q = true <-> q = 0 \/ Z.rem q (step_of q) = 0) /\
  (recomputed step_of q = false <-> 0 < q /\ Z.rem q (step_of q) <> 0).
Proof.
  intros Hq. unfold recomputed.
  destruct (Z.leb_spec q 0), (Z.eqb_spec (Z.rem q (step_of q)) 0); cbn;
    repeat split; intros; try lia; try congruence; try tauto.
Qed.

(** C7. In performance mode every byte of the destination is stored to
    once, row after row.  A row [y > 0] that is not a multiple of its step
    has a last computed row [r] above it (row 0 or a multiple of its own
    step, no row between [r] and [y] being computed), and after the call the
    [ground_w * 4] bytes of every row of the run that follows a computed row
    [r] are those of [r]. *)
Theorem skipped_rows_copy `{Target}
    (ground_pixels : pixbuf) (map_data : list Z) (ground_w ground_h map_w map_h : Z)
    (camera_x camera_y cos_a sin_a sh_focal tan_f : float)
    (base_res dynamic_res layered_res state_move state_rot : Z) (tilt : float) :
  0 < ground_w -> 0 < ground_h ->
  length (px_bytes ground_pixels) = Z.to_nat (ground_w * ground_h * 4) ->
  let step_of := fun y =>
    row_step ground_h y base_res dynamic_res layered_res state_move state_rot tilt in
  let computed := fun r => r = 0 \/ Z.rem r (step_of r) = 0 in
  let skipped_after := fun r y => forall q, r < q <= y -> Z.rem q (step_of q) <> 0 in
  exists p',
    render_ground_performance ground_pixels map_data ground_w ground_h map_w map_h
      camera_x camera_y cos_a sin_a sh_focal tan_f
      base_res dynamic_res layered_res state_move state_rot tilt = Some p' /\
    px_stores p' = rev (seqZ 0 (ground_w * ground_h * 4)) ++ px_stores ground_pixels /\
    length (px_bytes p') = length (px_bytes ground_pixels) /\
    (forall y, 0 < y < ground_h -> Z.rem y (step_of y) <> 0 ->
       exists r, 0 <= r < y /\ computed r /\ skipped_after r y) /\
    (forall r y, 0 <= r < y -> y < ground_h -> computed r -> skipped_after r y ->
       forall k, 0 <= k < ground_w * 4 ->
         px_bytes p' !! Z.to_nat (y * ground_w * 4 + k) =
         px_bytes p' !! Z.to_nat (r * ground_w * 4 + k)).
Proof.
  intros Hw Hh Hlen step_of computed skipped_after. unfold render_ground_performance.
  pose proof (for_range_inv (rows_done ground_w step_of ground_pixels)
                (fun _ : unit => False) 0 ground_h
                (performance_row map_data ground_w ground_h map_w map_h
                   camera_x camera_y cos_a sin_a sh_focal tan_f
                   base_res dynamic_res layered_res state_move state_rot tilt)
                (ground_pixels, -1) ltac:(lia)) as Hinv.
  assert (rows_done ground_w step_of ground_pixels 0 (ground_pixels, -1)) as H0.
  { cbn. split; [apply stores_range_refl|]. split; [reflexivity|].
    split; intros; lia. }
  specialize (Hinv H0
    (fun y s Hy => performance_row_step map_data ground_w ground_h map_w map_h
                     camera_x camera_y cos_a sin_a sh_focal tan_f
                     base_res dynamic_res layered_res state_move state_rot tilt
                     Hw ground_pixels y s Hy Hlen)).
  destruct (for_range 0 ground_h _ (ground_pixels, -1)) as [u|[p' last]];
    [contradiction|].
  destruct Hinv as ((Hl & Hs & _) & _ & _ & Hrows).
  exists p'. split; [reflexivity|]. split; [|split; [exact Hl|split]].
  - rewrite Hs. do 3 f_equal. lia.
  - intros y Hy Hrem.
    pose proof (source_row_last step_of (Z.to_nat y)) as Hsrc. cbn zeta in Hsrc.
    fold (source_row step_of y) in Hsrc. rewrite Z2Nat.id in Hsrc by lia.
    destruct Hsrc as (Hb & Hrec & Hgap).
    exists (source_row step_of y).
    destruct (recomputed_rem step_of (source_row step_of y) ltac:(lia)) as [[Hc1 _] _].
    specialize (Hc1 Hrec).
    assert (source_row step_of y <> y) as Hne.
    { intros Heq. rewrite Heq in Hc1. lia. }
    split; [lia|]. split; [exact Hc1|].
    intros q Hq. destruct (recomputed_rem step_of q ltac:(lia)) as [_ [Hs1 _]].
    apply Hs1. apply Hgap. exact Hq.
  - intros r y Hr Hy Hcomp Hskip k Hk.
    assert (source_row step_of y = r) as Hsrc.
    { apply source_row_run; [lia| |].
      - destruct (recomputed_rem step_of r ltac:(lia)) as [[_ Hc2] _]. apply Hc2. exact Hcomp.
      - intros q Hq. destruct (recomputed_rem step_of q ltac:(lia)) as [_ [_ Hs2]].
        apply Hs2. split; [lia|]. apply Hskip. exact Hq. }
    rewrite <- Hsrc. apply Hrows; lia.
Qed.

Section PerformanceExamples.
#[local] Existing Instance example_target.

(** Four rows of two pixels, both flags set, the view at rest: no row is in
    the far band, the step is 2 in each, and rows 1 and 3 are copies of rows
    0 and 2. *)
Example performance_four_rows :
  px_bytes <$> render_ground_performance (blank 32) checker_map 2 4 2 2
                 F32.zero F32.zero f_1_0 F32.zero (F32.of_int 4) f_1_0 1 1 1 0 0 F32.zero =
  Some [10; 20; 30; 255;  10; 20; 30; 255;  10; 20; 30; 255;  10; 20; 30; 255;
        130; 140; 150; 255;  130; 140; 150; 255;  130; 140; 150; 255;  130; 140; 150; 255].
Proof. vm_compute. reflexivity. Qed.

Lemma skipped_rows_copy_witness :
  let step_of := fun y => row_step 4 y 1 1 1 0 0 F32.zero in
  let computed := fun r => r = 0 \/ Z.rem r (step_of r) = 0 in
  let skipped_after := fun r y => forall q, r < q <= y -> Z.rem q (step_of q) <> 0 in
  exists p',
    render_ground_performance (blank 32) checker_map 2 4 2 2
      F32.zero F32.zero f_1_0 F32.zero (F32.of_int 4) f_1_0 1 1 1 0 0 F32.zero
      = Some p' /\
    px_stores p' = rev (seqZ 0 (2 * 4 * 4)) ++ px_stores (blank 32) /\
    length (px_bytes p') = length (px_bytes (blank 32)) /\
    (forall y, 0 < y < 4 -> Z.rem y (step_of y) <> 0 ->
       exists r, 0 <= r < y /\ computed r /\ skipped_after r y) /\
    (forall r y, 0 <= r < y -> y < 4 -> computed r -> skipped_after r y ->
       forall k, 0 <= k < 2 * 4 ->
         px_bytes p' !! Z.to_nat (y * 2 * 4 + k) =
         px_bytes p' !! Z.to_nat (r * 2 * 4 + k)).
Proof.
  apply (skipped_rows_copy (blank 32) checker_map 2 4 2 2
           F32.zero F32.zero f_1_0 F32.zero (F32.of_int 4) f_1_0 1 1 1 0 0 F32.zero);
    try lia.
  reflexivity.
Defined.
End PerformanceExamples.

(* ================================================================= *)
(** * Further properties of the registry *)

Section RegistryMore.
Context `{Target}.

Lemma add_obstacles_batch_fold data count st :
  add_obstacles_batch data count st = join (fold_exit (add_one data) (seqZ 0 count) (st, 0)).
Proof. unfold add_obstacles_batch. rewrite for_range_fold, Z.sub_0_r. reflexivity. Qed.

Lemma add_one_full data i st a :
  MAX_OBSTACLES <= obstacle_count st -> add_one data i (st, a) = inl (st, a).
Proof.
  intros Hfull. unfold add_one.
  destruct (Z.ltb_spec (obstacle_count st) MAX_OBSTACLES); [lia|reflexivity].
Qed.

Lemma fold_add_one_exit data l s s' :
  fold_exit (add_one data) l s = inl s' -> MAX_OBSTACLES <= obstacle_count (fst s').
Proof.
  revert s. induction l as [|i l IH]; intros [st a]; simpl; [discriminate|].
  destruct (Z.ltb_spec (obstacle_count st) MAX_OBSTACLES) as [Hlt|Hge].
  - apply IH.
  - intros [= <-]. exact Hge.
Qed.

Lemma fold_add_one_full data l st a :
  MAX_OBSTACLES <= obstacle_count st ->
  join (fold_exit (add_one data) l (st, a)) = (st, a).
Proof.
  intros Hfull. destruct l as [|i l]; [reflexivity|].
  cbn [fold_exit]. rewrite add_one_full by exact Hfull. reflexivity.
Qed.

Lemma fold_add_one_shift data c l st a d :
  fold_exit (add_one data) (map (Z.add c) l) (st, a + d) =
  more_added d (fold_exit (add_one (shift_data data c)) l (st, a)).
Proof.
  revert st a. induction l as [|i l IH]; intros st a; [reflexivity|].
  cbn [map fold_exit]. unfold add_one at 1 3.
  destruct (obstacle_count st <? MAX_OBSTACLES); [|reflexivity].
  replace (a + d + 1) with (a + 1 + d) by lia.
  cbv beta delta [shift_data].
  replace ((c + i) * 6) with (c * 6 + i * 6) by lia.
  rewrite !Z.add_assoc. apply IH.
Qed.
End RegistryMore.

Section RegistryMoreTheorems.
Context `{Target}.

(** X1. In every state the host can reach through the exported functions,
    the count [get_obstacle_count] reports lies between 0 and
    [MAX_OBSTACLES], and every index below it is a cell of the array
    [obstacles]: the loops over the registered obstacles stay inside it. *)
Theorem count_within_capacity st :
  Reachable st ->
  0 <= get_obstacle_count st <= MAX_OBSTACLES /\
  forall i, 0 <= i < get_obstacle_count st -> is_Some (obstacles st !! Z.to_nat i).
Proof.
  intros Hr. destruct (reachable_wf st Hr) as (Hlen & _ & Hc).
  unfold get_obstacle_count. split; [exact Hc|].
  intros i Hi. apply lookup_lt_is_Some. rewrite Hlen. lia.
Qed.

(** X2. [init_obstacles] empties the registry whatever it held: the count
    is 0, every cell of [obstacles] is zero, the records of the last scan
    stay, a second reset changes nothing more, and until obstacles are added
    again [check_collision] reports no collision and
    [process_visible_obstacles] returns 0 without touching its output
    buffer, for all arguments. *)
Theorem reset_clears st :
  let st0 := init_obstacles st in
  get_obstacle_count st0 = 0 /\
  (forall o, o ∈ obstacles st0 -> o = zero_obstacle) /\
  length (obstacles st0) = length (obstacles st) /\
  processed st0 = processed st /\
  init_obstacles st0 = st0 /\
  (forall player_x player_y player_radius player_height new_x new_y map_width map_height,
     check_collision player_x player_y player_radius player_height new_x new_y
       map_width map_height st0 = 0) /\
  (forall camera_x camera_y camera_z camera_angle player_x player_y player_height
          fov max_render_distance map_width map_height output_buffer,
     process_visible_obstacles camera_x camera_y camera_z camera_angle player_x player_y
       player_height fov max_render_distance map_width map_height output_buffer st0 =
     (st0, output_buffer, 0)).
Proof.
  intros st0. subst st0. unfold init_obstacles, get_obstacle_count.
  cbn [obstacles processed obstacle_count].
  split; [reflexivity|]. split.
  { intros o Ho. apply elem_of_replicate in Ho. tauto. }
  split; [apply length_replicate|]. split; [reflexivity|]. split.
  { rewrite length_replicate. reflexivity. }
  split.
  - intros. unfold check_collision. cbn [obstacle_count].
    rewrite for_range_nil by lia. reflexivity.
  - intros. unfold process_visible_obstacles. cbn [obstacle_count].
    destruct output_buffer; reflexivity.
Qed.

(** X3. [add_obstacles_batch] with a count that is zero or negative, or on a
    registry that is full, stores nothing: it returns 0 and leaves the
    statics as they are, whatever the input buffer holds. *)
Theorem add_nothing data count st :
  count <= 0 \/ MAX_OBSTACLES <= obstacle_count st ->
  add_obstacles_batch data count st = (st, 0).
Proof.
  intros [Hc|Hfull].
  - unfold add_obstacles_batch. rewrite for_range_nil by lia. reflexivity.
  - rewrite add_obstacles_batch_fold. apply fold_add_one_full. exact Hfull.
Qed.

(** X4. Two batches in a row are one batch: adding [c1] records and then
    [c2] records read from the [c1]-th tuple on leaves the statics that one
    call with [c1 + c2] records leaves, and the two returned numbers add up
    to its result, also when the registry fills up on the way. *)
Theorem add_batches_compose data c1 c2 st :
  0 <= c1 -> 0 <= c2 ->
  let r1 := add_obstacles_batch data c1 st in
  let r2 := add_obstacles_batch (shift_data data c1) c2 (fst r1) in
  let r := add_obstacles_batch data (c1 + c2) st in
  fst r2 = fst r /\ snd r1 + snd r2 = snd r.
Proof.
  intros H1 H2 r1 r2 r. subst r1 r2 r.
  rewrite !add_obstacles_batch_fold.
  rewrite (seqZ_app 0 c1 c2 H1 H2), fold_exit_app.
  destruct (fold_exit (add_one data) (seqZ 0 c1) (st, 0)) as [[st1 a1]|[st1 a1]] eqn:E1;
    cbn [join fst snd].
  - apply fold_add_one_exit in E1. cbn [fst] in E1.
    rewrite fold_add_one_full by exact E1. cbn [fst snd]. split; [reflexivity|lia].
  - replace (seqZ (0 + c1) c2) with (map (Z.add c1) (seqZ 0 c2)).
    2:{ change (map (Z.add c1) (seqZ 0 c2)) with (Z.add c1 <$> seqZ 0 c2).
        rewrite fmap_add_seqZ. f_equal. lia. }
    replace (st1, a1) with (st1, 0 + a1) by (f_equal; lia).
    rewrite fold_add_one_shift.
    destruct (fold_exit (add_one (shift_data data c1)) (seqZ 0 c2) (st1, 0)) as [[s a]|[s a]];
      cbn [more_added join fst snd]; split; try reflexivity; lia.
Qed.
End RegistryMoreTheorems.

Section RegistryMoreExamples.
#[local] Existing Instance example_target.

(** The registry after one batch of one record is reachable. *)
Lemma count_within_capacity_witness :
  0 <= get_obstacle_count one_obstacle <= MAX_OBSTACLES /\
  forall i, 0 <= i < get_obstacle_count one_obstacle ->
    is_Some (obstacles one_obstacle !! Z.to_nat i).
Proof.
  apply (count_within_capacity one_obstacle).
  exact (Reachable_exec (Call_add_obstacles_batch (tuples [(10, 10, 2, 1, 1, 0)]) 1)
           initial_state Reachable_initial).
Defined.

(** A batch announced with a negative count. *)
Lemma add_nothing_witness :
  add_obstacles_batch (tuples [(10, 10, 2, 1, 1, 0)]) (-1) one_obstacle = (one_obstacle, 0).
Proof. apply (add_nothing (tuples [(10, 10, 2, 1, 1, 0)]) (-1) one_obstacle). left. lia. Defined.

(** Three records added as one and two, and as three at once. *)
Lemma add_batches_compose_witness :
  let data := tuples [(10, 10, 2, 1, 1, 0); (20, 20, 2, 1, 2, 0); (30, 30, 2, 1, 3, 0)] in
  let r1 := add_obstacles_batch data 1 initial_state in
  let r2 := add_obstacles_batch (shift_data data 1) 2 (fst r1) in
  let r := add_obstacles_batch data (1 + 2) initial_state in
  fst r2 = fst r /\ snd r1 + snd r2 = snd r.
Proof.
  intros data.
  apply (add_batches_compose data 1 2 initial_state); lia.
Defined.
End RegistryMoreExamples.

(* ================================================================= *)
(** * Further properties of the collision test *)

(** The sum of two squares has no sign. *)
Lemma binary_round_aux_unsigned prec emax m e l :
  unsigned_or_nan (binary_round_aux prec emax false m e l).
Proof.
  unfold binary_round_aux.
  destruct (shr_fexp prec emax m e l) as [mrs' e'].
  destruct (shr_fexp prec emax _ e' loc_Exact) as [mrs'' e''].
  destruct (shr_m mrs''); [exact I| |exact I].
  destruct (e'' <=? emax - prec); exact I.
Qed.

Lemma mul_self_unsigned (x : float) : unsigned_or_nan (x * x)%f32.
Proof.
  destruct x as [s|s| |s m e]; cbn [F32.mul SFmul]; rewrite ?xorb_nilpotent; try exact I.
  apply binary_round_aux_unsigned.
Qed.

Lemma add_unsigned (x y : float) :
  unsigned_or_nan x -> unsigned_or_nan y -> unsigned_or_nan (x + y)%f32.
Proof.
  destruct x as [[]|[]| |[] mx ex]; try contradiction;
    destruct y as [[]|[]| |[] my ey]; try contradiction; intros _ _; try exact I.
  unfold F32.add, SFadd, cond_Zopp.
  destruct (shl_align mx ex (Z.min ex ey)) as [ax ?].
  destruct (shl_align my ey (Z.min ex ey)) as [ay ?].
  cbn [fst]. change (Z.pos ax + Z.pos ay) with (Z.pos (ax + ay)).
  cbn [binary_normalize]. unfold binary_round.
  match goal with |- context [shl_align ?a ?b ?c] => destruct (shl_align a b c) as [mz ez] end.
  apply binary_round_aux_unsigned.
Qed.

Lemma sum_of_squares_unsigned (dx dy : float) : unsigned_or_nan (dx * dx + dy * dy)%f32.
Proof. apply add_unsigned; apply mul_self_unsigned. Qed.

(** What is above a sum of squares is above zero. *)
Lemma above_unsigned (d c : float) :
  unsigned_or_nan d -> (d <? c)%f32 = true -> (F32.zero <? c)%f32 = true.
Proof.
  destruct d as [[]|[]| |[] m e]; try contradiction; intros _;
    destruct c as [[]|[]| |[] m' e']; cbn; intros Hlt; try discriminate; reflexivity.
Qed.

Section CollisionMore.
Variables player_x player_y player_radius player_height new_x new_y map_width map_height : float.

(** X5. [check_collision] returns 1 when the test of the loop body succeeds
    for one of the registered obstacles and 0 otherwise; it never returns
    another value, and the result does not depend on [player_x] and
    [player_y], which the function does not read. *)
Theorem check_collision_exists st :
  let result := check_collision player_x player_y player_radius player_height
                  new_x new_y map_width map_height st in
  (result = 1 <->
   exists j, 0 <= j < obstacle_count st /\
     collides (obstacles st !!! Z.to_nat j) player_radius player_height
       new_x new_y map_width map_height = true) /\
  (result = 0 <->
   forall j, 0 <= j < obstacle_count st ->
     collides (obstacles st !!! Z.to_nat j) player_radius player_height
       new_x new_y map_width map_height = false) /\
  (result = 0 \/ result = 1) /\
  (forall other_x other_y,
     check_collision other_x other_y player_radius player_height
       new_x new_y map_width map_height st = result).
Proof.
  intros result. subst result.
  destruct (check_collision_spec player_radius player_height new_x new_y map_width
              map_height player_x player_y st) as [(Hr & j & Hj & Hhit)|(Hr & Hall)];
    rewrite Hr.
  - split; [split; [intros _; exists j; auto|reflexivity]|].
    split; [split; [discriminate|]|].
    { intros Hno. rewrite (Hno j Hj) in Hhit. discriminate. }
    split; [right; reflexivity|].
    intros ox oy. unfold check_collision in *. exact Hr.
  - split; [split; [discriminate|]|].
    { intros (j & Hj & Hhit). rewrite (Hall j Hj) in Hhit. discriminate. }
    split; [split; [intros _; exact Hall|reflexivity]|].
    split; [left; reflexivity|].
    intros ox oy. unfold check_collision in *. exact Hr.
Qed.

(** X6. Adding obstacles never removes a collision: where [check_collision]
    reports one, it still reports it after any [add_obstacles_batch]. *)
Theorem collision_survives_append `{Target} data count st :
  State_wf st ->
  check_collision player_x player_y player_radius player_height
    new_x new_y map_width map_height st = 1 ->
  check_collision player_x player_y player_radius player_height
    new_x new_y map_width map_height (fst (add_obstacles_batch data count st)) = 1.
Proof.
  intros Hwf Hone.
  destruct (Z.le_gt_cases 0 count) as [Hle|Hgt].
  2:{ unfold add_obstacles_batch. rewrite for_range_nil by lia. exact Hone. }
  destruct (add_obstacles_batch_rounds data count st Hwf Hle) as (i & Hi & Ha & _).
  destruct (add_obstacles_batch data count st) as [st' a]. cbn [fst].
  destruct Ha as (_ & Hc & _ & _ & _ & _ & Hold).
  destruct (check_collision_spec player_radius player_height new_x new_y map_width
              map_height player_x player_y st) as [(_ & j & Hj & Hhit)|(Hr & _)];
    [|rewrite Hr in Hone; discriminate].
  destruct (check_collision_spec player_radius player_height new_x new_y map_width
              map_height player_x player_y st') as [(Hr & _)|(_ & Hall)]; [exact Hr|].
  specialize (Hall j ltac:(lia)).
  rewrite list_lookup_total_alt, (Hold (Z.to_nat j)), <- list_lookup_total_alt in Hall by lia.
  rewrite Hall in Hhit. discriminate.
Qed.

(** X7. The test of [check_collision] succeeds for an obstacle only if the
    player's height is not at or above the obstacle's and the square of the
    combined radius is above zero: an obstacle and a player whose radii add
    up to zero never collide, even at the same place. *)
Theorem no_collision_without_radius (obs : Obstacle) :
  collides obs player_radius player_height new_x new_y map_width map_height = true ->
  (player_height >=? obs_height obs)%f32 = false /\
  (F32.zero <? (obs_radius obs + player_radius) * (obs_radius obs + player_radius))%f32 = true.
Proof.
  unfold collides.
  destruct (player_height >=? obs_height obs)%f32 eqn:Hge; [discriminate|].
  intros Hlt. split; [reflexivity|].
  eapply above_unsigned; [|exact Hlt]. apply sum_of_squares_unsigned.
Qed.
End CollisionMore.

Section CollisionMoreExamples.
#[local] Existing Instance example_target.

(** A player of radius 1 on the obstacle of [one_obstacle], before and
    after a second obstacle is added. *)
Lemma collision_survives_append_witness :
  check_collision F32.zero F32.zero f_1_0 F32.zero (F32.of_int 10) (F32.of_int 10)
    (F32.of_int 100) (F32.of_int 100)
    (fst (add_obstacles_batch (tuples [(50, 50, 2, 1, 2, 0)]) 1 one_obstacle)) = 1.
Proof.
  apply (collision_survives_append F32.zero F32.zero f_1_0 F32.zero (F32.of_int 10)
           (F32.of_int 10) (F32.of_int 100) (F32.of_int 100)
           (tuples [(50, 50, 2, 1, 2, 0)]) 1 one_obstacle).
  - apply add_obstacles_batch_wf; [apply initial_state_wf|lia].
  - vm_compute. reflexivity.
Defined.

(** The obstacle of radius 2 and height 1 at (10, 10), and a player of
    radius 1 and height 0 on it. *)
Lemma no_collision_without_radius_witness :
  let obs := {| obs_x := F32.of_int 10; obs_y := F32.of_int 10; obs_radius := f_2_0;
                obs_height := f_1_0; obs_id := 1; obs_type := 0 |} in
  (F32.zero >=? obs_height obs)%f32 = false /\
  (F32.zero <? (obs_radius obs + f_1_0) * (obs_radius obs + f_1_0))%f32 = true.
Proof.
  intros obs.
  apply (no_collision_without_radius f_1_0 F32.zero (F32.of_int 10) (F32.of_int 10)
           (F32.of_int 100) (F32.of_int 100) obs).
  vm_compute. reflexivity.
Defined.
End CollisionMoreExamples.

(* ================================================================= *)
(** * Further properties of the visibility processor *)

Section OutputFacts.
Context `{Target}.

(** The copy loop stores to the first [6 * n] cells only. *)
Lemma write_frame st n out :
  0 <= n ->
  forall j, j < 0 \/ n * 6 <= j -> for_loop 0 n (write_record st) out j = out j.
Proof.
  intros Hn.
  apply (for_loop_inv (fun i out' => forall j, j < 0 \/ i * 6 <= j -> out' j = out j)
           0 n (write_record st) out Hn).
  - reflexivity.
  - intros i o Hi IHj j Hj. unfold write_record, fstore.
    repeat match goal with
           | |- context [?a =? ?b] => destruct (Z.eqb_spec a b); try lia
           end.
    apply IHj. lia.
Qed.

(** The main path of [process_visible_obstacles] seen from the host: the
    buffer it gets back, cell by cell. *)
Lemma process_visible_obstacles_cells
    camera_x camera_y camera_z camera_angle player_x player_y player_height
    fov max_render_distance map_width map_height out st :
  State_wf st -> obstacle_count st <> 0 ->
  let v := make_view camera_x camera_y camera_angle player_x player_y player_height
             fov max_render_distance map_width map_height in
  let r := process_visible_obstacles camera_x camera_y camera_z camera_angle
             player_x player_y player_height fov max_render_distance
             map_width map_height (Some out) st in
  0 <= snd r <= MAX_PROCESSED /\
  length (returned r) = Z.to_nat (snd r) /\
  returned r = bubble farther (Z.to_nat (snd r - 1)) (collected v st) /\
  exists out', snd (fst r) = Some out' /\
    (forall k, 0 <= k < snd r ->
       let p := returned r !!! Z.to_nat k in
       out' (k * 6) = F32.of_int (po_obstacle_id p) /\
       out' (k * 6 + 1) = po_dx p /\
       out' (k * 6 + 2) = po_dy p /\
       out' (k * 6 + 3) = po_dist_sq p /\
       out' (k * 6 + 4) = F32.of_int (po_is_between p) /\
       out' (k * 6 + 5) = F32.of_int (po_type p)) /\
    (forall j, j < 0 \/ snd r * 6 <= j -> out' j = out j).
Proof.
  intros Hwf Hcount v r.
  destruct (process_visible_obstacles_returned camera_x camera_y camera_z camera_angle
              player_x player_y player_height fov max_render_distance map_width
              map_height out st Hwf Hcount) as (Hn & Hret & _).
  fold v r in Hn, Hret.
  assert (length (returned r) = Z.to_nat (snd r)) as Hlen.
  { rewrite Hret, (Permutation_length (bubble_perm farther _ _)). lia. }
  assert (0 <= snd r <= MAX_PROCESSED) as Hb.
  { split; [lia|]. rewrite Hn. unfold collected. rewrite length_take. unfold MAX_PROCESSED. lia. }
  split; [exact Hb|]. split; [exact Hlen|]. split; [exact Hret|].
  clear Hn Hret. revert Hb Hlen. subst r. unfold process_visible_obstacles, returned.
  destruct (Z.eqb_spec (obstacle_count st) 0) as [|_]; [contradiction|].
  fold v. destruct (scan v st) as [st1 n]. cbn [fst snd].
  intros Hb Hlen. eexists. split; [reflexivity|]. split.
  - intros k Hk. cbn zeta.
    rewrite lookup_total_take_lt by lia.
    pose proof (write_records (sort_processed n st1) n out (proj1 Hb) k Hk) as Hw.
    cbn zeta in Hw. exact Hw.
  - apply write_frame. lia.
Qed.
End OutputFacts.

Section VisibilityMore.
Context `{Target}.
Variables camera_x camera_y camera_z camera_angle player_x player_y player_height
          fov max_render_distance map_width map_height : float.


Lemma no_registry_no_records out st :
  obstacle_count st = 0 ->
  process_visible_obstacles camera_x camera_y camera_z camera_angle
             player_x player_y player_height fov max_render_distance
             map_width map_height (Some out) st = (st, Some out, 0).
Proof. intros Hz. unfold process_visible_obstacles. rewrite Hz. reflexivity. Qed.

(** X8. What the host finds in the output buffer: with [n] the value
    returned, at most [MAX_PROCESSED], the six cells from [6 * k] hold the
    id, [dx], [dy], [dist_sq], the flag and the type of the [k]-th record
    returned for each [k < n], the integers converted to [float]; every
    other cell of the buffer keeps its value.  With a null buffer the
    function returns 0. *)
Theorem output_buffer_contents output_buffer st :
  State_wf st ->
  let r := process_visible_obstacles camera_x camera_y camera_z camera_angle
             player_x player_y player_height fov max_render_distance
             map_width map_height output_buffer st in
  0 <= snd r <= MAX_PROCESSED /\
  match output_buffer with
  | None => snd (fst r) = None /\ snd r = 0
  | Some out =>
      exists out', snd (fst r) = Some out' /\
        (forall k, 0 <= k < snd r ->
           let p := returned r !!! Z.to_nat k in
           out' (k * 6) = F32.of_int (po_obstacle_id p) /\
           out' (k * 6 + 1) = po_dx p /\
           out' (k * 6 + 2) = po_dy p /\
           out' (k * 6 + 3) = po_dist_sq p /\
           out' (k * 6 + 4) = F32.of_int (po_is_between p) /\
           out' (k * 6 + 5) = F32.of_int (po_type p)) /\
        (forall j, j < 0 \/ snd r * 6 <= j -> out' j = out j)
  end.
Proof.
  intros Hwf r. subst r. destruct output_buffer as [out|].
  2:{ cbn. unfold MAX_PROCESSED. split; [lia|split; reflexivity]. }
  destruct (Z.eq_dec (obstacle_count st) 0) as [Hz|Hnz].
  - rewrite (no_registry_no_records out st Hz). cbn [fst snd].
    split; [unfold MAX_PROCESSED; lia|]. exists out. split; [reflexivity|].
    split; [intros k Hk; lia|reflexivity].
  - destruct (process_visible_obstacles_cells camera_x camera_y camera_z camera_angle
                player_x player_y player_height fov max_render_distance map_width
                map_height out st Hwf Hnz) as (Hb & _ & _ & Hout).
    split; [exact Hb|exact Hout].
Qed.

(** X9. The cells of a record in the output buffer agree with each other and
    with the arguments: [dist_sq] is [dx * dx + dy * dy] as the code rounds
    it and lies below the square of [max_render_distance], the displacement
    projected on the heading is above 0.5, and the flag is 0.0 or 1.0. *)
Theorem output_cells_consistent out st :
  State_wf st ->
  let r := process_visible_obstacles camera_x camera_y camera_z camera_angle
             player_x player_y player_height fov max_render_distance
             map_width map_height (Some out) st in
  exists out', snd (fst r) = Some out' /\
    forall k, 0 <= k < snd r ->
      let dx := out' (k * 6 + 1) in
      let dy := out' (k * 6 + 2) in
      out' (k * 6 + 3) = (dx * dx + dy * dy)%f32 /\
      F32.ltb (out' (k * 6 + 3)) (max_render_distance * max_render_distance)%f32 = true /\
      (dx * cosf camera_angle + dy * sinf camera_angle >? f_0_5)%f32 = true /\
      (out' (k * 6 + 4) = F32.of_int 0 \/ out' (k * 6 + 4) = F32.of_int 1).
Proof.
  intros Hwf r. subst r.
  destruct (Z.eq_dec (obstacle_count st) 0) as [Hz|Hnz].
  { rewrite (no_registry_no_records out st Hz). cbn [fst snd].
    exists out. split; [reflexivity|]. intros k Hk. lia. }
  destruct (process_visible_obstacles_cells camera_x camera_y camera_z camera_angle
              player_x player_y player_height fov max_render_distance map_width
              map_height out st Hwf Hnz) as (Hb & Hlen & Hret & out' & Hout & Hcells & _).
  exists out'. split; [exact Hout|]. intros k Hk.
  destruct (Hcells k Hk) as (_ & H1 & H2 & H3 & H4 & _). cbn zeta.
  rewrite H1, H2, H3, H4.
  assert (returned (process_visible_obstacles camera_x camera_y camera_z camera_angle
             player_x player_y player_height fov max_render_distance
             map_width map_height (Some out) st) !!! Z.to_nat k ∈ returned (process_visible_obstacles camera_x camera_y camera_z camera_angle
             player_x player_y player_height fov max_render_distance
             map_width map_height (Some out) st)) as Hin.
  { apply list_elem_of_lookup_total_2. lia. }
  remember (returned (process_visible_obstacles camera_x camera_y camera_z camera_angle
             player_x player_y player_height fov max_render_distance
             map_width map_height (Some out) st) !!! Z.to_nat k) as p eqn:Ep. clear Ep.
  rewrite Hret, bubble_perm in Hin.
  apply collected_visible in Hin as ([[i tx] ty] & _ & Hvis & ->).
  cbn [visible_image record_of_image] in *. unfold visible in Hvis.
  apply andb_prop in Hvis as [Hvis Ht]. apply andb_prop in Hvis as [Hd _].
  cbn [record_of po_dx po_dy po_dist_sq po_is_between].
  split; [reflexivity|]. split; [exact Hd|]. split; [exact Ht|].
  unfold is_between_camera_and_player.
  destruct (_ && _); [right|left]; reflexivity.
Qed.

(** X10. What a call returns depends on the registry only, not on the
    records an earlier call left in [processed]: from two states with the
    same obstacles and count, the same arguments give the same count, the
    same records and the same output buffer; and [camera_z] has no
    influence on them. *)
Theorem result_ignores_stale_records other_z output_buffer st1 st2 :
  State_wf st1 -> State_wf st2 -> registry st1 = registry st2 ->
  let r1 := process_visible_obstacles camera_x camera_y camera_z camera_angle
             player_x player_y player_height fov max_render_distance
             map_width map_height output_buffer st1 in
  let r2 := process_visible_obstacles camera_x camera_y other_z camera_angle
              player_x player_y player_height fov max_render_distance
              map_width map_height output_buffer st2 in
  snd r1 = snd r2 /\
  returned r1 = returned r2 /\
  match snd (fst r1), snd (fst r2) with
  | Some out1, Some out2 => forall j, out1 j = out2 j
  | None, None => True
  | _, _ => False
  end.
Proof.
  intros Hwf1 Hwf2 Hreg r1 r2. subst r1 r2.
  unfold registry in Hreg. injection Hreg as Ho Hc.
  destruct output_buffer as [out|]; [|cbn; auto].
  destruct (Z.eq_dec (obstacle_count st1) 0) as [Hz|Hnz].
  { unfold process_visible_obstacles, returned. rewrite <- Hc, Hz. cbn. auto. }
  destruct (process_visible_obstacles_cells camera_x camera_y camera_z camera_angle
              player_x player_y player_height fov max_render_distance map_width
              map_height out st1 Hwf1 Hnz) as (Hb1 & Hl1 & Hr1 & o1 & Ho1 & Hc1 & Hf1).
  destruct (process_visible_obstacles_returned camera_x camera_y camera_z camera_angle
              player_x player_y player_height fov max_render_distance map_width
              map_height out st1 Hwf1 Hnz) as (Hn1 & _).
  assert (obstacle_count st2 <> 0) as Hnz2 by congruence.
  destruct (process_visible_obstacles_cells camera_x camera_y other_z camera_angle
              player_x player_y player_height fov max_render_distance map_width
              map_height out st2 Hwf2 Hnz2) as (Hb2 & Hl2 & Hr2 & o2 & Ho2 & Hc2 & Hf2).
  destruct (process_visible_obstacles_returned camera_x camera_y other_z camera_angle
              player_x player_y player_height fov max_render_distance map_width
              map_height out st2 Hwf2 Hnz2) as (Hn2 & _).
  set (r1 := process_visible_obstacles camera_x camera_y camera_z camera_angle
             player_x player_y player_height fov max_render_distance
             map_width map_height (Some out) st1) in *.
  set (r2 := process_visible_obstacles _ _ other_z _ _ _ _ _ _ _ _ _ _) in *.
  assert (collected (make_view camera_x camera_y camera_angle player_x player_y
                       player_height fov max_render_distance map_width map_height) st1 =
          collected (make_view camera_x camera_y camera_angle player_x player_y
                       player_height fov max_render_distance map_width map_height) st2)
    as Hcol by (unfold collected; rewrite Ho, Hc; reflexivity).
  rewrite Hcol in Hn1, Hr1.
  assert (snd r1 = snd r2) as Hn by congruence.
  assert (returned r1 = returned r2) as Hr by (rewrite Hr1, Hr2, Hn; reflexivity).
  split; [exact Hn|]. split; [exact Hr|].
  rewrite Ho1, Ho2. intros j.
  destruct (Z_lt_le_dec j 0) as [Hneg|Hpos].
  { rewrite Hf1, Hf2 by lia. reflexivity. }
  destruct (Z_lt_le_dec j (snd r1 * 6)) as [Hin|Hout].
  2:{ rewrite Hf1, Hf2 by lia. reflexivity. }
  pose proof (Z.div_mod j 6 ltac:(lia)) as Hdm.
  pose proof (Z.mod_pos_bound j 6 ltac:(lia)) as Hm.
  assert (0 <= j / 6 < snd r1) as Hq.
  { split; [apply Z.div_pos; lia|apply Z.div_lt_upper_bound; lia]. }
  destruct (Hc1 (j / 6) Hq) as (A0 & A1 & A2 & A3 & A4 & A5).
  destruct (Hc2 (j / 6) ltac:(lia)) as (B0 & B1 & B2 & B3 & B4 & B5).
  cbn zeta in *. rewrite Hr in A0, A1, A2, A3, A4, A5.
  assert (j = j / 6 * 6 \/ j = j / 6 * 6 + 1 \/ j = j / 6 * 6 + 2 \/
          j = j / 6 * 6 + 3 \/ j = j / 6 * 6 + 4 \/ j = j / 6 * 6 + 5) as Hj by lia.
  destruct Hj as [Hj | [Hj | [Hj | [Hj | [Hj | Hj]]]]]; rewrite Hj; congruence.
Qed.

End VisibilityMore.

Section VisibilityMoreExamples.
#[local] Existing Instance example_target.

(** The scene of [axis_returned]: four records in the first 24 cells. *)
Lemma output_buffer_contents_witness :
  let z := F32.zero in
  let r := process_visible_obstacles z z z z (F32.of_int 25) z z
             (F32.lit 15 10) (F32.of_int 50) (F32.of_int 100) (F32.of_int 100)
             (Some no_output) axis_obstacles in
  0 <= snd r <= MAX_PROCESSED /\
  exists out', snd (fst r) = Some out' /\
    (forall k, 0 <= k < snd r ->
       let p := returned r !!! Z.to_nat k in
       out' (k * 6) = F32.of_int (po_obstacle_id p) /\
       out' (k * 6 + 1) = po_dx p /\
       out' (k * 6 + 2) = po_dy p /\
       out' (k * 6 + 3) = po_dist_sq p /\
       out' (k * 6 + 4) = F32.of_int (po_is_between p) /\
       out' (k * 6 + 5) = F32.of_int (po_type p)) /\
    (forall j, j < 0 \/ snd r * 6 <= j -> out' j = no_output j).
Proof.
  intros z.
  exact (output_buffer_contents z z z z (F32.of_int 25) z z
           (F32.lit 15 10) (F32.of_int 50) (F32.of_int 100) (F32.of_int 100)
           (Some no_output) axis_obstacles axis_obstacles_wf).
Defined.

Lemma output_cells_consistent_witness :
  let z := F32.zero in
  let r := process_visible_obstacles z z z z (F32.of_int 25) z z
             (F32.lit 15 10) (F32.of_int 50) (F32.of_int 100) (F32.of_int 100)
             (Some no_output) axis_obstacles in
  exists out', snd (fst r) = Some out' /\
    forall k, 0 <= k < snd r ->
      let dx := out' (k * 6 + 1) in
      let dy := out' (k * 6 + 2) in
      out' (k * 6 + 3) = (dx * dx + dy * dy)%f32 /\
      F32.ltb (out' (k * 6 + 3)) (F32.of_int 50 * F32.of_int 50)%f32 = true /\
      (dx * cosf z + dy * sinf z >? f_0_5)%f32 = true /\
      (out' (k * 6 + 4) = F32.of_int 0 \/ out' (k * 6 + 4) = F32.of_int 1).
Proof.
  intros z.
  exact (output_cells_consistent z z z z (F32.of_int 25) z z
           (F32.lit 15 10) (F32.of_int 50) (F32.of_int 100) (F32.of_int 100)
           no_output axis_obstacles axis_obstacles_wf).
Defined.

(** The same call before and after a call that looked the other way and
    left its own records in [processed]. *)
Lemma result_ignores_stale_records_witness :
  let z := F32.zero in
  let st2 := fst (fst (process_visible_obstacles z z z z z z z
                         (F32.lit 15 10) (F32.of_int 15) (F32.of_int 100) (F32.of_int 100)
                         (Some no_output) axis_obstacles)) in
  let r1 := process_visible_obstacles z z z z (F32.of_int 25) z z
              (F32.lit 15 10) (F32.of_int 50) (F32.of_int 100) (F32.of_int 100)
              (Some no_output) axis_obstacles in
  let r2 := process_visible_obstacles z z f_1_0 z (F32.of_int 25) z z
              (F32.lit 15 10) (F32.of_int 50) (F32.of_int 100) (F32.of_int 100)
              (Some no_output) st2 in
  snd r1 = snd r2 /\
  returned r1 = returned r2 /\
  match snd (fst r1), snd (fst r2) with
  | Some out1, Some out2 => forall j, out1 j = out2 j
  | None, None => True
  | _, _ => False
  end.
Proof.
  intros z st2.
  apply (result_ignores_stale_records z z z z (F32.of_int 25) z z
           (F32.lit 15 10) (F32.of_int 50) (F32.of_int 100) (F32.of_int 100)
           f_1_0 (Some no_output) axis_obstacles st2).
  - exact axis_obstacles_wf.
  - apply process_visible_obstacles_wf. exact axis_obstacles_wf.
  - symmetry. apply process_visible_obstacles_registry.
Defined.

End VisibilityMoreExamples.

(* ================================================================= *)
(** * Further properties of the rasterizer *)

Lemma accumulate_shift start d k :
  accumulate (start + d)%f32 d k = accumulate start d (S k).
Proof. induction k as [|k IH]; [reflexivity|]. cbn [accumulate] in *. rewrite IH. reflexivity. Qed.

Lemma store_pixel_lookup p t r g b a c :
  0 <= t -> t + 4 <= Z.of_nat (length (px_bytes p)) -> 0 <= c < 4 ->
  px_bytes (store8 (store8 (store8 (store8 p t r) (t + 1) g) (t + 2) b) (t + 3) a)
    !! Z.to_nat (t + c) =
  Some (if c =? 0 then r else if c =? 1 then g else if c =? 2 then b else a).
Proof.
  intros Ht Hlen Hc. cbn [store8 px_bytes].
  assert (c = 0 \/ c = 1 \/ c = 2 \/ c = 3) as [-> | [-> | [-> | ->]]] by lia; cbn [Z.eqb].
  - rewrite !list_lookup_insert_ne by lia. replace (t + 0) with t by lia.
    apply list_lookup_insert_eq. lia.
  - rewrite !list_lookup_insert_ne by lia.
    apply list_lookup_insert_eq. rewrite length_insert. lia.
  - rewrite !list_lookup_insert_ne by lia.
    apply list_lookup_insert_eq. rewrite !length_insert. lia.
  - apply list_lookup_insert_eq. rewrite !length_insert. lia.
Qed.

Section PerformanceValues.
Context `{Target}.
Variables (map_data : list Z) (ground_w ground_h map_w map_h : Z).
Variables (camera_x camera_y cos_a sin_a sh_focal tan_f : float).
Variables (base_res dynamic_res layered_res state_move state_rot : Z) (tilt : float).
Hypothesis ground_w_pos : 0 < ground_w.
Hypothesis map_w_pos : 0 < map_w.
Hypothesis map_h_pos : 0 < map_h.

Let step_of := fun y =>
  row_step ground_h y base_res dynamic_res layered_res state_move state_rot tilt.
Let sample := fun x y c =>
  performance_sample map_data ground_w map_w map_h camera_x camera_y cos_a sin_a sh_focal tan_f
    (step_of y) x y c.

Lemma texel_mod cur_x cur_y c :
  texel map_data map_w map_h cur_x cur_y c =
  if c =? 3 then 255
  else map_data !!! Z.to_nat ((fptosi cur_y mod map_h * map_w + fptosi cur_x mod map_w) * 4 + c).
Proof.
  unfold texel, map_index.
  rewrite (proj1 (fast_mod_mod (fptosi cur_x) map_w map_w_pos)).
  rewrite (proj1 (fast_mod_mod (fptosi cur_y) map_h map_h_pos)). reflexivity.
Qed.

(** The pixels of a block hold the texel sampled at its first column. *)
Lemma performance_block_values off step sl x (s : row_state) :
  0 <= off -> 0 <= x < ground_w -> 1 <= step ->
  off + ground_w * 4 <= Z.of_nat (length (px_bytes (fst (fst s)))) ->
  let s' := performance_block map_data ground_w map_w map_h off step sl x s in
  snd (fst s') = (snd (fst s) + sl_dx sl * F32.of_int step)%f32 /\
  snd s' = (snd s + sl_dy sl * F32.of_int step)%f32 /\
  forall bx c, x <= bx < Z.min ground_w (x + step) -> 0 <= c < 4 ->
    px_bytes (fst (fst s')) !! Z.to_nat (off + bx * 4 + c) =
    Some (texel map_data map_w map_h (snd (fst s)) (snd s) c).
Proof.
  intros Hoff Hx Hstep Hlen. destruct s as [[p cx] cy]. cbn [fst snd] in *.
  unfold performance_block. cbn [fst snd]. split; [reflexivity|]. split; [reflexivity|].
  set (end_x := if ground_w <? x + step then ground_w else x + step).
  assert (end_x = Z.min ground_w (x + step)) as Hend
    by (subst end_x; destruct (Z.ltb_spec ground_w (x + step)); lia).
  rewrite <- Hend.
  apply (for_loop_inv
           (fun i p1 =>
              length (px_bytes p1) = length (px_bytes p) /\
              forall bx c, x <= bx < i -> 0 <= c < 4 ->
                px_bytes p1 !! Z.to_nat (off + bx * 4 + c) =
                Some (texel map_data map_w map_h cx cy c))); [lia| |].
  - split; [reflexivity|]. intros; lia.
  - intros i p1 Hi (Hl & Hprev). split.
    + cbn [store8 px_bytes]. rewrite !length_insert. exact Hl.
    + intros bx c Hbx Hc. destruct (Z.eq_dec bx i) as [->|Hne].
      * rewrite store_pixel_lookup by lia. unfold texel.
        assert (c = 0 \/ c = 1 \/ c = 2 \/ c = 3) as [-> | [-> | [-> | ->]]] by lia;
          cbn [Z.eqb]; rewrite ?Z.add_0_r; reflexivity.
      * pose proof (store_pixel_range p1 (off + i * 4)
                      (map_data !!! Z.to_nat (map_index map_w map_h cx cy))
                      (map_data !!! Z.to_nat (map_index map_w map_h cx cy + 1))
                      (map_data !!! Z.to_nat (map_index map_w map_h cx cy + 2))
                      255 ltac:(lia)) as (_ & _ & Hf).
        rewrite Hf by lia. apply Hprev; lia.
Qed.

(** The loop over the blocks from column [x] on: each pixel of the rest of
    the row holds the texel of its block. *)
Lemma stride_values off step sl (fuel : nat) : forall x (s : row_state),
  0 <= off -> 0 <= x -> 1 <= step -> ground_w - x <= Z.of_nat fuel ->
  off + ground_w * 4 <= Z.of_nat (length (px_bytes (fst (fst s)))) ->
  exists s',
    stride_nat fuel x ground_w step
      (performance_block map_data ground_w map_w map_h off step sl) s = Some s' /\
    stores_range (fst (fst s)) (fst (fst s')) (off + x * 4) (Z.max 0 (ground_w - x) * 4) /\
    forall x' c, x <= x' < ground_w -> 0 <= c < 4 ->
      px_bytes (fst (fst s')) !! Z.to_nat (off + x' * 4 + c) =
      Some (texel map_data map_w map_h
              (accumulate (snd (fst s)) (sl_dx sl * F32.of_int step)%f32
                 (Z.to_nat ((x' - x) / step)))
              (accumulate (snd s) (sl_dy sl * F32.of_int step)%f32
                 (Z.to_nat ((x' - x) / step))) c).
Proof.
  induction fuel as [|fuel IH]; intros x s Hoff Hx Hstep Hfuel Hlen.
  - destruct (stride_blocks map_data ground_w map_w map_h ground_w_pos off step sl 0 x s
                Hoff Hx Hstep Hfuel) as (s' & Hs' & Hr).
    exists s'. split; [exact Hs'|]. split; [exact Hr|]. intros x' c Hx'. lia.
  - destruct (stride_blocks map_data ground_w map_w map_h ground_w_pos off step sl (S fuel) x s
                Hoff Hx Hstep Hfuel) as (s' & Hs' & Hr).
    exists s'. split; [exact Hs'|]. split; [exact Hr|].
    cbn [stride_nat] in Hs'. destruct (Z.ltb_spec x ground_w) as [Hlt|Hge]; [|intros; lia].
    destruct (performance_block_values off step sl x s Hoff ltac:(lia) Hstep Hlen)
      as (Hcx & Hcy & Hblock).
    pose proof (performance_block_range map_data ground_w map_w map_h off step sl x s
                  Hoff ltac:(lia) Hstep) as (Hl1 & _ & _).
    set (s1 := performance_block map_data ground_w map_w map_h off step sl x s) in *.
    destruct (IH (x + step) s1 Hoff ltac:(lia) Hstep ltac:(lia) ltac:(lia))
      as (s2 & Hs2 & (_ & _ & Hf2) & Hrest).
    rewrite Hs2 in Hs'. injection Hs' as <-.
    intros x' c Hx' Hc. destruct (Z_lt_le_dec x' (x + step)) as [Hin|Hout].
    + rewrite Hf2 by lia.
      replace ((x' - x) / step) with 0 by (symmetry; apply Z.div_small; lia).
      cbn [Z.to_nat accumulate]. apply Hblock; lia.
    + rewrite (Hrest x' c ltac:(lia) Hc). rewrite Hcx, Hcy, !accumulate_shift.
      replace (S (Z.to_nat ((x' - (x + step)) / step))) with (Z.to_nat ((x' - x) / step));
        [reflexivity|].
      replace (x' - x) with (x' - (x + step) + 1 * step) by lia.
      rewrite Z.div_add by lia.
      assert (0 <= (x' - (x + step)) / step) by (apply Z.div_pos; lia). lia.
Qed.

Lemma performance_row_values p0 y (s : pixbuf * Z) :
  0 <= y < ground_h ->
  length (px_bytes p0) = Z.to_nat (ground_w * ground_h * 4) ->
  rows_done ground_w step_of p0 y s ->
  rows_sampled ground_w step_of sample y s ->
  match performance_row map_data ground_w ground_h map_w map_h
          camera_x camera_y cos_a sin_a sh_focal tan_f
          base_res dynamic_res layered_res state_move state_rot tilt y s with
  | inl _ => False
  | inr s' => rows_sampled ground_w step_of sample (y + 1) s'
  end.
Proof.
  intros Hy Hlen0. destruct s as [p last]. intros (Hr & Hl0 & Hl1 & Hrows) Hvals.
  pose proof Hr as (Hlen & _ & _).
  unfold rows_sampled in *. cbn [fst] in Hvals.
  unfold performance_row. fold (step_of y).
  assert (1 <= step_of y) as Hstep by apply row_step_ge_1.
  destruct ((0 <? y) && negb (Z.rem y (step_of y) =? 0) && (0 <=? last)) eqn:Ecopy.
  - apply andb_prop in Ecopy as [Ecopy Hlast]. apply andb_prop in Ecopy as [Hpos Hrem].
    apply Z.ltb_lt in Hpos. apply negb_true_iff, Z.eqb_neq in Hrem.
    assert (recomputed step_of y = false) as Hskip.
    { unfold recomputed. destruct (Z.leb_spec y 0); [lia|].
      destruct (Z.eqb_spec (Z.rem y (step_of y)) 0); [contradiction|reflexivity]. }
    cbn [fst]. intros r x c Hry Hrec Hx Hc.
    destruct (Z.eq_dec r y) as [->|Hne]; [congruence|].
    pose proof (memcpy_range p (y * ground_w * 4) (last * ground_w * 4) (ground_w * 4)
                  ltac:(nia) ltac:(lia)) as (_ & _ & Hf).
    rewrite Hf by nia. apply Hvals; auto; lia.
  - set (sl := scanline ground_w y camera_x camera_y cos_a sin_a sh_focal tan_f).
    destruct (stride_values (y * ground_w * 4) (step_of y) sl (Z.to_nat ground_w) 0
                (p, sl_lX sl, sl_lY sl) ltac:(nia) ltac:(lia) Hstep ltac:(lia)
                ltac:(cbn [fst]; nia))
      as ([[p' cx] cy] & -> & (_ & _ & Hf) & Hnew).
    cbn [fst snd] in *. intros r x c Hry Hrec Hx Hc.
    destruct (Z.eq_dec r y) as [->|Hne].
    + rewrite (Hnew x c ltac:(lia) Hc), Z.sub_0_r, texel_mod. reflexivity.
    + rewrite Hf by nia. apply Hvals; auto; lia.
Qed.

(** Performance mode ends, and each pixel holds the sample of its block in
    the row it was computed in or copied from. *)
Lemma render_ground_performance_values ground_pixels :
  0 < ground_h ->
  length (px_bytes ground_pixels) = Z.to_nat (ground_w * ground_h * 4) ->
  exists p',
    render_ground_performance ground_pixels map_data ground_w ground_h map_w map_h
      camera_x camera_y cos_a sin_a sh_focal tan_f
      base_res dynamic_res layered_res state_move state_rot tilt = Some p' /\
    length (px_bytes p') = length (px_bytes ground_pixels) /\
    forall x y c, 0 <= x < ground_w -> 0 <= y < ground_h -> 0 <= c < 4 ->
      px_bytes p' !! Z.to_nat ((y * ground_w + x) * 4 + c) =
      Some (sample x (source_row step_of y) c).
Proof.
  intros Hh Hlen. unfold render_ground_performance.
  pose proof (for_range_inv
                (fun y s => rows_done ground_w step_of ground_pixels y s /\
                            rows_sampled ground_w step_of sample y s)
                (fun _ : unit => False) 0 ground_h
                (performance_row map_data ground_w ground_h map_w map_h
                   camera_x camera_y cos_a sin_a sh_focal tan_f
                   base_res dynamic_res layered_res state_move state_rot tilt)
                (ground_pixels, -1) ltac:(lia)) as Hinv.
  cbn beta in Hinv.
  match type of Hinv with ?P0 -> ?Pstep -> _ =>
    assert P0 as H0; [|assert Pstep as Hstep; [|specialize (Hinv H0 Hstep)]] end.
  - split.
    + cbn. split; [apply stores_range_refl|]. split; [reflexivity|]. split; intros; lia.
    + intros r x c Hr. lia.
  - intros y s Hy (Hdone & Hvals).
    pose proof (performance_row_step map_data ground_w ground_h map_w map_h
                  camera_x camera_y cos_a sin_a sh_focal tan_f
                  base_res dynamic_res layered_res state_move state_rot tilt
                  ground_w_pos ground_pixels y s Hy Hlen Hdone) as H1.
    pose proof (performance_row_values ground_pixels y s Hy Hlen Hdone Hvals) as H2.
    destruct (performance_row _ _ _ _ _ _ _ _ _ _ _ _ _ _ _ _ _ _ _); [exact H1|].
    split; [exact H1|exact H2].
  - destruct (for_range 0 ground_h _ (ground_pixels, -1)) as [u|[p' last]];
      [contradiction|].
    destruct Hinv as (((Hl & _ & _) & _ & _ & Hrows) & Hvals).
    exists p'. split; [reflexivity|]. split; [exact Hl|].
    intros x y c Hx Hy Hc.
    replace ((y * ground_w + x) * 4 + c) with (y * ground_w * 4 + (x * 4 + c)) by lia.
    rewrite (Hrows y (x * 4 + c) Hy ltac:(lia)).
    pose proof (source_row_last step_of (Z.to_nat y)) as Hsrc. cbn zeta in Hsrc.
    fold (source_row step_of y) in Hsrc. rewrite Z2Nat.id in Hsrc by lia.
    destruct Hsrc as (Hb & Hrec & _).
    rewrite Z.add_assoc. apply Hvals; auto; lia.
Qed.
End PerformanceValues.

Section QualityValues.
Context `{Target}.

Lemma render_ground_quality_values
    (ground_pixels : pixbuf) (map_data : list Z) (ground_w ground_h map_w map_h : Z)
    (camera_x camera_y cos_a sin_a sh_focal tan_f : float) :
  0 < ground_w -> 0 < ground_h -> 0 < map_w -> 0 < map_h ->
  length (px_bytes ground_pixels) = Z.to_nat (ground_w * ground_h * 4) ->
  let p' := render_ground_quality ground_pixels map_data ground_w ground_h map_w map_h
              camera_x camera_y cos_a sin_a sh_focal tan_f in
  length (px_bytes p') = length (px_bytes ground_pixels) /\
  forall x y c, 0 <= x < ground_w -> 0 <= y < ground_h -> 0 <= c < 4 ->
    px_bytes p' !! Z.to_nat ((y * ground_w + x) * 4 + c) =
    Some (quality_sample map_data ground_w map_w map_h
            camera_x camera_y cos_a sin_a sh_focal tan_f x y c).
Proof.
  intros Hw Hh Hmw Hmh Hlen p'.
  set (sample := quality_sample map_data ground_w map_w map_h
                   camera_x camera_y cos_a sin_a sh_focal tan_f).
  assert (stores_range ground_pixels p' 0 (ground_h * ground_w * 4) /\
          forall x y c, 0 <= x < ground_w -> 0 <= y < ground_h -> 0 <= c < 4 ->
            px_bytes p' !! Z.to_nat (y * ground_w * 4 + x * 4 + c) = Some (sample x y c))
    as [(Hl & _ & _) Hall].
  { subst p'. unfold render_ground_quality.
    apply (for_loop_inv
             (fun y p =>
                stores_range ground_pixels p 0 (y * ground_w * 4) /\
                forall x y' c, 0 <= x < ground_w -> 0 <= y' < y -> 0 <= c < 4 ->
                  px_bytes p !! Z.to_nat (y' * ground_w * 4 + x * 4 + c)
                  = Some (sample x y' c))); [lia| |].
    - split; [apply stores_range_refl|]. intros; lia.
    - intros y p Hy (Hr & Hprev). cbn zeta.
      pose proof Hr as (Hl1 & _ & _).
      destruct (quality_row_spec map_data ground_w map_w map_h camera_x camera_y
                  cos_a sin_a sh_focal tan_f Hmw Hmh y p ltac:(lia) ltac:(lia)
                  ltac:(nia)) as (Hr2 & Hnew).
      cbn zeta in Hr2, Hnew. split.
      + replace ((y + 1) * ground_w * 4) with (y * ground_w * 4 + ground_w * 4) by lia.
        eapply stores_range_trans; [nia|lia|exact Hr|exact Hr2].
      + intros x y' c Hx Hy' Hc. destruct (Z.eq_dec y' y) as [->|Hne].
        * apply Hnew; assumption.
        * destruct Hr2 as (_ & _ & Hf2). rewrite Hf2 by nia. apply Hprev; lia. }
  split; [exact Hl|]. intros x y c Hx Hy Hc.
  replace ((y * ground_w + x) * 4 + c) with (y * ground_w * 4 + x * 4 + c) by lia.
  apply Hall; assumption.
Qed.
End QualityValues.

(** Two buffers of [w * h] pixels that agree on every channel of every
    pixel hold the same bytes. *)
Lemma pixels_eq (l1 l2 : list Z) (w h : Z) (f : Z -> Z -> Z -> Z) :
  0 < w -> 0 < h ->
  length l1 = Z.to_nat (w * h * 4) -> length l2 = Z.to_nat (w * h * 4) ->
  (forall x y c, 0 <= x < w -> 0 <= y < h -> 0 <= c < 4 ->
     l1 !! Z.to_nat ((y * w + x) * 4 + c) = Some (f x y c)) ->
  (forall x y c, 0 <= x < w -> 0 <= y < h -> 0 <= c < 4 ->
     l2 !! Z.to_nat ((y * w + x) * 4 + c) = Some (f x y c)) ->
  l1 = l2.
Proof.
  intros Hw Hh Hl1 Hl2 H1 H2. apply list_eq. intros i.
  destruct (Z_lt_le_dec (Z.of_nat i) (w * h * 4)) as [Hin|Hout].
  - set (q := Z.of_nat i / 4). set (c := Z.of_nat i mod 4).
    pose proof (Z.div_mod (Z.of_nat i) 4 ltac:(lia)) as Hi. fold q c in Hi.
    pose proof (Z.mod_pos_bound (Z.of_nat i) 4 ltac:(lia)) as Hc. fold c in Hc.
    assert (0 <= q < w * h) as Hq.
    { subst q. split; [apply Z.div_pos; lia|apply Z.div_lt_upper_bound; lia]. }
    pose proof (Z.div_mod q w ltac:(lia)) as Hqw.
    pose proof (Z.mod_pos_bound q w Hw) as Hx.
    assert (0 <= q / w < h) as Hy.
    { split; [apply Z.div_pos; lia|apply Z.div_lt_upper_bound; nia]. }
    replace i with (Z.to_nat ((q / w * w + q mod w) * 4 + c)) by lia.
    rewrite H1, H2 by assumption. reflexivity.
  - rewrite !lookup_ge_None_2 by lia. reflexivity.
Qed.

Section RasterMore.
Context `{Target}.

(** X12. Performance mode ends and gives every pixel its value: the pixel
    [(x, y)] holds the texel sampled for the block [x / step] of the last
    computed row [r] up to [y] (the row itself when it is computed), [step]
    being the step of [r] and the sampling point advancing by [step] times
    the increment of the scanline from one block to the next; the alpha byte
    is 255 everywhere, and the pixels of one block are equal. *)
Theorem performance_pixels
    (ground_pixels : pixbuf) (map_data : list Z) (ground_w ground_h map_w map_h : Z)
    (camera_x camera_y cos_a sin_a sh_focal tan_f : float)
    (base_res dynamic_res layered_res state_move state_rot : Z) (tilt : float) :
  0 < ground_w -> 0 < ground_h -> 0 < map_w -> 0 < map_h ->
  length (px_bytes ground_pixels) = Z.to_nat (ground_w * ground_h * 4) ->
  let step_of := fun y =>
    row_step ground_h y base_res dynamic_res layered_res state_move state_rot tilt in
  let sample := fun x r c =>
    performance_sample map_data ground_w map_w map_h camera_x camera_y cos_a sin_a
      sh_focal tan_f (step_of r) x r c in
  exists p',
    render_ground_performance ground_pixels map_data ground_w ground_h map_w map_h
      camera_x camera_y cos_a sin_a sh_focal tan_f
      base_res dynamic_res layered_res state_move state_rot tilt = Some p' /\
    (forall x y c, 0 <= x < ground_w -> 0 <= y < ground_h -> 0 <= c < 4 ->
       px_bytes p' !! Z.to_nat ((y * ground_w + x) * 4 + c) =
       Some (sample x (source_row step_of y) c)) /\
    (forall x y, 0 <= x < ground_w -> 0 <= y < ground_h ->
       px_bytes p' !! Z.to_nat ((y * ground_w + x) * 4 + 3) = Some 255) /\
    (forall x x' y c, 0 <= x < ground_w -> 0 <= x' < ground_w -> 0 <= y < ground_h ->
       0 <= c < 4 ->
       x / step_of (source_row step_of y) = x' / step_of (source_row step_of y) ->
       px_bytes p' !! Z.to_nat ((y * ground_w + x) * 4 + c) =
       px_bytes p' !! Z.to_nat ((y * ground_w + x') * 4 + c)).
Proof.
  intros Hw Hh Hmw Hmh Hlen step_of sample.
  destruct (render_ground_performance_values map_data ground_w ground_h map_w map_h
              camera_x camera_y cos_a sin_a sh_focal tan_f
              base_res dynamic_res layered_res state_move state_rot tilt
              Hw Hmw Hmh ground_pixels Hh Hlen) as (p' & Hp' & _ & Hall).
  exists p'. split; [exact Hp'|]. split; [exact Hall|]. split.
  - intros x y Hx Hy. rewrite (Hall x y 3 Hx Hy ltac:(lia)). reflexivity.
  - intros x x' y c Hx Hx' Hy Hc Hblock.
    rewrite (Hall x y c Hx Hy Hc), (Hall x' y c Hx' Hy Hc).
    subst step_of. cbv beta in Hblock |- *.
    unfold performance_sample. rewrite Hblock. reflexivity.
Qed.

(** X13. A frame overwrites the destination: for a destination of
    [ground_w * ground_h] pixels, the bytes either mode leaves do not depend
    on what the buffer held before the call. *)
Theorem frames_overwrite
    (p1 p2 : pixbuf) (map_data : list Z) (ground_w ground_h map_w map_h : Z)
    (camera_x camera_y cos_a sin_a sh_focal tan_f : float)
    (base_res dynamic_res layered_res state_move state_rot : Z) (tilt : float) :
  0 < ground_w -> 0 < ground_h -> 0 < map_w -> 0 < map_h ->
  length (px_bytes p1) = Z.to_nat (ground_w * ground_h * 4) ->
  length (px_bytes p2) = Z.to_nat (ground_w * ground_h * 4) ->
  px_bytes (render_ground_quality p1 map_data ground_w ground_h map_w map_h
              camera_x camera_y cos_a sin_a sh_focal tan_f) =
  px_bytes (render_ground_quality p2 map_data ground_w ground_h map_w map_h
              camera_x camera_y cos_a sin_a sh_focal tan_f) /\
  px_bytes <$> render_ground_performance p1 map_data ground_w ground_h map_w map_h
                 camera_x camera_y cos_a sin_a sh_focal tan_f
                 base_res dynamic_res layered_res state_move state_rot tilt =
  px_bytes <$> render_ground_performance p2 map_data ground_w ground_h map_w map_h
                 camera_x camera_y cos_a sin_a sh_focal tan_f
                 base_res dynamic_res layered_res state_move state_rot tilt.
Proof.
  intros Hw Hh Hmw Hmh Hl1 Hl2. split.
  - destruct (render_ground_quality_values p1 map_data ground_w ground_h map_w map_h
                camera_x camera_y cos_a sin_a sh_focal tan_f Hw Hh Hmw Hmh Hl1) as (Ha & Hb).
    destruct (render_ground_quality_values p2 map_data ground_w ground_h map_w map_h
                camera_x camera_y cos_a sin_a sh_focal tan_f Hw Hh Hmw Hmh Hl2) as (Hc & Hd).
    eapply (pixels_eq _ _ ground_w ground_h); [exact Hw|exact Hh| | |exact Hb|exact Hd];
      congruence.
  - destruct (render_ground_performance_values map_data ground_w ground_h map_w map_h
                camera_x camera_y cos_a sin_a sh_focal tan_f
                base_res dynamic_res layered_res state_move state_rot tilt
                Hw Hmw Hmh p1 Hh Hl1) as (q1 & -> & Ha & Hb).
    destruct (render_ground_performance_values map_data ground_w ground_h map_w map_h
                camera_x camera_y cos_a sin_a sh_focal tan_f
                base_res dynamic_res layered_res state_move state_rot tilt
                Hw Hmw Hmh p2 Hh Hl2) as (q2 & -> & Hc & Hd).
    cbn. f_equal.
    eapply (pixels_eq _ _ ground_w ground_h); [exact Hw|exact Hh| | |exact Hb|exact Hd];
      congruence.
Qed.

(** X14. For a map whose [map_w * map_h * 4] bytes are counted by an [int],
    no step of the index computation leaves the range of [int], and the
    texel a sampling point reads lies inside the map, at a multiple of 4:
    the column and the row are reduced into [0, map_w) and [0, map_h), and
    the index is [(row * map_w + column) * 4].  The map repeats: points whose
    truncated coordinates differ by whole widths and heights read the same
    texel. *)
Theorem map_index_wraps (map_w map_h : Z) (cur_x cur_y : float) :
  0 < map_w -> 0 < map_h -> map_w * map_h * 4 <= INT_MAX ->
  let mx := fast_mod (fptosi cur_x) map_w in
  let my := fast_mod (fptosi cur_y) map_h in
  let i := map_index map_w map_h cur_x cur_y in
  0 <= mx < map_w /\ 0 <= my < map_h /\
  0 <= my * map_w <= INT_MAX /\ 0 <= my * map_w + mx <= INT_MAX /\
  i = (my * map_w + mx) * 4 /\
  0 <= i /\ i + 3 < map_w * map_h * 4 /\ i + 3 <= INT_MAX /\ i mod 4 = 0 /\
  forall (other_x other_y : float) (a b : Z),
    fptosi other_x = fptosi cur_x + a * map_w ->
    fptosi other_y = fptosi cur_y + b * map_h ->
    map_index map_w map_h other_x other_y = i.
Proof.
  intros Hw Hh Hint mx my i. subst mx my i. unfold map_index.
  destruct (fast_mod_mod (fptosi cur_x) map_w Hw) as [-> Hx].
  destruct (fast_mod_mod (fptosi cur_y) map_h Hh) as [-> Hy].
  split; [exact Hx|]. split; [exact Hy|].
  split; [nia|]. split; [nia|]. split; [reflexivity|].
  split; [nia|]. split; [nia|]. split; [nia|]. split; [apply Z.mod_mul; lia|].
  intros ox oy a b Hox Hoy.
  rewrite (proj1 (fast_mod_mod (fptosi ox) map_w Hw)).
  rewrite (proj1 (fast_mod_mod (fptosi oy) map_h Hh)).
  rewrite Hox, Hoy, !Z.mod_add by lia. reflexivity.
Qed.

(** X15. With no rows, or rows of no pixels, neither mode touches the
    destination: the buffer and the record of the stores are as before. *)
Theorem empty_destination
    (ground_pixels : pixbuf) (map_data : list Z) (ground_w ground_h map_w map_h : Z)
    (camera_x camera_y cos_a sin_a sh_focal tan_f : float)
    (base_res dynamic_res layered_res state_move state_rot : Z) (tilt : float) :
  ground_h <= 0 \/ ground_w = 0 ->
  render_ground_quality ground_pixels map_data ground_w ground_h map_w map_h
    camera_x camera_y cos_a sin_a sh_focal tan_f = ground_pixels /\
  render_ground_performance ground_pixels map_data ground_w ground_h map_w map_h
    camera_x camera_y cos_a sin_a sh_focal tan_f
    base_res dynamic_res layered_res state_move state_rot tilt = Some ground_pixels.
Proof.
  intros [Hh|Hw].
  - unfold render_ground_quality, render_ground_performance.
    rewrite for_loop_nil, for_range_nil by lia. split; reflexivity.
  - subst ground_w. split.
    + unfold render_ground_quality.
      apply (for_loop_preserves (fun p => p = ground_pixels)); [reflexivity|].
      intros y p ->. cbn zeta. rewrite for_loop_nil by lia. reflexivity.
    + unfold render_ground_performance.
      pose proof (for_range_preserves
                    (fun s : pixbuf * Z => fst s = ground_pixels) (fun _ : unit => False)
                    0 ground_h
                    (performance_row map_data 0 ground_h map_w map_h
                       camera_x camera_y cos_a sin_a sh_focal tan_f
                       base_res dynamic_res layered_res state_move state_rot tilt)
                    (ground_pixels, -1) eq_refl) as Hinv.
      match type of Hinv with ?P -> _ => assert P as Hstep end.
      { intros y [p last] Hp. cbn [fst] in Hp. subst p. unfold performance_row.
        destruct (_ && _ && _).
        - cbn [fst]. unfold memcpy. destruct ground_pixels as [bytes stores].
          cbn [px_bytes px_stores]. rewrite !Z.mul_0_l. cbn. reflexivity.
        - cbn. reflexivity. }
      specialize (Hinv Hstep).
      destruct (for_range 0 ground_h _ (ground_pixels, -1)) as [u|[p' last]];
        [contradiction|].
      cbn [fst] in Hinv. rewrite Hinv. reflexivity.
Qed.
End RasterMore.

Section RasterMoreExamples.
#[local] Existing Instance example_target.

(** The scene of [performance_four_rows]. *)
Lemma performance_pixels_witness :
  let step_of := fun y => row_step 4 y 1 1 1 0 0 F32.zero in
  let sample := fun x r c =>
    performance_sample checker_map 2 2 2 F32.zero F32.zero f_1_0 F32.zero (F32.of_int 4) f_1_0
      (step_of r) x r c in
  exists p',
    render_ground_performance (blank 32) checker_map 2 4 2 2
      F32.zero F32.zero f_1_0 F32.zero (F32.of_int 4) f_1_0 1 1 1 0 0 F32.zero = Some p' /\
    (forall x y c, 0 <= x < 2 -> 0 <= y < 4 -> 0 <= c < 4 ->
       px_bytes p' !! Z.to_nat ((y * 2 + x) * 4 + c) =
       Some (sample x (source_row step_of y) c)) /\
    (forall x y, 0 <= x < 2 -> 0 <= y < 4 ->
       px_bytes p' !! Z.to_nat ((y * 2 + x) * 4 + 3) = Some 255) /\
    (forall x x' y c, 0 <= x < 2 -> 0 <= x' < 2 -> 0 <= y < 4 -> 0 <= c < 4 ->
       x / step_of (source_row step_of y) = x' / step_of (source_row step_of y) ->
       px_bytes p' !! Z.to_nat ((y * 2 + x) * 4 + c) =
       px_bytes p' !! Z.to_nat ((y * 2 + x') * 4 + c)).
Proof.
  apply (performance_pixels (blank 32) checker_map 2 4 2 2
           F32.zero F32.zero f_1_0 F32.zero (F32.of_int 4) f_1_0 1 1 1 0 0 F32.zero);
    try lia.
  reflexivity.
Defined.

(** A blank buffer and a buffer left by an earlier frame. *)
Lemma frames_overwrite_witness :
  let used := {| px_bytes := replicate 32 200; px_stores := [5; 4] |} in
  px_bytes (render_ground_quality (blank 32) checker_map 2 4 2 2
              F32.zero F32.zero f_1_0 F32.zero (F32.of_int 4) f_1_0) =
  px_bytes (render_ground_quality used checker_map 2 4 2 2
              F32.zero F32.zero f_1_0 F32.zero (F32.of_int 4) f_1_0) /\
  px_bytes <$> render_ground_performance (blank 32) checker_map 2 4 2 2
                 F32.zero F32.zero f_1_0 F32.zero (F32.of_int 4) f_1_0 1 1 1 0 0 F32.zero =
  px_bytes <$> render_ground_performance used checker_map 2 4 2 2
                 F32.zero F32.zero f_1_0 F32.zero (F32.of_int 4) f_1_0 1 1 1 0 0 F32.zero.
Proof.
  intros used.
  apply (frames_overwrite (blank 32) used checker_map 2 4 2 2
           F32.zero F32.zero f_1_0 F32.zero (F32.of_int 4) f_1_0 1 1 1 0 0 F32.zero);
    try lia; reflexivity.
Defined.

(** A point five texels to the right of and three above the origin of a map
    of two by two. *)
Lemma map_index_wraps_witness :
  let mx := fast_mod (fptosi (F32.of_int 5)) 2 in
  let my := fast_mod (fptosi (F32.of_int (-3))) 2 in
  let i := map_index 2 2 (F32.of_int 5) (F32.of_int (-3)) in
  (mx = 1 /\ my = 1 /\ i = 12) /\
  0 <= mx < 2 /\ 0 <= my < 2 /\
  0 <= my * 2 <= INT_MAX /\ 0 <= my * 2 + mx <= INT_MAX /\
  i = (my * 2 + mx) * 4 /\
  0 <= i /\ i + 3 < 2 * 2 * 4 /\ i + 3 <= INT_MAX /\ i mod 4 = 0 /\
  forall (other_x other_y : float) (a b : Z),
    fptosi other_x = fptosi (F32.of_int 5) + a * 2 ->
    fptosi other_y = fptosi (F32.of_int (-3)) + b * 2 ->
    map_index 2 2 other_x other_y = i.
Proof.
  intros mx my i. split; [vm_compute; repeat split; reflexivity|].
  apply (map_index_wraps 2 2 (F32.of_int 5) (F32.of_int (-3))); try lia.
  unfold INT_MAX. lia.
Defined.

(** A destination without rows. *)
Lemma empty_destination_witness :
  render_ground_quality (blank 0) checker_map 2 0 2 2
    F32.zero F32.zero f_1_0 F32.zero f_2_0 f_1_0 = blank 0 /\
  render_ground_performance (blank 0) checker_map 2 0 2 2
    F32.zero F32.zero f_1_0 F32.zero f_2_0 f_1_0 1 1 1 0 0 F32.zero = Some (blank 0).
Proof.
  apply (empty_destination (blank 0) checker_map 2 0 2 2
           F32.zero F32.zero f_1_0 F32.zero f_2_0 f_1_0 1 1 1 0 0 F32.zero).
  left. lia.
Defined.
End RasterMoreExamples.

(* ================================================================= *)
(** * [normalize_angle] *)

Lemma below_minus_pi_not_above (d : double) :
  F64.ltb d (SFopp M_PI) = true -> F64.gtb d M_PI = false.
Proof.
  unfold F64.ltb, F64.gtb. intros Hlt.
  destruct (SFltb_number _ _ Hlt) as [Hd Hp].
  destruct (SFltb M_PI d) eqn:Hgt; [|reflexivity].
  apply SFltb_lex in Hlt; [|exact Hd|exact Hp].
  apply SFltb_lex in Hgt; [|discriminate|exact Hd].
  unfold lex_lt in *. cbn in Hlt, Hgt. lia.
Qed.

Lemma normalize_up_not_below fuel : forall a b,
  normalize_up fuel a = Some b -> F64.ltb (F64.of_float b) (SFopp M_PI) = false.
Proof.
  induction fuel as [|fuel IH]; intros a b; cbn [normalize_up];
    destruct (F64.ltb (F64.of_float a) (SFopp M_PI)) eqn:E; try discriminate.
  - intros [= <-]. exact E.
  - apply IH.
  - intros [= <-]. exact E.
Qed.

Lemma normalize_down_stuck a :
  F64.gtb (F64.of_float a) M_PI = true ->
  F32.of_double (F64.sub (F64.of_float a) two_pi) = a ->
  forall fuel, normalize_down fuel a = None.
Proof.
  intros Hgt Hfix fuel. induction fuel as [|fuel IH]; cbn [normalize_down]; rewrite Hgt.
  - reflexivity.
  - rewrite Hfix. exact IH.
Qed.

Lemma normalize_up_stuck a :
  F64.ltb (F64.of_float a) (SFopp M_PI) = true ->
  F32.of_double (SFadd F64.prec F64.emax (F64.of_float a) two_pi) = a ->
  forall fuel, normalize_up fuel a = None.
Proof.
  intros Hlt Hfix fuel. induction fuel as [|fuel IH]; cbn [normalize_up]; rewrite Hlt.
  - reflexivity.
  - rewrite Hfix. exact IH.
Qed.

(** X16. [normalize_angle] returns an angle that is neither above [M_PI] nor
    below [-M_PI] (a NaN in particular) as it is, at once; and whatever it
    returns is not below [-M_PI]. *)
Theorem normalize_angle_in_range (angle : float) :
  (F64.gtb (F64.of_float angle) M_PI = false ->
   F64.ltb (F64.of_float angle) (SFopp M_PI) = false ->
   forall fuel, normalize_angle fuel angle = Some angle) /\
  (forall fuel result,
     normalize_angle fuel angle = Some result ->
     F64.ltb (F64.of_float result) (SFopp M_PI) = false).
Proof.
  split.
  - intros Hgt Hlt fuel. unfold normalize_angle.
    destruct fuel; cbn [normalize_down normalize_up]; rewrite Hgt; rewrite Hlt; reflexivity.
  - intros fuel result. unfold normalize_angle.
    destruct (normalize_down fuel angle) as [a|]; [|discriminate].
    apply normalize_up_not_below.
Qed.

(** X17. [normalize_angle] does not return for an angle beyond [M_PI] in
    magnitude that the subtraction or addition of [2 * M_PI], rounded back
    to [float], leaves unchanged (an infinity, or a float whose spacing
    exceeds [4 * M_PI]): the loop goes round with the same value, whatever
    the number of rounds allowed. *)
Theorem normalize_angle_stuck (angle : float) :
  (F64.gtb (F64.of_float angle) M_PI = true /\
   F32.of_double (F64.sub (F64.of_float angle) two_pi) = angle) \/
  (F64.ltb (F64.of_float angle) (SFopp M_PI) = true /\
   F32.of_double (SFadd F64.prec F64.emax (F64.of_float angle) two_pi) = angle) ->
  forall fuel, normalize_angle fuel angle = None.
Proof.
  intros [[Hgt Hfix]|[Hlt Hfix]] fuel; unfold normalize_angle.
  - rewrite (normalize_down_stuck angle Hgt Hfix). reflexivity.
  - assert (normalize_down fuel angle = Some angle) as ->.
    { destruct fuel; cbn [normalize_down];
        rewrite (below_minus_pi_not_above _ Hlt); reflexivity. }
    apply normalize_up_stuck; assumption.
Qed.

(** The float [12345678 * 2^60]; the floats next to it are [2^60] away. *)
Lemma normalize_angle_stuck_witness :
  normalize_angle 1000 (S754_finite false 12345678 60) = None.
Proof.
  apply (normalize_angle_stuck (S754_finite false 12345678 60)).
  left. vm_compute. split; reflexivity.
Defined.

(* ================================================================= *)
(** * Integers carried in floats *)

(** A mantissa of 24 digits is not rounded. *)
Lemma binary_round_aux_exact s (m : positive) e :
  Zpos (digits2_pos m) = 24 -> -149 <= e <= 104 ->
  binary_round_aux 24 128 s (Zpos m) e loc_Exact = S754_finite s m e.
Proof.
  intros Hd He. unfold binary_round_aux, shr_fexp, fexp, emin.
  cbn [Zdigits2 shr_record_of_loc]. rewrite Hd.
  replace (Z.max (24 + e - 24) (3 - 128 - 24) - e) with 0 by lia.
  cbn [shr shr_m loc_of_shr_record round_nearest_even Zdigits2 shr_record_of_loc].
  rewrite Hd.
  replace (Z.max (24 + e - 24) (3 - 128 - 24) - e) with 0 by lia.
  cbn [shr shr_m].
  destruct (Z.leb_spec e (128 - 24)); [reflexivity|lia].
Qed.

Lemma trunc_binary_round s (p : positive) :
  Zpos p < 2 ^ 24 ->
  trunc (binary_round F32.prec F32.emax s p 0) = Some (if s then - Zpos p else Zpos p).
Proof.
  intros Hp. pose proof (digits2_pos_lower p) as Hlow.
  assert (Zpos (digits2_pos p) <= 24) as Hd.
  { destruct (Z_le_gt_dec (Zpos (digits2_pos p)) 24) as [|Hgt]; [assumption|].
    assert (2 ^ 24 <= 2 ^ (Zpos (digits2_pos p) - 1)) by (apply Z.pow_le_mono_r; lia).
    lia. }
  unfold binary_round, shl_align, fexp, emin, F32.prec, F32.emax.
  replace (Z.max (Zpos (digits2_pos p) + 0 - 24) (3 - 128 - 24) - 0)
    with (Zpos (digits2_pos p) - 24) by lia.
  destruct (Zpos (digits2_pos p) - 24) as [|k|k] eqn:Ek; [|lia|].
  - rewrite (binary_round_aux_exact s p 0) by lia. reflexivity.
  - replace (Z.max (Zpos (digits2_pos p) + 0 - 24) (3 - 128 - 24)) with (Zneg k) by lia.
    rewrite (binary_round_aux_exact s (Pos.iter xO p k) (Zneg k))
      by (rewrite ?iter_xO_digits; lia).
    cbn [trunc]. destruct (Z.leb_spec 0 (Zneg k)); [lia|].
    rewrite iter_xO_value, Z.shiftr_div_pow2 by lia.
    change (- Zneg k) with (Zpos k). rewrite Z.div_mul by lia. reflexivity.
Qed.

Lemma trunc_of_int (n : Z) : - 2 ^ 24 < n < 2 ^ 24 -> trunc (F32.of_int n) = Some n.
Proof.
  intros Hn. unfold F32.of_int, binary_normalize. destruct n as [|p|p].
  - reflexivity.
  - apply (trunc_binary_round false p). lia.
  - apply (trunc_binary_round true p). lia.
Qed.

Section IntegerCells.
Context `{Target}.

Lemma fptosi_of_int (n : Z) : - 2 ^ 24 < n < 2 ^ 24 -> fptosi (F32.of_int n) = n.
Proof.
  intros Hn. unfold fptosi. rewrite (trunc_of_int n Hn).
  unfold INT_MIN, INT_MAX.
  destruct (Z.leb_spec (- 2 ^ 31) n), (Z.leb_spec n (2 ^ 31 - 1)); cbn; lia.
Qed.

(** X18. An integer of magnitude below [2^24] survives the conversions of
    the registry.  When the id and type cells of the tuples handed to
    [add_obstacles_batch] hold such integers, converted to [float], the
    obstacles stored have exactly these integers as id and type; and in the
    output buffer of a later [process_visible_obstacles] the cells 0 and 5
    of every record are the id and type of a registered obstacle converted
    to [float] again: for an obstacle of the batch they are the very cells
    the host passed, and converting them to [int] gives the integers back. *)
Theorem integer_cells_round_trip
    (data : fbuf) (count : Z) (ids types : Z -> Z) (st : State)
    camera_x camera_y camera_z camera_angle player_x player_y player_height
    fov max_render_distance map_width map_height (out : fbuf) :
  State_wf st -> 0 <= count ->
  (forall j, 0 <= j < count ->
     (- 2 ^ 24 < ids j < 2 ^ 24 /\ - 2 ^ 24 < types j < 2 ^ 24) /\
     data (j * 6 + 4) = F32.of_int (ids j) /\ data (j * 6 + 5) = F32.of_int (types j)) ->
  let n := obstacle_count st in
  let added := snd (add_obstacles_batch data count st) in
  let st' := fst (add_obstacles_batch data count st) in
  let r := process_visible_obstacles camera_x camera_y camera_z camera_angle
             player_x player_y player_height fov max_render_distance
             map_width map_height (Some out) st' in
  (forall j, 0 <= j < added ->
     obs_id (obstacles st' !!! Z.to_nat (n + j)) = ids j /\
     obs_type (obstacles st' !!! Z.to_nat (n + j)) = types j) /\
  exists out', snd (fst r) = Some out' /\
    forall k, 0 <= k < snd r ->
      exists i, 0 <= i < n + added /\
        let obs := obstacles st' !!! Z.to_nat i in
        po_obstacle_id (returned r !!! Z.to_nat k) = obs_id obs /\
        po_type (returned r !!! Z.to_nat k) = obs_type obs /\
        out' (k * 6) = F32.of_int (obs_id obs) /\
        out' (k * 6 + 5) = F32.of_int (obs_type obs) /\
        (n <= i ->
         out' (k * 6) = data ((i - n) * 6 + 4) /\
         out' (k * 6 + 5) = data ((i - n) * 6 + 5) /\
         fptosi (out' (k * 6)) = ids (i - n) /\
         fptosi (out' (k * 6 + 5)) = types (i - n)).
Proof.
  intros Hwf Hcount Hcells n added st' r.
  pose proof (add_obstacles_batch_wf data count st Hwf Hcount) as Hwf'. fold st' in Hwf'.
  destruct (add_obstacles_batch_rounds data count st Hwf Hcount) as (i0 & Hi0 & Ha & _).
  assert (added = i0 /\ obstacle_count st' = n + i0 /\
          forall j, 0 <= j < i0 ->
            obstacles st' !!! Z.to_nat (n + j) = record_at data j) as (Hadded & Hc' & Hnew).
  { subst added st' n. destruct (add_obstacles_batch data count st) as [s a].
    cbn [fst snd] in *. destruct Ha as (-> & Hc & _ & _ & _ & Hnew & _).
    split; [reflexivity|]. split; [exact Hc|].
    intros j Hj. apply list_lookup_total_correct. apply Hnew. exact Hj. }
  clearbody added n. subst i0.
  assert (forall j, 0 <= j < added ->
            obs_id (obstacles st' !!! Z.to_nat (n + j)) = ids j /\
            obs_type (obstacles st' !!! Z.to_nat (n + j)) = types j) as Hstored.
  { intros j Hj. rewrite Hnew by lia.
    destruct (Hcells j ltac:(lia)) as ((Hid & Hty) & Hci & Hct).
    unfold record_at. cbn [obs_id obs_type].
    rewrite Hci, Hct, !fptosi_of_int by assumption. split; reflexivity. }
  split; [exact Hstored|].
  destruct (Z.eq_dec (obstacle_count st') 0) as [Hz|Hnz].
  { subst r. unfold process_visible_obstacles. rewrite Hz. cbn [Z.eqb fst snd].
    exists out. split; [reflexivity|]. intros k Hk. lia. }
  destruct (process_visible_obstacles_cells camera_x camera_y camera_z camera_angle
              player_x player_y player_height fov max_render_distance map_width
              map_height out st' Hwf' Hnz) as (Hb & Hlen & Hret & out' & Hout & Hcell & _).
  fold r in Hb, Hlen, Hret, Hout, Hcell.
  exists out'. split; [exact Hout|]. intros k Hk.
  destruct (Hcell k Hk) as (H0 & _ & _ & _ & _ & H5). cbn zeta in H0, H5.
  assert (returned r !!! Z.to_nat k ∈ returned r) as Hin
    by (apply list_elem_of_lookup_total_2; lia).
  remember (returned r !!! Z.to_nat k) as p eqn:Ep. clear Ep.
  rewrite Hret, bubble_perm in Hin.
  apply collected_visible in Hin as ([[i tx] ty] & Himg & _ & ->).
  apply elem_of_images in Himg as (Hi & _).
  exists i. split; [lia|].
  cbn [record_of_image record_of po_obstacle_id po_type] in *.
  split; [reflexivity|]. split; [reflexivity|]. split; [exact H0|]. split; [exact H5|].
  intros Hni. rewrite H0, H5.
  destruct (Hstored (i - n) ltac:(lia)) as [Hid Hty].
  replace (n + (i - n)) with i in Hid, Hty by lia. rewrite Hid, Hty.
  destruct (Hcells (i - n) ltac:(lia)) as ((Hbi & Hbt) & Hci & Hct).
  rewrite Hci, Hct, !fptosi_of_int by assumption. repeat split; reflexivity.
Qed.
End IntegerCells.

Section IntegerCellsExamples.
#[local] Existing Instance example_target.

(** The four obstacles of [axis_obstacles], added to the empty registry and
    seen in the scene of [axis_returned]. *)
Lemma integer_cells_round_trip_witness :
  let z := F32.zero in
  let data := tuples [(10, 0, 2, 1, 1, 0); (30, 0, 2, 3, 2, 0); (20, 0, 2, 1, 3, 1);
                      (30, 0, 1, 1, 4, 0)] in
  let ids := fun j => nth (Z.to_nat j) [1; 2; 3; 4] 0 in
  let types := fun j => nth (Z.to_nat j) [0; 0; 1; 0] 0 in
  let added := snd (add_obstacles_batch data 4 initial_state) in
  let st' := fst (add_obstacles_batch data 4 initial_state) in
  let r := process_visible_obstacles z z z z (F32.of_int 25) z z
             (F32.lit 15 10) (F32.of_int 50) (F32.of_int 100) (F32.of_int 100)
             (Some no_output) st' in
  (added = 4 /\
   map (fun o => (obs_id o, obs_type o)) (take 4 (obstacles st')) =
   [(1, 0); (2, 0); (3, 1); (4, 0)] /\
   map (fun q => (po_obstacle_id q, po_type q)) (returned r) =
   [(2, 0); (4, 0); (3, 1); (1, 0)]) /\
  (forall j, 0 <= j < added ->
     obs_id (obstacles st' !!! Z.to_nat (0 + j)) = ids j /\
     obs_type (obstacles st' !!! Z.to_nat (0 + j)) = types j) /\
  exists out', snd (fst r) = Some out' /\
    forall k, 0 <= k < snd r ->
      exists i, 0 <= i < 0 + added /\
        let obs := obstacles st' !!! Z.to_nat i in
        po_obstacle_id (returned r !!! Z.to_nat k) = obs_id obs /\
        po_type (returned r !!! Z.to_nat k) = obs_type obs /\
        out' (k * 6) = F32.of_int (obs_id obs) /\
        out' (k * 6 + 5) = F32.of_int (obs_type obs) /\
        (0 <= i ->
         out' (k * 6) = data ((i - 0) * 6 + 4) /\
         out' (k * 6 + 5) = data ((i - 0) * 6 + 5) /\
         fptosi (out' (k * 6)) = ids (i - 0) /\
         fptosi (out' (k * 6 + 5)) = types (i - 0)).
Proof.
  intros z data ids types added st' r.
  split; [vm_compute; repeat split; reflexivity|].
  apply (integer_cells_round_trip data 4 ids types initial_state
           z z z z (F32.of_int 25) z z
           (F32.lit 15 10) (F32.of_int 50) (F32.of_int 100) (F32.of_int 100) no_output).
  - exact initial_state_wf.
  - lia.
  - intros j Hj.
    assert (j = 0 \/ j = 1 \/ j = 2 \/ j = 3) as [-> | [-> | [-> | ->]]] by lia;
      vm_compute; repeat split; reflexivity.
Defined.
End IntegerCellsExamples.

(* ================================================================= *)
(** * A player on an obstacle *)

(** X19. A player proposed at the very position of a registered obstacle
    that is not flown over collides with it as soon as the square of the
    combined radius is above zero, on every map whose half width and half
    height are not below zero: [check_collision] returns 1. *)
Theorem collides_at_obstacle
    player_x player_y player_radius player_height map_width map_height st i :
  let o := obstacles st !!! Z.to_nat i in
  0 <= i < obstacle_count st ->
  is_finite (obs_x o) -> is_finite (obs_y o) ->
  (player_height >=? obs_height o)%f32 = false ->
  (F32.zero <=? map_width / f_2_0)%f32 = true ->
  (F32.zero <=? map_height / f_2_0)%f32 = true ->
  (F32.zero <? (obs_radius o + player_radius) * (obs_radius o + player_radius))%f32 = true ->
  collides o player_radius player_height (obs_x o) (obs_y o) map_width map_height = true /\
  check_collision player_x player_y player_radius player_height (obs_x o) (obs_y o)
    map_width map_height st = 1.
Proof.
  intros o Hi Hx Hy Hheight Hw Hh Hr.
  assert (collides o player_radius player_height (obs_x o) (obs_y o) map_width map_height
          = true) as Hhit.
  { unfold collides. rewrite Hheight.
    rewrite (F32_sub_diag (obs_x o) Hx), (F32_sub_diag (obs_y o) Hy).
    assert (wrap_delta F32.zero (map_width / f_2_0)%f32 map_width = F32.zero) as ->.
    { unfold wrap_delta. destruct (half_below_zero_false _ Hw) as [-> ->]. reflexivity. }
    assert (wrap_delta F32.zero (map_height / f_2_0)%f32 map_height = F32.zero) as ->.
    { unfold wrap_delta. destruct (half_below_zero_false _ Hh) as [-> ->]. reflexivity. }
    exact Hr. }
  split; [exact Hhit|].
  destruct (check_collision_spec player_radius player_height (obs_x o) (obs_y o) map_width
              map_height player_x player_y st) as [(-> & _)|(_ & Hnone)]; [reflexivity|].
  specialize (Hnone i Hi). fold o in Hnone. congruence.
Qed.

(** The obstacle of [one_obstacle] and a player of radius 1 and height 0. *)
Lemma collides_at_obstacle_witness :
  let z := F32.zero in
  let w := F32.of_int 100 in
  let o := obstacles one_obstacle !!! Z.to_nat 0 in
  collides o f_1_0 z (obs_x o) (obs_y o) w w = true /\
  check_collision z z f_1_0 z (obs_x o) (obs_y o) w w one_obstacle = 1.
Proof.
  intros z w o.
  apply (collides_at_obstacle z z f_1_0 z w w one_obstacle 0).
  - vm_compute. split; [discriminate|reflexivity].
  - vm_compute. exact I.
  - vm_compute. exact I.
  - vm_compute. reflexivity.
  - vm_compute. reflexivity.
  - vm_compute. reflexivity.
  - vm_compute. reflexivity.
Defined.

(* ================================================================= *)
(** * The two modes of the rasterizer at step 1 *)

(** The product of a float of the format by [1.0f] is the float. *)
Lemma mul_one_exact (x : float) :
  valid_binary F32.prec F32.emax x = true -> (x * F32.of_int 1)%f32 = x.
Proof.
  destruct x as [s|s| |s m e]; cbn [valid_binary]; intros Hv.
  - destruct s; reflexivity.
  - destruct s; reflexivity.
  - reflexivity.
  - unfold bounded, canonical_mantissa in Hv.
    apply andb_prop in Hv as [Hc Hb]. apply Z.eqb_eq in Hc. apply Z.leb_le in Hb.
    change (F32.of_int 1) with (S754_finite false 8388608 (-23)).
    unfold F32.mul, SFmul. rewrite xorb_false_r, Pos.mul_comm.
    replace (8388608 * m)%positive with (Pos.iter xO m 23) by reflexivity.
    unfold binary_round_aux, shr_fexp. cbn [Zdigits2 shr_record_of_loc].
    rewrite iter_xO_digits.
    replace (Z.pos (digits2_pos m) + 23 + (e + -23)) with (Z.pos (digits2_pos m) + e) by lia.
    rewrite Hc. replace (e - (e + -23)) with 23 by lia.
    assert (SpecFloat.iter_pos shr_1 23
              {| shr_m := Z.pos (Pos.iter xO m 23); shr_r := false; shr_s := false |} =
            {| shr_m := Z.pos m; shr_r := false; shr_s := false |}) as Hsh by reflexivity.
    cbn [shr]. rewrite Hsh.
    cbn [shr_m loc_of_shr_record round_nearest_even Zdigits2].
    replace (e + -23 + 23) with e by lia. rewrite Hc, Z.sub_diag. cbn [shr shr_m].
    destruct (Z.leb_spec e (F32.emax - F32.prec)); [reflexivity|lia].
Qed.

Section StepOne.
Context `{Target}.

Lemma row_step_one ground_h y base_res dynamic_res layered_res state_move state_rot tilt :
  base_res <= 1 -> dynamic_res = 0 \/ layered_res = 0 ->
  row_step ground_h y base_res dynamic_res layered_res state_move state_rot tilt = 1.
Proof.
  intros Hbase Hflags. unfold row_step.
  assert (negb (dynamic_res =? 0) && negb (layered_res =? 0) = false) as ->.
  { destruct Hflags as [-> | ->]; cbn; [reflexivity|apply andb_false_r]. }
  destruct (_ <=? _)%f32; [|destruct (_ <=? _)%f32];
    destruct (Z.ltb_spec base_res 1); lia.
Qed.

(** X20. With [base_res] at most 1 and dynamic or layered resolution off,
    every row of the performance mode has step 1, no row is copied, and the
    picture is the one of the quality mode, byte for byte, provided the
    increments of the scanlines are floats of the format (multiplying them
    by [(float) 1] is then exact). *)
Theorem performance_at_step_one
    (ground_pixels : pixbuf) (map_data : list Z) (ground_w ground_h map_w map_h : Z)
    (camera_x camera_y cos_a sin_a sh_focal tan_f : float)
    (base_res dynamic_res layered_res state_move state_rot : Z) (tilt : float) :
  0 < ground_w -> 0 < ground_h -> 0 < map_w -> 0 < map_h ->
  length (px_bytes ground_pixels) = Z.to_nat (ground_w * ground_h * 4) ->
  base_res <= 1 -> dynamic_res = 0 \/ layered_res = 0 ->
  (forall y, 0 <= y < ground_h ->
     let sl := scanline ground_w y camera_x camera_y cos_a sin_a sh_focal tan_f in
     valid_binary F32.prec F32.emax (sl_dx sl) = true /\
     valid_binary F32.prec F32.emax (sl_dy sl) = true) ->
  (forall y, row_step ground_h y base_res dynamic_res layered_res state_move state_rot tilt
             = 1) /\
  px_bytes <$> render_ground_performance ground_pixels map_data ground_w ground_h map_w map_h
                 camera_x camera_y cos_a sin_a sh_focal tan_f
                 base_res dynamic_res layered_res state_move state_rot tilt =
  Some (px_bytes (render_ground_quality ground_pixels map_data ground_w ground_h map_w map_h
                    camera_x camera_y cos_a sin_a sh_focal tan_f)).
Proof.
  intros Hw Hh Hmw Hmh Hlen Hbase Hflags Hvalid.
  assert (forall y, row_step ground_h y base_res dynamic_res layered_res state_move
                      state_rot tilt = 1) as Hone
    by (intros y; apply row_step_one; assumption).
  split; [exact Hone|].
  destruct (render_ground_performance_values map_data ground_w ground_h map_w map_h
              camera_x camera_y cos_a sin_a sh_focal tan_f
              base_res dynamic_res layered_res state_move state_rot tilt
              Hw Hmw Hmh ground_pixels Hh Hlen) as (p' & -> & Hl & Hperf).
  destruct (render_ground_quality_values ground_pixels map_data ground_w ground_h map_w map_h
              camera_x camera_y cos_a sin_a sh_focal tan_f Hw Hh Hmw Hmh Hlen) as (Hl' & Hqual).
  cbn. f_equal.
  eapply (pixels_eq _ _ ground_w ground_h); [exact Hw|exact Hh| | | |exact Hqual];
    [congruence|congruence|].
  intros x y c Hx Hy Hc. rewrite (Hperf x y c Hx Hy Hc). f_equal.
  rewrite source_row_recomputed; [|lia|].
  2:{ unfold recomputed. rewrite Hone, Z.rem_1_r. apply orb_true_r. }
  rewrite Hone. unfold performance_sample, quality_sample.
  destruct (Hvalid y Hy) as [Hdx Hdy]. cbn zeta in Hdx, Hdy.
  rewrite (mul_one_exact _ Hdx), (mul_one_exact _ Hdy), Z.div_1_r. reflexivity.
Qed.
End StepOne.

(* ================================================================= *)
(** * The number of records and the order of the obstacles *)

Lemma length_flat_map_const {A B} (f : A -> list B) (n : nat) (l : list A) :
  (forall x, length (f x) = n) -> length (flat_map f l) = (length l * n)%nat.
Proof.
  intros Hf. induction l as [|a l IH]; [reflexivity|].
  cbn [flat_map length]. rewrite length_app, Hf, IH. lia.
Qed.

Section CountBound.
Context `{Target}.

Lemma length_images v count :
  length (images v count) =
  (Z.to_nat count * (Z.to_nat (2 * tiles_x v + 1) * Z.to_nat (2 * tiles_y v + 1)))%nat.
Proof.
  unfold images, tile_offsets.
  rewrite (length_flat_map_const _
             (Z.to_nat (2 * tiles_x v + 1) * Z.to_nat (2 * tiles_y v + 1))), length_seqZ;
    [reflexivity|].
  intros i. rewrite (length_flat_map_const _ (Z.to_nat (2 * tiles_y v + 1))), length_seqZ;
    [reflexivity|].
  intros tx. rewrite length_map, length_seqZ. reflexivity.
Qed.

(** X21. When the numbers of tiles are such that the bounds of the two
    loops over the tile offsets, [- tiles] and [tiles + 1], are values of
    [int], [process_visible_obstacles] returns at most one record for each
    image scanned: the number of registered obstacles times the
    [2 * tiles_x + 1] by [2 * tiles_y + 1] tile offsets.  When a number of
    tiles is negative (the search radius over the size of the map is at most
    -1) no image is scanned and the function returns 0. *)
Theorem record_count_bound
    camera_x camera_y camera_z camera_angle player_x player_y player_height
    fov max_render_distance map_width map_height output_buffer st :
  State_wf st ->
  let v := make_view camera_x camera_y camera_angle player_x player_y player_height
             fov max_render_distance map_width map_height in
  INT_MIN < tiles_x v < INT_MAX -> INT_MIN < tiles_y v < INT_MAX ->
  let r := process_visible_obstacles camera_x camera_y camera_z camera_angle
             player_x player_y player_height fov max_render_distance
             map_width map_height output_buffer st in
  INT_MIN <= - tiles_x v <= INT_MAX /\ INT_MIN <= tiles_x v + 1 <= INT_MAX /\
  INT_MIN <= - tiles_y v <= INT_MAX /\ INT_MIN <= tiles_y v + 1 <= INT_MAX /\
  0 <= snd r <=
    obstacle_count st * (Z.max 0 (2 * tiles_x v + 1) * Z.max 0 (2 * tiles_y v + 1)) /\
  (tiles_x v < 0 \/ tiles_y v < 0 -> snd r = 0).
Proof.
  intros Hwf v Htx Hty r.
  split; [unfold INT_MIN, INT_MAX in *; lia|].
  split; [unfold INT_MIN, INT_MAX in *; lia|].
  split; [unfold INT_MIN, INT_MAX in *; lia|].
  split; [unfold INT_MIN, INT_MAX in *; lia|].
  assert (0 <= snd r <=
          obstacle_count st * (Z.max 0 (2 * tiles_x v + 1) * Z.max 0 (2 * tiles_y v + 1)))
    as Hb.
  { pose proof Hwf as (_ & _ & Hc). subst r.
    assert (0 <= Z.max 0 (2 * tiles_x v + 1) * Z.max 0 (2 * tiles_y v + 1)) as Hm
      by (apply Z.mul_nonneg_nonneg; lia).
    assert (0 <= obstacle_count st *
                 (Z.max 0 (2 * tiles_x v + 1) * Z.max 0 (2 * tiles_y v + 1))) as Hp
      by (apply Z.mul_nonneg_nonneg; lia).
    destruct output_buffer as [out|]; [|cbn; lia].
    destruct (Z.eq_dec (obstacle_count st) 0) as [Hz|Hnz].
    { unfold process_visible_obstacles. rewrite Hz. cbn. lia. }
    destruct (process_visible_obstacles_returned camera_x camera_y camera_z camera_angle
                player_x player_y player_height fov max_render_distance map_width
                map_height out st Hwf Hnz) as (Hn & _).
    cbn zeta in Hn. fold v in Hn. rewrite Hn. split; [lia|].
    unfold collected.
    pose proof (filter_length_le (visible_image v (obstacles st))
                  (images v (obstacle_count st))) as Hf.
    rewrite length_images in Hf.
    rewrite length_take, length_map. nia. }
  split; [exact Hb|]. intros Hneg. nia.
Qed.
End CountBound.

Section OrderIndependence.
Variables player_x player_y player_radius player_height new_x new_y map_width map_height : float.

(** X22. [check_collision] does not depend on the order of the registered
    obstacles: two registries holding the same obstacles, in any order,
    give the same result. *)
Theorem collision_order_independent st1 st2 :
  State_wf st1 -> State_wf st2 ->
  obstacle_count st2 = obstacle_count st1 ->
  take (Z.to_nat (obstacle_count st1)) (obstacles st1) ≡ₚ
  take (Z.to_nat (obstacle_count st2)) (obstacles st2) ->
  check_collision player_x player_y player_radius player_height new_x new_y
    map_width map_height st1 =
  check_collision player_x player_y player_radius player_height new_x new_y
    map_width map_height st2.
Proof.
  intros (Hl1 & _ & Hn & Hcap1) (Hl2 & _ & _ & Hcap2) Hc Hperm. rewrite Hc in Hperm.
  assert (obstacle_count st1 <= Z.of_nat (length (obstacles st1))) as Hcap by lia.
  assert (length (obstacles st1) = length (obstacles st2)) as Hlen by congruence.
  assert (forall sa sb,
            obstacle_count sa = obstacle_count st1 -> obstacle_count sb = obstacle_count st1 ->
            obstacle_count st1 <= Z.of_nat (length (obstacles sa)) ->
            obstacle_count st1 <= Z.of_nat (length (obstacles sb)) ->
            take (Z.to_nat (obstacle_count st1)) (obstacles sa) ≡ₚ
            take (Z.to_nat (obstacle_count st1)) (obstacles sb) ->
            check_collision player_x player_y player_radius player_height new_x new_y
              map_width map_height sa = 1 ->
            check_collision player_x player_y player_radius player_height new_x new_y
              map_width map_height sb = 1) as Hdir.
  { intros sa sb Ha Hb Hla Hlb Hp Hone.
    destruct (check_collision_spec player_radius player_height new_x new_y map_width
                map_height player_x player_y sa) as [(_ & j & Hj & Hhit)|(Hz & _)];
      [|congruence].
    destruct (check_collision_spec player_radius player_height new_x new_y map_width
                map_height player_x player_y sb) as [(Hr & _)|(_ & Hnone)]; [exact Hr|].
    exfalso.
    destruct (lookup_lt_is_Some_2 (obstacles sa) (Z.to_nat j) ltac:(lia)) as [o Ho].
    rewrite (list_lookup_total_correct _ _ _ Ho) in Hhit.
    assert (o ∈ take (Z.to_nat (obstacle_count st1)) (obstacles sa)) as Hin.
    { apply list_elem_of_lookup. exists (Z.to_nat j). rewrite lookup_take_lt by lia. exact Ho. }
    rewrite Hp in Hin. apply list_elem_of_lookup in Hin as (k & Hk).
    apply lookup_take_Some in Hk as [Hk Hlt].
    specialize (Hnone (Z.of_nat k) ltac:(lia)). rewrite Nat2Z.id in Hnone.
    rewrite (list_lookup_total_correct _ _ _ Hk) in Hnone. congruence. }
  destruct (check_collision_spec player_radius player_height new_x new_y map_width
              map_height player_x player_y st1) as [(H1 & _)|(H1 & _)];
    destruct (check_collision_spec player_radius player_height new_x new_y map_width
                map_height player_x player_y st2) as [(H2 & _)|(H2 & _)];
    try congruence.
  - pose proof (Hdir st1 st2 eq_refl Hc Hcap ltac:(lia) Hperm H1). congruence.
  - pose proof (Hdir st2 st1 Hc eq_refl ltac:(lia) Hcap (symmetry Hperm) H2). congruence.
Qed.
End OrderIndependence.

Section MoreExamples.
#[local] Existing Instance example_target.

(** The scene of [performance_four_rows] with dynamic resolution off. *)
Lemma performance_at_step_one_witness :
  (forall y, row_step 4 y 1 0 1 0 0 F32.zero = 1) /\
  px_bytes <$> render_ground_performance (blank 32) checker_map 2 4 2 2
                 F32.zero F32.zero f_1_0 F32.zero (F32.of_int 4) f_1_0 1 0 1 0 0 F32.zero =
  Some (px_bytes (render_ground_quality (blank 32) checker_map 2 4 2 2
                    F32.zero F32.zero f_1_0 F32.zero (F32.of_int 4) f_1_0)).
Proof.
  apply (performance_at_step_one (blank 32) checker_map 2 4 2 2
           F32.zero F32.zero f_1_0 F32.zero (F32.of_int 4) f_1_0 1 0 1 0 0 F32.zero);
    try lia; [reflexivity|].
  intros y Hy.
  assert (y = 0 \/ y = 1 \/ y = 2 \/ y = 3) as [-> | [-> | [-> | ->]]] by lia;
    vm_compute; split; reflexivity.
Defined.

(** The scene of [axis_returned] with a render distance of -200 on a map
    100 wide: the search radius is -240 and the number of tiles is -2 on each
    axis. *)
Lemma record_count_bound_witness :
  let z := F32.zero in
  let v := make_view z z z (F32.of_int 25) z z
             (F32.lit 15 10) (F32.of_int (-200)) (F32.of_int 100) (F32.of_int 100) in
  let r := process_visible_obstacles z z z z (F32.of_int 25) z z
             (F32.lit 15 10) (F32.of_int (-200)) (F32.of_int 100) (F32.of_int 100)
             (Some no_output) axis_obstacles in
  (tiles_x v = -2 /\ tiles_y v = -2) /\
  INT_MIN <= - tiles_x v <= INT_MAX /\ INT_MIN <= tiles_x v + 1 <= INT_MAX /\
  INT_MIN <= - tiles_y v <= INT_MAX /\ INT_MIN <= tiles_y v + 1 <= INT_MAX /\
  0 <= snd r <=
    obstacle_count axis_obstacles *
    (Z.max 0 (2 * tiles_x v + 1) * Z.max 0 (2 * tiles_y v + 1)) /\
  (tiles_x v < 0 \/ tiles_y v < 0 -> snd r = 0).
Proof.
  intros z v r. split; [vm_compute; split; reflexivity|].
  apply (record_count_bound z z z z (F32.of_int 25) z z
           (F32.lit 15 10) (F32.of_int (-200)) (F32.of_int 100) (F32.of_int 100)
           (Some no_output) axis_obstacles axis_obstacles_wf).
  - vm_compute. split; reflexivity.
  - vm_compute. split; reflexivity.
Defined.

(** The two obstacles of [two_obstacles], registered in the other order. *)
Lemma collision_order_independent_witness :
  let z := F32.zero in
  let swapped :=
    fst (add_obstacles_batch (tuples [(10, 0, 25, 5, 2, 0); (90, 0, 1, 0, 1, 0)]) 2
           initial_state) in
  check_collision z z f_1_0 z (F32.of_int 90) z (F32.of_int 100) (F32.of_int 100)
    two_obstacles =
  check_collision z z f_1_0 z (F32.of_int 90) z (F32.of_int 100) (F32.of_int 100) swapped.
Proof.
  intros z swapped.
  apply (collision_order_independent z z f_1_0 z (F32.of_int 90) z (F32.of_int 100)
           (F32.of_int 100) two_obstacles swapped).
  - apply add_obstacles_batch_wf; [apply initial_state_wf|lia].
  - apply add_obstacles_batch_wf; [apply initial_state_wf|lia].
  - vm_compute. reflexivity.
  - vm_compute. apply perm_swap.
Defined.
End MoreExamples.

(* ================================================================= *)
(** * The cells read from the input buffer *)

Section InputCells.
Context `{Target}.

Lemma for_nat_add_one_ext (data data' : fbuf) (n : nat) : forall i st a,
  (forall j, i * 6 <= j < (i + Z.min (Z.of_nat n) (MAX_OBSTACLES - obstacle_count st)) * 6 ->
     data j = data' j) ->
  for_nat n i (add_one data) (st, a) = for_nat n i (add_one data') (st, a).
Proof.
  induction n as [|n IH]; intros i st a Hsame; [reflexivity|].
  cbn [for_nat]. unfold add_one at 1 3.
  destruct (Z.ltb_spec (obstacle_count st) MAX_OBSTACLES) as [Hlt|Hge]; [|reflexivity].
  rewrite !(Hsame (i * 6)), !(Hsame (i * 6 + 1)), !(Hsame (i * 6 + 2)),
    !(Hsame (i * 6 + 3)), !(Hsame (i * 6 + 4)), !(Hsame (i * 6 + 5)) by lia.
  apply IH. cbn [obstacle_count]. intros j Hj. apply Hsame. lia.
Qed.

(** X23. [add_obstacles_batch] reads the input buffer only where it stores
    from: with [n] obstacles registered, the result depends on the first
    [6 * min (count, MAX_OBSTACLES - n)] floats of [data] and on no cell
    beyond them, so a buffer of that many floats is enough. *)
Theorem add_reads_prefix (data data' : fbuf) (count : Z) (st : State) :
  (forall j, 0 <= j < 6 * Z.min count (MAX_OBSTACLES - obstacle_count st) ->
     data j = data' j) ->
  add_obstacles_batch data count st = add_obstacles_batch data' count st.
Proof.
  intros Hsame. unfold add_obstacles_batch, for_range. f_equal.
  apply for_nat_add_one_ext. intros j Hj. apply Hsame. lia.
Qed.
End InputCells.

Section InputCellsExamples.
#[local] Existing Instance example_target.

(** Three tuples offered to a registry with one free cell, and the first of
    them alone. *)
Lemma add_reads_prefix_witness :
  add_obstacles_batch
    (tuples [(10, 10, 2, 1, 1, 0); (20, 20, 2, 1, 2, 0); (30, 30, 2, 1, 3, 0)]) 3 nearly_full =
  add_obstacles_batch (tuples [(10, 10, 2, 1, 1, 0)]) 3 nearly_full.
Proof.
  apply (add_reads_prefix
           (tuples [(10, 10, 2, 1, 1, 0); (20, 20, 2, 1, 2, 0); (30, 30, 2, 1, 3, 0)])
           (tuples [(10, 10, 2, 1, 1, 0)]) 3 nearly_full).
  intros j Hj. cbn [nearly_full obstacle_count] in Hj.
  assert (j = 0 \/ j = 1 \/ j = 2 \/ j = 3 \/ j = 4 \/ j = 5)
    as [-> | [-> | [-> | [-> | [-> | ->]]]]] by lia; reflexivity.
Defined.
End InputCellsExamples.
